(** * DVSR / HVSR: depth video super-resolution, two-stage propagation

    A shallow embedding of [src/model/dvsr.py] and [src/model/hvsr.py].

    Tensor elements are modelled as real numbers (the idealised semantics of
    the floating-point arithmetic of the source), except in the symmetry test
    of [check_if_mirror_extended], whose outcome depends on float32 rounding
    and which is modelled in float32.  A sequence tensor of shape
    (n, t, c, h, w) is the list of its [t] frames; a frame (n, c, h, w) is the
    list of its [n] samples; a sample (c, h, w) is the list of its [c]
    channel planes; a plane is the row-major list of its h*w elements, so a
    tensor with an axis of size 0 keeps no record of its other sizes.  The
    [view] calls that name their sizes check the number of elements and
    regroup them.  Learned operators (flow network, convolution stacks,
    deformable alignment) and the resampling primitives are parameters of the
    model. *)

From Stdlib Require Import String.
From Stdlib Require Import List ZArith Reals Lra Lia Bool Arith.
Import ListNotations.

Set Implicit Arguments.

(** ** Exceptions *)

Inductive exn : Type :=
| AttributeError
| IndexError
| KeyError
| ValueError
| TypeError
| RuntimeError.

Inductive result (A : Type) : Type :=
| Ok (a : A)
| Raise (e : exn).

Arguments Ok {A} a.
Arguments Raise {A} e.

Definition bind {A B : Type} (m : result A) (k : A -> result B) : result B :=
  match m with
  | Ok a => k a
  | Raise e => Raise e
  end.

Notation "x <- m ;; k" := (bind m (fun x => k))
  (at level 61, m at next level, right associativity).
Notation "' p <- m ;; k" := (bind m (fun p => k))
  (at level 61, p pattern, m at next level, right associativity).

(** ** Python lists and ranges *)

Section PyList.
Context {A : Type}.

(** [l[i]] with Python's negative indices; [IndexError] out of range. *)
Definition py_index (l : list A) (i : Z) : result A :=
  let len := Z.of_nat (length l) in
  let j := if (i <? 0)%Z then (len + i)%Z else i in
  if ((0 <=? j) && (j <? len))%Z%bool then
    match nth_error l (Z.to_nat j) with
    | Some a => Ok a
    | None => Raise IndexError
    end
  else Raise IndexError.

(** [enumerate(l)] *)
Fixpoint enumerate_from (i : nat) (l : list A) : list (nat * A) :=
  match l with
  | [] => []
  | a :: r => (i, a) :: enumerate_from (S i) r
  end.

Definition enumerate (l : list A) : list (nat * A) := enumerate_from 0 l.
End PyList.

(** [range(lo, hi)] as the list of its values. *)
Definition py_range (lo hi : Z) : list Z :=
  map (fun k => (lo + Z.of_nat k)%Z) (seq 0 (Z.to_nat (hi - lo))).

Fixpoint zip_with {A B C : Type} (f : A -> B -> C) (xs : list A) (ys : list B)
  : list C :=
  match xs, ys with
  | x :: xs', y :: ys' => f x y :: zip_with f xs' ys'
  | _, _ => []
  end.

(** ** Tensors *)

Abbreviation Plane := (list R) (only parsing).
Abbreviation Sample := (list (list R)) (only parsing).
Abbreviation Batch := (list (list (list R))) (only parsing).
Abbreviation Seq := (list (list (list (list R)))) (only parsing).

Definition shaped_sample (c hw : nat) (s : Sample) : Prop :=
  length s = c /\ Forall (fun p : Plane => length p = hw) s.

Definition shaped_batch (n c hw : nat) (b : Batch) : Prop :=
  length b = n /\ Forall (shaped_sample c hw) b.

Definition shaped_seq (n c hw : nat) (x : Seq) : Prop :=
  Forall (shaped_batch n c hw) x.

Local Open Scope R_scope.

(** Element-wise arithmetic on tensors of equal shape (broadcasting between
    unequal shapes is not modelled). *)
Definition map_plane2 (f : R -> R -> R) : Plane -> Plane -> Plane := zip_with f.
Definition map_sample2 (f : R -> R -> R) : Sample -> Sample -> Sample :=
  zip_with (map_plane2 f).
Definition map_batch2 (f : R -> R -> R) : Batch -> Batch -> Batch :=
  zip_with (map_sample2 f).
Definition map_seq2 (f : R -> R -> R) : Seq -> Seq -> Seq :=
  zip_with (map_batch2 f).

Definition map_batch (f : R -> R) (b : Batch) : Batch := map (map (map f)) b.
Definition map_seq (f : R -> R) (x : Seq) : Seq := map (map_batch f) x.

(** [x.flip(1)] : reversal along the time axis. *)
Definition flip1 (x : Seq) : Seq := rev x.

(** [torch.chunk(x, 2, dim=1)] : two pieces of ceil(t/2) and the rest. *)
Definition chunk2_time (x : Seq) : Seq * Seq :=
  let k := Nat.div (length x + 1) 2 in
  (firstn k x, skipn k x).

Definition elements (x : Seq) : list R := concat (concat (concat x)).

(** [torch.round] : to the nearest integer, ties to even. *)
Definition round_half_even (v : R) : R :=
  let f := Zfloor v in
  let d := v - IZR f in
  if Rlt_dec d (1 / 2) then IZR f
  else if Rlt_dec (1 / 2) d then IZR (f + 1)
  else if Z.even f then IZR f else IZR (f + 1).

(** ** float32 arithmetic of the symmetry test

    The test [torch.norm(lqs_1 - lqs_2.flip(1)) == 0] is decided on float32
    tensors, where a small nonzero square underflows to 0.  A real number is
    rounded to the nearest float32, ties to even, with gradual underflow:
    the spacing of the float32 numbers around [x] is 2^(e-23) for the binade
    e = floor(log2 |x|), and 2^-149 below 2^-126.  Overflow, which never
    yields 0, is not modelled. *)

Definition exponent32 (x : R) : Z :=
  Z.max (-126) (Zfloor (ln (Rabs x) / ln 2)).

Definition ulp32 (x : R) : R := powerRZ 2 (exponent32 x - 23).

Definition round32 (x : R) : R := round_half_even (x / ulp32 x) * ulp32 x.

(** The smallest positive float32. *)
Definition tiny32 : R := powerRZ 2 (-149).

(** Element of [a - b] on float32 tensors. *)
Definition sub32 (a b : R) : R := round32 (a - b).

(** [torch.norm(x)] on a float32 tensor: the squares, their running sum and
    the square root, each rounded.  (Whether the result is 0 does not depend
    on the order of the additions.) *)
Definition sum_sq32 (xs : list R) : R :=
  fold_right (fun v acc => round32 (round32 (v * v) + acc)) 0 xs.

Definition norm32 (x : Seq) : R := round32 (sqrt (sum_sq32 (elements x))).

(** ** The model object *)

Record DVSR : Type := mkDVSR {
  is_mirror_extended : bool;
  cpu_cache : bool;
  cpu_cache_length : nat;
  mid_channels : nat;
  scale : nat
}.

(** The attributes that the modelled methods read.  [__init__] sets all of
    them but [cpu_cache], which [hg_forward] assigns before any method reads
    it; here it starts with the value that [hg_forward] assigns on a CPU
    input. *)
Definition DVSR_init (mid_channels scale cpu_cache_length : nat) : DVSR :=
  {| is_mirror_extended := false;
     cpu_cache := false;
     cpu_cache_length := cpu_cache_length;
     mid_channels := mid_channels;
     scale := scale |}.

Definition set_mirror (self : DVSR) (v : bool) : DVSR :=
  {| is_mirror_extended := v;
     cpu_cache := cpu_cache self;
     cpu_cache_length := cpu_cache_length self;
     mid_channels := mid_channels self;
     scale := scale self |}.

Definition set_cpu_cache (self : DVSR) (v : bool) : DVSR :=
  {| is_mirror_extended := is_mirror_extended self;
     cpu_cache := v;
     cpu_cache_length := cpu_cache_length self;
     mid_channels := mid_channels self;
     scale := scale self |}.

(** [check_if_mirror_extended(self, lqs)] *)
Definition check_if_mirror_extended (self : DVSR) (lqs : Seq) : DVSR :=
  if Nat.eqb (Nat.modulo (length lqs) 2) 0 then
    let '(lqs_1, lqs_2) := chunk2_time lqs in
    if Req_dec_T (norm32 (map_seq2 sub32 lqs_1 (flip1 lqs_2))) 0
    then set_mirror self true
    else self
  else self.

(** ** Shape bookkeeping *)

Section Shapes.
Context {A : Type}.

Fixpoint mapM {B : Type} (f : A -> result B) (l : list A) : result (list B) :=
  match l with
  | [] => Ok []
  | a :: r => b <- f a ;; bs <- mapM f r ;; Ok (b :: bs)
  end.

(** Rows and columns exchanged; [m] is the length of the inner lists. *)
Definition transpose (m : nat) (xs : list (list A)) : list (list A) :=
  fold_right (zip_with cons) (repeat [] m) xs.

(** [n] consecutive pieces of [t] elements each. *)
Fixpoint chunks (n t : nat) (l : list A) : list (list A) :=
  match n with
  | O => []
  | S n' => firstn t l :: chunks n' t (skipn t l)
  end.

Definition from_option (e : exn) (o : option A) : result A :=
  match o with
  | Some a => Ok a
  | None => Raise e
  end.
End Shapes.

(** [x.size(0)] of a 5-D tensor with at least one frame. *)
Definition batch_size (x : Seq) : nat :=
  match x with
  | [] => O
  | b :: _ => length b
  end.

(** Number of elements h*w of a plane of the first frame. *)
Definition plane_size (x : Seq) : nat :=
  match x with
  | ((p :: _) :: _) :: _ => length p
  | _ => O
  end.

Definition channels (b : Batch) : nat :=
  match b with
  | [] => O
  | s :: _ => length s
  end.

(** [x.size(2)] of a 5-D tensor with at least one frame and one sample. *)
Definition channel_count (x : Seq) : nat :=
  match x with
  | [] => O
  | b :: _ => channels b
  end.

(** The samples of a 5-D tensor in memory order: batch and time merged,
    batch-major. *)
Definition reshape_merge (x : Seq) : Batch :=
  concat (transpose (batch_size x) x).

(** The elements of a 4-D tensor in memory order. *)
Definition flat (x : Batch) : list R := concat (concat x).

(** [x.view(-1, c, h, w)] with the sizes given, [hw] = h*w, of a contiguous
    tensor with the elements [els]: the elements regrouped, RuntimeError when
    their number is not a multiple of c*h*w. *)
Definition view4 (c hw : nat) (els : list R) : result Batch :=
  let per := (c * hw)%nat in
  if Nat.eqb per 0 then Raise RuntimeError
  else if Nat.eqb (Nat.modulo (length els) per) 0
       then Ok (map (chunks c hw) (chunks (Nat.div (length els) per) per els))
       else Raise RuntimeError.

(** [x.view(n, t, c, h, w)] with the sizes given, of a 4-D tensor:
    RuntimeError unless it holds n*t*c*h*w elements. *)
Definition view5 (n t c hw : nat) (x : Batch) : result Seq :=
  if Nat.eqb (length (flat x)) (n * t * c * hw)
  then Ok (transpose t
             (chunks n t
                (map (chunks c hw) (chunks (n * t) (c * hw) (flat x)))))
  else Raise RuntimeError.

(** [h, w = x.shape[2:]; x.view(n, t, -1, h, w)] of a 4-D tensor with at
    least one sample and one channel: the channel count is inferred,
    RuntimeError unless the number of elements is a multiple of
    n*t*h*w > 0. *)
Definition view_split (n t : nat) (x : Batch) : result Seq :=
  let hw := plane_size [x] in
  let per := (n * t * hw)%nat in
  if Nat.eqb per 0 then Raise RuntimeError
  else if Nat.eqb (Nat.modulo (length (flat x)) per) 0
       then view5 n t (Nat.div (length (flat x)) per) hw x
       else Raise RuntimeError.

(** [torch.cat(bs, dim=1)] of 4-D tensors: channel planes appended per sample. *)
Definition cat_c (bs : list Batch) : result Batch :=
  match bs with
  | [] => Raise RuntimeError
  | b :: rest =>
      if forallb (fun b' : Batch => Nat.eqb (length b') (length b)) rest
      then Ok (fold_left (zip_with (@app Plane)) rest b)
      else Raise RuntimeError
  end.

(** [torch.cat(pieces, dim=1)] of tensors [fb.unsqueeze(1)], and
    [torch.stack(frames, dim=1)]. *)
Definition cat_time (pieces : list Batch) : result Seq :=
  match pieces with
  | [] => Raise RuntimeError
  | _ => Ok pieces
  end.

(** [torch.chunk(hr, 2, dim=1)] unpacked into two names. *)
Definition chunk2_c (hr : Batch) : result (Batch * Batch) :=
  let c := channels hr in
  let k := Nat.div (c + 1) 2 in
  if Nat.eqb c 1 then Raise ValueError
  else Ok (map (firstn k) hr, map (skipn k) hr).

Definition new_zeros (n c hw : nat) : Batch := repeat (repeat (repeat 0 hw) c) n.
Definition zeros_like (b : Batch) : Batch := map_batch (fun _ => 0) b.

(** ** Learned operators and resampling primitives *)

Record Networks : Type := {
  spynet : nat -> Batch -> Batch -> Batch;
  conv_guide_init : nat -> Batch -> Batch;
  feat_extract : nat -> Batch -> Batch;
  deform_align : nat -> string -> Batch -> Batch -> Batch -> Batch -> Batch;
  backbone : nat -> string -> Batch -> Batch;
  reconstruction : nat -> Batch -> Batch;
  final_pred : nat -> Batch -> Batch;
  img_upsample : Batch -> Batch;
  flow_warp : Batch -> Batch -> Batch;
  permute_0231 : Batch -> Batch;
  interpolate_bicubic : Batch -> Batch;
  repeat_interleave_hw : nat -> Seq -> Seq
}.

(** ** Feature dictionary: keys in insertion order *)

Definition Feats := list (string * list Batch).

Fixpoint dict_get (d : Feats) (k : string) : result (list Batch) :=
  match d with
  | [] => Raise KeyError
  | (k', v) :: r => if String.eqb k' k then Ok v else dict_get r k
  end.

Fixpoint dict_set (d : Feats) (k : string) (v : list Batch) : Feats :=
  match d with
  | [] => [(k, v)]
  | (k', v') :: r =>
      if String.eqb k' k then (k', v) :: r else (k', v') :: dict_set r k v
  end.

(** ["backward" in module_name] *)
Definition is_backward (module_name : string) : bool :=
  match index 0 "backward" module_name with
  | Some _ => true
  | None => false
  end.

(** ** compute_flow *)

Definition compute_flow (N : Networks) (self : DVSR) (guides : Seq)
    (hg_idx : nat) : result (option Seq * Seq) :=
  let n := batch_size guides in
  let t := length guides in
  let c := channel_count guides in
  let hw := plane_size guides in
  let guides_1 := removelast guides in
  let guides_2 := tl guides in
  let pairwise (first second : Seq) : result Seq :=
    pieces <- mapM (fun tt : nat =>
                      a <- py_index first (Z.of_nat tt) ;;
                      b <- py_index second (Z.of_nat tt) ;;
                      Ok (spynet N hg_idx a b))
                   (seq 0 (t - 1)) ;;
    cat_time pieces in
  let batched (first second : Seq) : result Seq :=
    a <- view4 c hw (flat (reshape_merge first)) ;;
    b <- view4 c hw (flat (reshape_merge second)) ;;
    view5 n (t - 1) 2 hw (spynet N hg_idx a b) in
  flows_backward <-
    (if cpu_cache self then pairwise guides_1 guides_2
     else batched guides_1 guides_2) ;;
  flows_forward <-
    (if is_mirror_extended self then Ok None
     else
       ff <- (if cpu_cache self then pairwise guides_2 guides_1
              else batched guides_2 guides_1) ;;
       Ok (Some ff)) ;;
  if cpu_cache self then
    (* flows_backward.cpu(); flows_forward.cpu() *)
    ff <- from_option AttributeError flows_forward ;;
    Ok (Some ff, flows_backward)
  else Ok (flows_forward, flows_backward).

(** ** propagate *)

Section Propagate.
Variable N : Networks.
Variable self : DVSR.
Variable flows : Seq.
Variable module_name : string.
Variable hg_idx : nat.

Definition other_branches (feats : Feats) : Feats :=
  filter (fun kv : string * list Batch =>
            negb (String.eqb (fst kv) "spatial"
                  || String.eqb (fst kv) module_name))
         feats.

(** The block under [if i > 0]: second-order deformable alignment of the
    accumulator [feat_prop]. *)
Definition align (flow_idx : list Z) (i : nat) (feats : Feats)
    (feat_prop feat_current : Batch) : result Batch :=
  fi <- py_index flow_idx (Z.of_nat i) ;;
  flow_n1 <- py_index flows fi ;;
  let cond_n1 := flow_warp N feat_prop (permute_0231 N flow_n1) in
  '(feat_n2, flow_n2, cond_n2) <-
    (if Nat.ltb 1 i then
       own <- dict_get feats module_name ;;
       feat_n2 <- py_index own (-2)%Z ;;
       fi2 <- py_index flow_idx (Z.of_nat (i - 1)) ;;
       flow_n2 <- py_index flows fi2 ;;
       let flow_n2 :=
         map_batch2 Rplus flow_n1
           (flow_warp N flow_n2 (permute_0231 N flow_n1)) in
       let cond_n2 := flow_warp N feat_n2 (permute_0231 N flow_n2) in
       Ok (feat_n2, flow_n2, cond_n2)
     else
       Ok (zeros_like feat_prop, zeros_like flow_n1, zeros_like cond_n1)) ;;
  cond <- cat_c [cond_n1; feat_current; cond_n2] ;;
  stacked <- cat_c [feat_prop; feat_n2] ;;
  Ok (deform_align N hg_idx module_name stacked cond flow_n1 flow_n2).

(** The block after it: concatenation, residual blocks, append. *)
Definition residual_append (idx : Z) (feats : Feats)
    (feat_prop feat_current : Batch) : result (Batch * Feats) :=
  others <- mapM (fun kv : string * list Batch => py_index (snd kv) idx)
                 (other_branches feats) ;;
  feat <- cat_c ([feat_current] ++ others ++ [feat_prop]) ;;
  let feat_prop :=
    map_batch2 Rplus feat_prop (backbone N hg_idx module_name feat) in
  own <- dict_get feats module_name ;;
  Ok (feat_prop, dict_set feats module_name (own ++ [feat_prop])).

(** One iteration of [for i, idx in enumerate(frame_idx)]. *)
Definition propagate_step (flow_idx mapping_idx : list Z) (i : nat) (idx : Z)
    (st : Batch * Feats) : result (Batch * Feats) :=
  let '(feat_prop, feats) := st in
  spatial <- dict_get feats "spatial" ;;
  m <- py_index mapping_idx idx ;;
  feat_current <- py_index spatial m ;;
  feat_prop <-
    (if Nat.ltb 0 i then align flow_idx i feats feat_prop feat_current
     else Ok feat_prop) ;;
  residual_append idx feats feat_prop feat_current.

(** The loop, as the list of the states reached after each iteration. *)
Fixpoint propagate_loop (flow_idx mapping_idx : list Z)
    (its : list (nat * Z)) (st : Batch * Feats)
    : result (list (Batch * Feats)) :=
  match its with
  | [] => Ok []
  | (i, idx) :: rest =>
      st' <- propagate_step flow_idx mapping_idx i idx st ;;
      tr <- propagate_loop flow_idx mapping_idx rest st' ;;
      Ok (st' :: tr)
  end.

Definition frame_indices : list Z :=
  let t := Z.of_nat (length flows) in
  let frame_idx := py_range 0 (t + 1) in
  if is_backward module_name then rev frame_idx else frame_idx.

Definition flow_indices : list Z :=
  let t := Z.of_nat (length flows) in
  if is_backward module_name then frame_indices else py_range (-1) t.

Definition mapping_indices (feats : Feats) : result (list Z) :=
  spatial <- dict_get feats "spatial" ;;
  let mapping_idx := py_range 0 (Z.of_nat (length spatial)) in
  Ok (mapping_idx ++ rev mapping_idx).

(** [n, t, _, h, w = flows.size()] is read off the first flow field, so the
    accumulator has the sizes of the source for t >= 1 flow fields, that is
    for sequences of at least two frames. *)
Definition propagate_trace (feats : Feats) : result (list (Batch * Feats)) :=
  mapping_idx <- mapping_indices feats ;;
  let feat_prop :=
    new_zeros (batch_size flows) (mid_channels self) (plane_size flows) in
  propagate_loop flow_indices mapping_idx (enumerate frame_indices)
    (feat_prop, feats).

Definition propagate (feats : Feats) : result Feats :=
  trace <- propagate_trace feats ;;
  let feats := last (map snd trace) feats in
  if is_backward module_name then
    own <- dict_get feats module_name ;;
    Ok (dict_set feats module_name (rev own))
  else Ok feats.
End Propagate.

(** ** upsample *)

(** [[feats[k].pop(0) for k in feats if k != "spatial"]] : the popped heads and
    the dictionary left behind. *)
Fixpoint pop_heads (feats : Feats) : result (list Batch * Feats) :=
  match feats with
  | [] => Ok ([], [])
  | (k, l) :: rest =>
      if String.eqb k "spatial" then
        '(hs, rest') <- pop_heads rest ;;
        Ok (hs, (k, l) :: rest')
      else
        match l with
        | [] => Raise IndexError
        | h :: l' =>
            '(hs, rest') <- pop_heads rest ;;
            Ok (h :: hs, (k, l') :: rest')
        end
  end.

Section Upsample.
Variable N : Networks.
Variable lqs : Seq.
Variable hg_idx : nat.

Definition upsample_step (mapping_idx : list Z) (i : nat) (feats : Feats)
    : result (Batch * Batch * Batch * Feats) :=
  '(hr, feats) <- pop_heads feats ;;
  spatial <- dict_get feats "spatial" ;;
  m <- py_index mapping_idx (Z.of_nat i) ;;
  sp <- py_index spatial m ;;
  hr <- cat_c (sp :: hr) ;;
  let hr := reconstruction N hg_idx hr in
  let feat_fused := hr in
  let hr := final_pred N hg_idx hr in
  '(depth, conf) <- chunk2_c hr ;;
  lq <- py_index lqs (Z.of_nat i) ;;
  let depth := map_batch2 Rplus depth (img_upsample N lq) in
  Ok (depth, conf, feat_fused, feats).

Fixpoint upsample_loop (mapping_idx : list Z) (idxs : list nat) (feats : Feats)
    : result (list Batch * list Batch * list Batch) :=
  match idxs with
  | [] => Ok ([], [], [])
  | i :: rest =>
      '(depth, conf, feat_fused, feats) <- upsample_step mapping_idx i feats ;;
      '(depths, confs, feats_fused) <- upsample_loop mapping_idx rest feats ;;
      Ok (depth :: depths, conf :: confs, feat_fused :: feats_fused)
  end.

Definition upsample (feats : Feats) : result (Seq * Seq * Seq) :=
  spatial <- dict_get feats "spatial" ;;
  let mapping_idx := py_range 0 (Z.of_nat (length spatial)) in
  let mapping_idx := mapping_idx ++ rev mapping_idx in
  '(depths, confs, feats_fused) <-
    upsample_loop mapping_idx (seq 0 (length lqs)) feats ;;
  depth <- cat_time depths ;;
  conf <- cat_time confs ;;
  fused <- cat_time feats_fused ;;
  Ok (depth, conf, fused).
End Upsample.

(** ** hg_forward *)

Section HgForward.
Variable N : Networks.

(** Per-frame latent features, [feats["spatial"]]. *)
Definition spatial_features (self : DVSR) (lqs guides : Seq)
    (extra_inputs extra_feats : option Seq) (hg_idx : nat)
    : result (list Batch) :=
  let n := batch_size lqs in
  let t := length lqs in
  let c := channel_count lqs in
  let hw := plane_size lqs in
  if cpu_cache self then
    mapM (fun i : nat =>
            if Nat.eqb hg_idx 1 then
              g <- py_index guides (Z.of_nat i) ;;
              let guide_feat := conv_guide_init N hg_idx g in
              lq <- py_index lqs (Z.of_nat i) ;;
              x <- cat_c [lq; guide_feat] ;;
              Ok (feat_extract N hg_idx x)
            else
              ei <- from_option TypeError extra_inputs ;;
              e <- py_index ei (Z.of_nat i) ;;
              let guide_feat := conv_guide_init N hg_idx e in
              lq <- py_index lqs (Z.of_nat i) ;;
              ef <- from_option TypeError extra_feats ;;
              f <- py_index ef (Z.of_nat i) ;;
              x <- cat_c [lq; guide_feat; f] ;;
              Ok (feat_extract N hg_idx x))
         (seq 0 t)
  else
    feats_ <-
      (if Nat.eqb hg_idx 1 then
         g <- view4 3 (16 * hw) (flat (reshape_merge guides)) ;;
         let guide_feats_ := conv_guide_init N hg_idx g in
         l <- view4 c hw (flat (reshape_merge lqs)) ;;
         x <- cat_c [l; guide_feats_] ;;
         Ok (feat_extract N hg_idx x)
       else
         ei <- from_option AttributeError extra_inputs ;;
         e <- view4 2 (16 * hw) (flat (reshape_merge ei)) ;;
         let guide_feats_ := conv_guide_init N hg_idx e in
         l <- view4 c hw (flat (reshape_merge lqs)) ;;
         ef <- from_option AttributeError extra_feats ;;
         f <- view4 (mid_channels self) hw (flat (reshape_merge ef)) ;;
         x <- cat_c [l; guide_feats_; f] ;;
         Ok (feat_extract N hg_idx x)) ;;
    feats_ <- view_split n t feats_ ;;
    mapM (fun i : nat => py_index feats_ (Z.of_nat i)) (seq 0 t).

(** [F.interpolate(flows.view(-1, 2, 4h, 4w), scale_factor=0.25,
    mode="bicubic").view(n, t - 1, 2, h, w) / 4], [hw] = h*w *)
Definition resize_flows (n t hw : nat) (flows : option Seq) : result Seq :=
  f <- from_option AttributeError flows ;;
  x <- view4 2 (16 * hw) (flat (reshape_merge f)) ;;
  x <- view5 n (t - 1) 2 hw (interpolate_bicubic N x) ;;
  Ok (map_seq (fun v => v / 4) x).

(** The part of [hg_forward] that precedes the propagation loop: the values
    of [feats], [flows_forward] and [flows_backward] at loop entry. *)
Definition hg_prepare (self : DVSR) (is_cuda : bool) (lqs guides : Seq)
    (extra_inputs extra_feats : option Seq) (hg_idx : nat)
    : DVSR * result (Feats * option Seq * Seq) :=
  let n := batch_size lqs in
  let t := length lqs in
  let self :=
    set_cpu_cache self (Nat.ltb (cpu_cache_length self) t && is_cuda) in
  let self := check_if_mirror_extended self lqs in
  (self,
   spatial <- spatial_features self lqs guides extra_inputs extra_feats hg_idx ;;
   let feats : Feats := [("spatial"%string, spatial)] in
   (* the batched branch rebinds h, w to the sizes of the features *)
   let hw := if cpu_cache self then plane_size lqs else plane_size spatial in
   '(flows_forward, flows_backward) <- compute_flow N self guides hg_idx ;;
   flows_forward <- resize_flows n t hw flows_forward ;;
   flows_backward <- resize_flows n t hw (Some flows_backward) ;;
   Ok (feats, Some flows_forward, flows_backward)).

(** The flow handed to one propagation branch. *)
Definition select_flows (direction : string) (flows_forward : option Seq)
    (flows_backward : Seq) : Seq :=
  if String.eqb direction "backward" then flows_backward
  else match flows_forward with
       | Some f => f
       | None => flip1 flows_backward
       end.

Definition branches : list (string * string) :=
  [("backward", "1"); ("forward", "1"); ("backward", "2"); ("forward", "2")]%string.

Definition module_of (b : string * string) : string :=
  (fst b ++ "_" ++ snd b)%string.

Fixpoint propagate_all (self : DVSR) (hg_idx : nat)
    (flows_forward : option Seq) (flows_backward : Seq)
    (bs : list (string * string)) (feats : Feats) : result Feats :=
  match bs with
  | [] => Ok feats
  | b :: rest =>
      let module := module_of b in
      let feats := dict_set feats module [] in
      let flows := select_flows (fst b) flows_forward flows_backward in
      feats <- propagate N self flows module hg_idx feats ;;
      propagate_all self hg_idx flows_forward flows_backward rest feats
  end.

Definition hg_forward (self : DVSR) (is_cuda : bool) (lqs guides : Seq)
    (extra_inputs extra_feats : option Seq) (hg_idx : nat)
    : DVSR * result (Seq * Seq * option Seq) :=
  let '(self, prepared) :=
    hg_prepare self is_cuda lqs guides extra_inputs extra_feats hg_idx in
  (self,
   '(feats, flows_forward, flows_backward) <- prepared ;;
   feats <- propagate_all self hg_idx flows_forward flows_backward
              branches feats ;;
   '(depth, conf, feats_fused) <- upsample N lqs hg_idx feats ;;
   if Nat.eqb hg_idx 1 then Ok (depth, conf, Some feats_fused)
   else Ok (depth, conf, None)).

(** ** forward *)

(** [torch.cat((x, y), dim=2)] of 5-D tensors. *)
Definition cat_seq_c (x y : Seq) : result Seq :=
  if Nat.eqb (length x) (length y)
  then mapM (fun ab : Batch * Batch => cat_c [fst ab; snd ab]) (combine x y)
  else Raise RuntimeError.

(** [nn.Softmax(dim=2)] on one sample: across its channel planes, per pixel. *)
Definition softmax_sample (s : Sample) : Sample :=
  let es := map (map exp) s in
  match es with
  | [] => []
  | e0 :: rest =>
      let denom := fold_left (zip_with Rplus) rest e0 in
      map (fun e : Plane => zip_with Rdiv e denom) es
  end.

Definition softmax (x : Seq) : Seq := map (map softmax_sample) x.

(** [torch.chunk(x, 2, dim=2)] of a 5-D tensor, unpacked into two names. *)
Definition chunk2_seq_c (x : Seq) : result (Seq * Seq) :=
  let c := match x with
           | [] => O
           | b :: _ => channels b
           end in
  let k := Nat.div (c + 1) 2 in
  if Nat.eqb c 1 then Raise ValueError
  else Ok (map (map (firstn k)) x, map (map (skipn k)) x).

Record Intermed : Type := {
  d_depth : Seq;
  rgb_depth : Seq;
  d_conf : Seq;
  rgb_conf : Seq
}.

(** The confidence blend that closes [forward]. *)
Definition blend (rgb_depth rgb_conf d_depth d_conf : Seq)
    : result (Seq * Intermed) :=
  stacked <- cat_seq_c rgb_conf d_conf ;;
  '(rgb_conf, d_conf) <- chunk2_seq_c (softmax stacked) ;;
  let depth_final :=
    map_seq2 Rplus (map_seq2 Rmult d_depth d_conf)
                   (map_seq2 Rmult rgb_depth rgb_conf) in
  Ok (depth_final,
      {| d_depth := d_depth; rgb_depth := rgb_depth;
         d_conf := d_conf; rgb_conf := rgb_conf |}).

Definition forward (self : DVSR) (is_cuda : bool) (lqs guides : Seq)
    : DVSR * result (Seq * Intermed) :=
  let lqs := repeat_interleave_hw N (Nat.div (scale self) 4) lqs in
  let '(self, stage1) := hg_forward self is_cuda lqs guides None None 1 in
  match stage1 with
  | Raise e => (self, Raise e)
  | Ok (rgb_depth, rgb_conf, rgb_feats) =>
      match cat_seq_c rgb_depth rgb_conf with
      | Raise e => (self, Raise e)
      | Ok extra =>
          let '(self, stage2) :=
            hg_forward self is_cuda lqs guides (Some extra) rgb_feats 2 in
          (self,
           '(d_depth, d_conf, _) <- stage2 ;;
           blend rgb_depth rgb_conf d_depth d_conf)
      end
  end.
End HgForward.

(** ** Histogram error model and positional encoding (hvsr.py)

    The module-level functions of [hvsr.py] work pixel-wise along the channel
    axis and block-wise over the spatial axes, so their tensors are modelled
    as indexed families with an explicit shape. *)

Record Tensor4 : Type := {
  dim0 : nat;
  dim1 : nat;
  dim2 : nat;
  dim3 : nat;
  at4 : nat -> nat -> nat -> nat -> R
}.

Record Tensor5 : Type := {
  size0 : nat;
  size1 : nat;
  size2 : nat;
  size3 : nat;
  size4 : nat;
  at5 : nat -> nat -> nat -> nat -> nat -> R
}.

(** Sum of [f 0 .. f (n-1)]. *)
Fixpoint rsum (n : nat) (f : nat -> R) : R :=
  match n with
  | O => 0
  | S k => rsum k f + f k
  end.

(** Maximum of [f 0 .. f k]. *)
Fixpoint rmax (k : nat) (f : nat -> R) : R :=
  match k with
  | O => f O
  | S k' => Rmax (rmax k' f) (f k)
  end.

(** [(v >= 0).float()] and [(v == 0).float()] *)
Definition ge0 (v : R) : R := if Rle_dec 0 v then 1 else 0.
Definition eq0 (v : R) : R := if Req_dec_T v 0 then 1 else 0.

(** [torch.clamp(v, min=0.0, max=1.0)] *)
Definition clamp01 (v : R) : R := Rmin (Rmax v 0) 1.

Definition eps : R := 1 / 1000.

(** [x[:, :-1]] *)
Definition drop_last_dim1 (x : Tensor4) : Tensor4 :=
  {| dim0 := dim0 x; dim1 := dim1 x - 1; dim2 := dim2 x; dim3 := dim3 x;
     at4 := at4 x |}.

Section Histogram.
Variable pitch : nat.
Variable temp_res : Z.

(** Shapes for which the broadcasts and the view of [dtof_hist_torch]
    go through. *)
Definition dtof_shapes_ok (d img rebin_idx : Tensor4) : bool :=
  Nat.ltb 0 pitch
  && Nat.eqb (dim1 d) 1
  && Nat.eqb (dim0 img) (dim0 d)
  && Nat.eqb (dim2 img) (dim2 d)
  && Nat.eqb (dim3 img) (dim3 d)
  && Nat.eqb (dim0 rebin_idx) (dim0 d)
  && Nat.eqb (dim2 rebin_idx * pitch) (dim2 d)
  && Nat.eqb (dim3 rebin_idx * pitch) (dim3 d).

Section PerPixel.
Variables d img rebin_idx : Tensor4.

Definition depth_clamped (b y x : nat) : R := clamp01 (at4 d b 0 y x).

Definition albedo (b y x : nat) : R :=
  rsum (dim1 img) (fun c => at4 img b c y x) / INR (dim1 img).

(** inverse-square intensity falloff *)
Definition intensity (b y x : nat) : R :=
  albedo b y x / (eps + depth_clamped b y x * depth_clamped b y x).

(** number of rebin boundaries not above the discretised depth *)
Definition occupied (b y x : nat) : R :=
  rsum (dim1 rebin_idx)
    (fun m =>
       ge0 (round_half_even (depth_clamped b y x * IZR (temp_res - 1))
            - at4 rebin_idx b m (y / pitch) (x / pitch))).

Definition one_hot (b m y x : nat) : R :=
  eq0 (occupied b y x - INR (m + 1)).

Definition pooled_hist (b m py px : nat) : R :=
  rsum pitch (fun i =>
    rsum pitch (fun j =>
      one_hot b m (py * pitch + i) (px * pitch + j)
      * intensity b (py * pitch + i) (px * pitch + j))).

Definition dtof_hist_torch : result Tensor4 :=
  if dtof_shapes_ok d img rebin_idx then
    Ok {| dim0 := dim0 d; dim1 := dim1 rebin_idx;
          dim2 := dim2 d / pitch; dim3 := dim3 d / pitch;
          at4 := pooled_hist |}
  else Raise RuntimeError.
End PerPixel.

Section InpError.
Variables cdf rebin_idx pred img : Tensor4.

Definition delta_idx (b m py px : nat) : R :=
  at4 rebin_idx b (m + 1) py px - at4 rebin_idx b m py px.

(** [cdf / (torch.max(cdf, dim=1)[0].unsqueeze(1) + 1e-3)] *)
Definition cdf_inp (b m py px : nat) : R :=
  at4 cdf b m py px
  / (rmax (dim1 cdf - 1) (fun k => at4 cdf b k py px) + eps).

(** [hist_pred / (torch.sum(hist_pred, dim=1).unsqueeze(1) + 1e-3)] *)
Definition normalized_hist (hist : Tensor4) (b m py px : nat) : R :=
  at4 hist b m py px
  / (rsum (dim1 hist) (fun k => at4 hist b k py px) + eps).

(** [torch.cumsum(hist_pred, dim=1)] *)
Definition cumsum_dim1 (f : nat -> nat -> nat -> nat -> R)
    (b m py px : nat) : R :=
  rsum (S m) (fun k => f b k py px).

(** The predicted CDF, [cdf_pred]. *)
Definition cdf_pred : result Tensor4 :=
  hist_pred <- dtof_hist_torch pred img (drop_last_dim1 rebin_idx) ;;
  Ok {| dim0 := dim0 hist_pred; dim1 := dim1 hist_pred;
        dim2 := dim2 hist_pred; dim3 := dim3 hist_pred;
        at4 := cumsum_dim1 (normalized_hist hist_pred) |}.

Definition inp_shapes_ok (cp : Tensor4) : bool :=
  Nat.ltb 0 (dim1 cdf)
  && Nat.eqb (dim0 cdf) (dim0 rebin_idx)
  && Nat.eqb (dim1 cdf) (dim1 rebin_idx)
  && Nat.eqb (dim2 cdf) (dim2 rebin_idx)
  && Nat.eqb (dim3 cdf) (dim3 rebin_idx)
  && Nat.eqb (dim2 cp) (dim2 rebin_idx)
  && Nat.eqb (dim3 cp) (dim3 rebin_idx).

(** The error map before upsampling, sentinel included. *)
Definition inp_error_lowres : result Tensor4 :=
  cp <- cdf_pred ;;
  if inp_shapes_ok cp then
    let M := dim1 rebin_idx in
    let mean_abs (b py px : nat) : R :=
      rsum (M - 1)
        (fun m =>
           Rabs ((cdf_inp b (m + 1) py px - at4 cp b m py px)
                 * delta_idx b m py px))
      / INR (M - 1) in
    let masked (b c py px : nat) : R :=
      if Req_dec_T (rmax (dim1 cdf - 1) (fun k => cdf_inp b k py px)) 0
      then -1
      else mean_abs b py px in
    Ok {| dim0 := dim0 rebin_idx; dim1 := 1;
          dim2 := dim2 rebin_idx; dim3 := dim3 rebin_idx;
          at4 := masked |}
  else Raise RuntimeError.

(** [repeat_interleave(pitch, dim=2)] then [dim=3]. *)
Definition repeat_interleave_23 (x : Tensor4) : Tensor4 :=
  {| dim0 := dim0 x; dim1 := dim1 x;
     dim2 := dim2 x * pitch; dim3 := dim3 x * pitch;
     at4 := fun b c y x' => at4 x b c (y / pitch) (x' / pitch) |}.

Definition get_inp_error : result Tensor4 :=
  e <- inp_error_lowres ;;
  Ok (repeat_interleave_23 e).
End InpError.

(** *** get_pos_encoding *)

Section PosEncoding.
Variables B T H W : nat.

(** [torch.meshgrid(torch.arange(H), torch.arange(W))] *)
Definition grid_y (i j : nat) : R := INR i.
Definition grid_x (i j : nat) : R := INR j.

(** [-MaxPool2d(kernel_size=pitch, stride=pitch)(-g)] *)
Definition neg_maxpool_neg (g : nat -> nat -> R) (py px : nat) : R :=
  - rmax (pitch - 1) (fun i =>
       rmax (pitch - 1) (fun j => - g (py * pitch + i)%nat (px * pitch + j)%nat)).

Definition patch_y (i j : nat) : R :=
  neg_maxpool_neg grid_y (i / pitch) (j / pitch).
Definition patch_x (i j : nat) : R :=
  neg_maxpool_neg grid_x (i / pitch) (j / pitch).

Definition rel_y (i j : nat) : R := grid_y i j - patch_y i j.
Definition rel_x (i j : nat) : R := grid_x i j - patch_x i j.

Definition pos_channel (c i j : nat) : R :=
  match c with
  | 0%nat => grid_y i j / INR H
  | 1%nat => grid_x i j / INR W
  | 2%nat => rel_y i j / INR pitch
  | 3%nat => rel_x i j / INR pitch
  | 4%nat => patch_y i j / INR H
  | 5%nat => patch_x i j / INR W
  | _ => 0
  end.

Definition pos_shapes_ok : bool :=
  Nat.ltb 0 pitch
  && Nat.leb pitch H && Nat.leb pitch W
  && Nat.eqb (H / pitch * pitch) H
  && Nat.eqb (W / pitch * pitch) W.

Definition get_pos_encoding : result Tensor5 :=
  if pos_shapes_ok then
    Ok {| size0 := B; size1 := T; size2 := 6; size3 := H; size4 := W;
          at5 := fun _ _ c i j => pos_channel c i j |}
  else Raise RuntimeError.
End PosEncoding.
End Histogram.

(** The centre of the [pitch]-sized patch that encloses coordinate [i], as the
    documentation of [get_pos_encoding] words it. *)
Definition patch_center (pitch i : nat) : R :=
  INR (i / pitch * pitch) + (INR pitch - 1) / 2.

(** ** Operators that act on every sample of a batch independently *)

Record samplewise (N : Networks) : Prop := {
  spynet_samplewise :
    forall hg, exists f, forall a b, spynet N hg a b = zip_with f a b;
  conv_guide_init_samplewise :
    forall hg, exists g, forall a, conv_guide_init N hg a = map g a;
  feat_extract_samplewise :
    forall hg, exists g, forall a, feat_extract N hg a = map g a
}.

(** ** Pixel access and the two-way softmax in closed form *)

(** Element [x[b, t, c, p]] of a sequence tensor, [p] the flattened pixel. *)
Definition pixel (x : Seq) (t b c p : nat) : R :=
  nth p (nth c (nth b (nth t x []) []) []) 0.

Definition weight_first (a b : R) : R := exp a / (exp a + exp b).
Definition weight_second (a b : R) : R := exp b / (exp a + exp b).

(** ** Well-formed inputs of [propagate]

    [feats] as [hg_forward] hands it over: the spatial features of all T
    frames, the completed earlier branches with T frames each, and the empty
    list under [module_name]; every tensor with [n] samples. *)

Definition batch_of (n : nat) (b : Batch) : Prop := length b = n.

Record propagate_pre (N : Networks) (flows : Seq) (module_name : string)
    (feats : Feats) (n : nat) : Prop := {
  net_flow_warp : forall a b, length (flow_warp N a b) = length a;
  net_deform_align :
    forall hg m a c f1 f2, length (deform_align N hg m a c f1 f2) = length a;
  net_backbone : forall hg m a, length (backbone N hg m a) = length a;
  flows_batch : Forall (batch_of n) flows;
  module_not_spatial : module_name <> "spatial"%string;
  spatial_frames :
    exists spatial,
      dict_get feats "spatial" = Ok spatial /\
      length spatial = S (length flows) /\
      Forall (batch_of n) spatial;
  own_empty : dict_get feats module_name = Ok [];
  others_frames :
    Forall (fun kv : string * list Batch =>
              length (snd kv) = S (length flows) /\
              Forall (batch_of n) (snd kv))
           (other_branches module_name feats)
}.

(** What every iteration of the loop maintains; [i] iterations done. *)
Definition propagate_inv (module_name : string) (feats0 : Feats)
    (spatial : list Batch) (n i : nat) (st : Batch * Feats) : Prop :=
  length (fst st) = n /\
  dict_get (snd st) "spatial" = Ok spatial /\
  other_branches module_name (snd st) = other_branches module_name feats0 /\
  exists own,
    dict_get (snd st) module_name = Ok own /\
    length own = i /\
    Forall (batch_of n) own.

(** [flow_idx[j]] names one of the flow fields for every aligning step
    [1 <= j <= i]. *)
Definition flow_index_ok (flows : Seq) (flow_idx : list Z) (i : nat) : Prop :=
  forall j, (1 <= j <= i)%nat ->
    exists fi, py_index flow_idx (Z.of_nat j) = Ok fi /\
               (0 <= fi < Z.of_nat (length flows))%Z.

(** Each iteration of a run appends one frame to the branch of
    [module_name]: after the [j]-th iteration of a run entered with [i0]
    frames, the branch holds [i0 + j + 1] frames. *)
Definition appended_one_each (module_name : string) (i0 : nat)
    (trace : list (Batch * Feats)) : Prop :=
  forall j st, nth_error trace j = Some st ->
    exists own, dict_get (snd st) module_name = Ok own /\
                length own = S (i0 + j).

(** The reading of the loop in which a counter 0..T makes T+1 steps and the
    step at 0 appends nothing. *)
Definition seed_step_appends_nothing (N : Networks) (self : DVSR)
    (flows : Seq) (module_name : string) (hg_idx : nat) (feats : Feats)
    (T : nat) : Prop :=
  exists trace st0,
    propagate_trace N self flows module_name hg_idx feats = Ok trace /\
    length trace = S T /\
    nth_error trace 0 = Some st0 /\
    dict_get (snd st0) module_name = Ok [].

(** ** Operators that keep the batch size, with a prediction head of at
    least two channels *)

Record keeps_batch (N : Networks) : Prop := {
  kb_flow_warp : forall a b, length (flow_warp N a b) = length a;
  kb_deform_align :
    forall hg m a c f1 f2, length (deform_align N hg m a c f1 f2) = length a;
  kb_backbone : forall hg m a, length (backbone N hg m a) = length a;
  kb_interpolate : forall a, length (interpolate_bicubic N a) = length a;
  kb_reconstruction : forall hg a, length (reconstruction N hg a) = length a;
  kb_final_pred :
    forall hg a, (1 <= length a)%nat ->
                 (2 <= channels (final_pred N hg a))%nat
}.

(** ** Operators that keep the sizes of a stage

    [hw] is the number of pixels h*w of a low-resolution plane; guides, flows
    and predictions have 16 * hw pixels per plane. *)

Definition planes_of (hw : nat) (s : Sample) : Prop :=
  Forall (fun p : Plane => length p = hw) s.

(** The flow network returns two channels at the resolution of its inputs. *)
Definition flow_sized (N : Networks) (c hw : nat) : Prop :=
  forall hg a b,
    Forall (shaped_sample c hw) a -> Forall (shaped_sample c hw) b ->
    length a = length b ->
    Forall (shaped_sample 2 hw) (spynet N hg a b).

(** Bicubic interpolation by 0.25 and the guide convolution divide the plane
    size by 16; the feature extractor returns [cf] >= 1 channels at the
    resolution of its input. *)
Record keeps_sizes (N : Networks) (hw cf : nat) : Prop := {
  ks_flow : flow_sized N 3 (16 * hw);
  ks_interpolate :
    forall a, Forall (shaped_sample 2 (16 * hw)) a ->
              Forall (shaped_sample 2 hw) (interpolate_bicubic N a);
  ks_guide :
    forall hg c a, Forall (shaped_sample c (16 * hw)) a ->
                   Forall (planes_of hw) (conv_guide_init N hg a);
  ks_feat :
    forall hg a,
      Forall (fun s : Sample => planes_of hw s /\ (1 <= length s)%nat) a ->
      Forall (shaped_sample cf hw) (feat_extract N hg a);
  ks_channels : (1 <= cf)%nat
}.

(** The extra arguments of a stage of [T] frames: none are read in the
    first; the second takes the predictions of the first, depth and
    confidence at 16 * hw pixels, and its fused features of [m] channels. *)
Definition stage_inputs (hg_idx n hw m T : nat) (ei ef : option Seq) : Prop :=
  hg_idx = 1%nat \/
  exists e f, ei = Some e /\ ef = Some f /\
              shaped_seq n 2 (16 * hw) e /\ shaped_seq n m hw f /\
              length e = T /\ length f = T /\ (1 <= m)%nat.

(** A feature dictionary in which every entry holds [T] frames of [n]
    samples, the spatial features among them. *)
Definition frames_of (n T : nat) (kv : string * list Batch) : Prop :=
  length (snd kv) = T /\ Forall (batch_of n) (snd kv).

Definition stage_ok (n T : nat) (feats : Feats) : Prop :=
  (exists spatial, dict_get feats "spatial" = Ok spatial) /\
  Forall (frames_of n T) feats.

(** The dictionary inside the loop of [upsample] with [r] frames left to
    reconstruct: the spatial features are intact, every branch holds [r]. *)
Definition upsample_inv (n T r : nat) (feats : Feats) : Prop :=
  Forall (fun kv : string * list Batch =>
            Forall (batch_of n) (snd kv) /\
            length (snd kv)
            = if String.eqb (fst kv) "spatial" then T else r)
         feats.

(** ** HVSR.forward: the channel layout of [lqs_comb] *)

(** [x[:, :, a:b]] and [x[:, :, a:]] for non-negative bounds. *)
Definition slice_channels (a b : nat) (x : Seq) : Seq :=
  map (map (fun s : Sample => skipn a (firstn b s))) x.

Definition drop_channels (a : nat) (x : Seq) : Seq :=
  map (map (fun s : Sample => skipn a s)) x.

(** The first three assignments of [HVSR.forward]:
    [mpeaks], [cdfs] and [rebins]. *)
Definition split_lqs_comb (mpeaks : nat) (lqs_comb : Seq) : Seq * Seq * Seq :=
  (slice_channels 0 mpeaks lqs_comb,
   slice_channels mpeaks (3 * mpeaks + 3) lqs_comb,
   drop_channels (3 * mpeaks + 3) lqs_comb).

(** ** Sample inputs

    Small concrete operators and sequences on which the statements below are
    exercised: one sample per frame, one channel, one pixel. *)

Definition toy_networks : Networks :=
  {| spynet := fun _ a b => map_batch2 Rminus a b;
     conv_guide_init := fun _ g => g;
     feat_extract := fun _ x => x;
     deform_align := fun _ _ stacked _ _ _ => map (firstn 1) stacked;
     backbone := fun _ _ feat => map (firstn 1) feat;
     reconstruction := fun _ hr => hr;
     final_pred := fun _ hr => map (firstn 2) hr;
     img_upsample := fun lq => lq;
     flow_warp := fun x _ => x;
     permute_0231 := fun x => x;
     interpolate_bicubic := fun x => x;
     repeat_interleave_hw := fun _ x => x |}.

Definition toy_model : DVSR := DVSR_init 1 4 200.

(** A model whose offload threshold every sequence exceeds. *)
Definition toy_offload_model : DVSR := DVSR_init 1 4 0.

Definition frame_a : Batch := [[[0]]].
Definition frame_b : Batch := [[[1]]].

Definition mirrored_pair : Seq := [frame_a; frame_a].
Definition plain_pair : Seq := [frame_a; frame_b].


(** One patch of one pixel: depth 0, two rebin boundaries 0 and 1, and a
    three-channel guide of constant value. *)
Definition const4 (s0 s1 s2 s3 : nat) (v : R) : Tensor4 :=
  {| dim0 := s0; dim1 := s1; dim2 := s2; dim3 := s3;
     at4 := fun _ _ _ _ => v |}.

Definition zero_depth : Tensor4 := const4 1 1 1 1 0.
Definition bright_guide : Tensor4 := const4 1 3 1 1 1.

Definition empty_cdf : Tensor4 := const4 1 2 1 1 0.

Definition toy_rebin : Tensor4 :=
  {| dim0 := 1; dim1 := 2; dim2 := 1; dim3 := 1;
     at4 := fun _ m _ _ => INR m |}.

(** Inputs of the first branch for T = 2 frames: one flow field, the two
    spatial features, and the empty branch list. *)
Definition toy_flows : Seq := [frame_a].

Definition toy_feats : Feats :=
  [("spatial", plain_pair); ("backward_1", [])]%string.

(** Operators as [toy_networks], with a prediction head that always yields
    two channels. *)
Definition two_channel_networks : Networks :=
  {| spynet := spynet toy_networks;
     conv_guide_init := conv_guide_init toy_networks;
     feat_extract := feat_extract toy_networks;
     deform_align := deform_align toy_networks;
     backbone := backbone toy_networks;
     reconstruction := reconstruction toy_networks;
     final_pred := fun _ hr => map (fun s : Sample => [hd [] s; hd [] s]) hr;
     img_upsample := img_upsample toy_networks;
     flow_warp := flow_warp toy_networks;
     permute_0231 := permute_0231 toy_networks;
     interpolate_bicubic := interpolate_bicubic toy_networks;
     repeat_interleave_hw := repeat_interleave_hw toy_networks |}.

(** Operators that keep the sizes of a stage with one pixel per
    low-resolution plane and one feature channel: a plane is reduced to its
    first sixteenth, or every pixel repeated sixteen times. *)
Definition shrink (p : Plane) : Plane := firstn (Nat.div (length p) 16) p.
Definition stretch (p : Plane) : Plane := flat_map (fun v : R => repeat v 16) p.

Definition shaped_networks : Networks :=
  {| spynet := fun _ a b =>
       zip_with (fun s s' : Sample => firstn 2 (map_sample2 Rminus s s')) a b;
     conv_guide_init := fun _ g => map (map shrink) g;
     feat_extract := fun _ x => map (firstn 1) x;
     deform_align := fun _ _ stacked _ _ _ => map (firstn 1) stacked;
     backbone := fun _ _ feat => map (firstn 1) feat;
     reconstruction := fun _ hr => map (firstn 1) hr;
     final_pred := fun _ hr =>
       map (fun s : Sample => [stretch (hd [] s); stretch (hd [] s)]) hr;
     img_upsample := fun lq => map (map stretch) lq;
     flow_warp := fun x _ => x;
     permute_0231 := fun x => x;
     interpolate_bicubic := fun x => map (map shrink) x;
     repeat_interleave_hw := fun _ x => x |}.

(** Guide frames of one sample, three channels and 16 pixels, for
    low-resolution frames of one pixel. *)
Definition guide_frame (v : R) : Batch := [repeat (repeat v 16%nat) 3%nat].

Definition plain_guides : Seq := [guide_frame 0; guide_frame 1].
Definition mirrored_guides : Seq := [guide_frame 0; guide_frame 0].

(** A dictionary with one completed branch, and one whose branch is a frame
    short. *)
Definition toy_stage_feats : Feats :=
  [("spatial", plain_pair); ("backward_1", plain_pair)]%string.

Definition toy_short_feats : Feats :=
  [("spatial", plain_pair); ("backward_1", [frame_a])]%string.

(** * Properties *)

(** ** Lists *)

Lemma zip_with_length {A B C : Type} (f : A -> B -> C) (xs : list A) :
  forall ys, length xs = length ys -> length (zip_with f xs ys) = length xs.
Proof.
  induction xs as [|x xs IH]; intros [|y ys] Hlen; simpl in *;
    try discriminate; auto.
Qed.

Lemma Forall_concat_iff {A : Type} (P : A -> Prop) (ls : list (list A)) :
  Forall P (concat ls) <-> Forall (Forall P) ls.
Proof.
  induction ls as [|l ls IH]; simpl.
  - split; constructor.
  - rewrite Forall_app, IH. split.
    + intros [H1 H2]. constructor; assumption.
    + intros H. inversion H; subst. split; assumption.
Qed.

Lemma Forall2_of_Forall {A : Type} (P : A -> Prop) (same : A -> A -> Prop) :
  (forall a b, P a -> P b -> same a b) ->
  forall xs ys, Forall P xs -> Forall P ys -> length xs = length ys ->
  Forall2 same xs ys.
Proof.
  intros HP xs. induction xs as [|x xs IH]; intros [|y ys] Hx Hy Hlen;
    simpl in *; try discriminate; constructor.
  - inversion Hx; inversion Hy; subst. auto.
  - inversion Hx; inversion Hy; subst. apply IH; auto.
Qed.

Lemma Forall_firstn {A : Type} (P : A -> Prop) (k : nat) (l : list A) :
  Forall P l -> Forall P (firstn k l).
Proof.
  revert l. induction k as [|k IH]; intros [|a l] H; simpl; auto.
  inversion H; subst. constructor; auto.
Qed.

Lemma Forall_skipn {A : Type} (P : A -> Prop) (k : nat) (l : list A) :
  Forall P l -> Forall P (skipn k l).
Proof.
  revert l. induction k as [|k IH]; intros [|a l] H; simpl; auto.
  inversion H; subst. auto.
Qed.

Lemma Even_mod_iff (t : nat) : Nat.Even t <-> Nat.modulo t 2 = 0%nat.
Proof.
  split.
  - intros [m ->]. rewrite Nat.mul_comm. apply Nat.Div0.mod_mul.
  - intros H. exists (Nat.div t 2). pose proof (Nat.div_mod_eq t 2). lia.
Qed.

(** ** The symmetry detector *)

Lemma rhe_int (k : Z) : round_half_even (IZR k) = IZR k.
Proof.
  unfold round_half_even. rewrite ZfloorZ.
  destruct (Rlt_dec (IZR k - IZR k) (1 / 2)) as [_|H]; [reflexivity|].
  exfalso. lra.
Qed.

Lemma rhe_cases (v : R) :
  round_half_even v = IZR (Zfloor v) /\ v - IZR (Zfloor v) <= 1 / 2 /\
    (v - IZR (Zfloor v) = 1 / 2 -> Z.even (Zfloor v) = true)
  \/ round_half_even v = IZR (Zfloor v + 1) /\ 1 / 2 <= v - IZR (Zfloor v) /\
    (v - IZR (Zfloor v) = 1 / 2 -> Z.even (Zfloor v) = false).
Proof.
  unfold round_half_even.
  destruct (Rlt_dec (v - IZR (Zfloor v)) (1 / 2)) as [H1|H1].
  - left. split; [reflexivity|]. split; [lra|]. intros E. lra.
  - destruct (Rlt_dec (1 / 2) (v - IZR (Zfloor v))) as [H2|H2].
    + right. split; [reflexivity|]. split; [lra|]. intros E. lra.
    + destruct (Z.even (Zfloor v)) eqn:E.
      * left. split; [reflexivity|]. split; [lra|]. reflexivity.
      * right. split; [reflexivity|]. split; [lra|]. reflexivity.
Qed.

Lemma Rabs_le_both (a b : R) : Rabs a <= b -> - b <= a <= b.
Proof. unfold Rabs. destruct (Rcase_abs a); lra. Qed.

Lemma rhe_zero_iff (v : R) : round_half_even v = 0 <-> Rabs v <= 1 / 2.
Proof.
  pose proof (Zfloor_bound v) as [Hlo Hhi].
  destruct (rhe_cases v) as [(-> & Hd & Hev)|(-> & Hd & Hev)]; split.
  - intros H. apply eq_IZR in H. rewrite H in *. simpl in *.
    apply Rabs_le. lra.
  - intros H. apply Rabs_le_both in H.
    assert (Hf : (Zfloor v = 0 \/ Zfloor v = -1)%Z).
    { assert (H1 : (-2 < Zfloor v)%Z) by (apply lt_IZR; lra).
      assert (H2 : (Zfloor v < 1)%Z) by (apply lt_IZR; lra).
      lia. }
    destruct Hf as [E|E]; [rewrite E; reflexivity|].
    exfalso. rewrite E in *. simpl in *.
    assert (Hv : v - -1 = 1 / 2) by lra. specialize (Hev Hv). discriminate.
  - intros H. apply eq_IZR in H.
    assert (E : Zfloor v = (-1)%Z) by lia. rewrite E in *. simpl in *.
    apply Rabs_le. lra.
  - intros H. apply Rabs_le_both in H.
    assert (Hf : (Zfloor v = 0 \/ Zfloor v = -1)%Z).
    { assert (H1 : (-2 < Zfloor v)%Z) by (apply lt_IZR; lra).
      assert (H2 : (Zfloor v < 1)%Z) by (apply lt_IZR; lra).
      lia. }
    destruct Hf as [E|E]; [|rewrite E; reflexivity].
    exfalso. rewrite E in *. simpl in *.
    assert (Hv : v - 0 = 1 / 2) by lra. specialize (Hev Hv). discriminate.
Qed.

Lemma rhe_nonneg (v : R) : 0 <= v -> 0 <= round_half_even v.
Proof.
  intros Hv. pose proof (@Zfloor_lub 0 v Hv) as Hf.
  destruct (rhe_cases v) as [(-> & _)|(-> & _)]; apply IZR_le; lia.
Qed.

Lemma rhe_is_int (v : R) : exists k, round_half_even v = IZR k.
Proof. destruct (rhe_cases v) as [(-> & _)|(-> & _)]; eauto. Qed.

(** Powers of two. *)

Lemma pow2_pos (z : Z) : 0 < powerRZ 2 z.
Proof. apply powerRZ_lt. lra. Qed.

Lemma pow2_add (a b : Z) : powerRZ 2 (a + b) = powerRZ 2 a * powerRZ 2 b.
Proof. apply powerRZ_add. lra. Qed.

Lemma pow2_nat (m : nat) : powerRZ 2 (Z.of_nat m) = IZR (2 ^ Z.of_nat m).
Proof. rewrite <- pow_powerRZ. apply pow_IZR. Qed.

Lemma pow2_ge_1 (z : Z) : (0 <= z)%Z -> 1 <= powerRZ 2 z.
Proof.
  intros Hz. rewrite <- (Z2Nat.id z Hz), <- pow_powerRZ.
  apply pow_R1_Rle. lra.
Qed.

Lemma pow2_le (a b : Z) : (a <= b)%Z -> powerRZ 2 a <= powerRZ 2 b.
Proof.
  intros Hab. replace b with (a + (b - a))%Z by lia. rewrite pow2_add.
  pose proof (pow2_pos a). pose proof (@pow2_ge_1 (b - a) ltac:(lia)). nra.
Qed.

Lemma pow2_lt (a b : Z) : (a < b)%Z -> powerRZ 2 a < powerRZ 2 b.
Proof.
  intros Hab. replace b with (a + 1 + (b - a - 1))%Z by lia.
  rewrite !pow2_add. change (powerRZ 2 1) with (2 * 1).
  pose proof (pow2_pos a). pose proof (@pow2_ge_1 (b - a - 1) ltac:(lia)). nra.
Qed.

Lemma ln2_pos : 0 < ln 2.
Proof. pose proof ln_lt_2. lra. Qed.

Lemma pow2_exp (z : Z) : powerRZ 2 z = exp (IZR z * ln 2).
Proof. rewrite powerRZ_Rpower by lra. reflexivity. Qed.


(** The binade of a non-zero value. *)
Lemma floor_log2_le (y : R) :
  0 < y -> powerRZ 2 (Zfloor (ln y / ln 2)) <= y.
Proof.
  intros Hy. pose proof (Zfloor_bound (ln y / ln 2)) as [Hlo _].
  pose proof ln2_pos as H2.
  assert (H : IZR (Zfloor (ln y / ln 2)) * ln 2 <= ln y).
  { apply (Rmult_le_compat_r (ln 2)) in Hlo; [|lra].
    unfold Rdiv in Hlo. rewrite Rmult_assoc, Rinv_l, Rmult_1_r in Hlo by lra.
    exact Hlo. }
  rewrite pow2_exp. rewrite <- (exp_ln y Hy) at 2.
  destruct H as [H|H]; [left; apply exp_increasing, H|right; rewrite H; reflexivity].
Qed.

Lemma exponent32_ge (x : R) : (-126 <= exponent32 x)%Z.
Proof. unfold exponent32. lia. Qed.

Lemma ulp32_pos (x : R) : 0 < ulp32 x.
Proof. apply pow2_pos. Qed.

Lemma ulp32_ge_tiny (x : R) : tiny32 <= ulp32 x.
Proof. apply pow2_le. pose proof (exponent32_ge x). lia. Qed.

Lemma tiny32_pos : 0 < tiny32.
Proof. apply pow2_pos. Qed.

Lemma tiny32_le_1 : tiny32 <= 1.
Proof. change 1 with (powerRZ 2 0). apply pow2_le. lia. Qed.

Lemma round32_0 : round32 0 = 0.
Proof.
  unfold round32. unfold Rdiv. rewrite Rmult_0_l.
  rewrite (rhe_int 0). apply Rmult_0_l.
Qed.

(** A value rounds to zero exactly when its magnitude is at most half the
    smallest positive float32. *)
Lemma round32_zero_iff (y : R) : round32 y = 0 <-> Rabs y <= tiny32 / 2.
Proof.
  pose proof (ulp32_pos y) as Hu. pose proof tiny32_pos as Ht.
  destruct (Req_dec_T y 0) as [->|Hy].
  { rewrite round32_0, Rabs_R0. split; [lra|reflexivity]. }
  assert (Hay : 0 < Rabs y) by (apply Rabs_pos_lt, Hy).
  assert (Hdiv : Rabs (y / ulp32 y) = Rabs y / ulp32 y).
  { unfold Rdiv. rewrite Rabs_mult, (Rabs_pos_eq (/ ulp32 y)); [reflexivity|].
    left. apply Rinv_0_lt_compat, Hu. }
  assert (Hhalf : round32 y = 0 <-> Rabs y <= ulp32 y / 2).
  { unfold round32. split.
    - intros H. apply Rmult_integral in H. destruct H as [H|H]; [|lra].
      apply rhe_zero_iff in H. rewrite Hdiv in H.
      apply (Rmult_le_compat_r (ulp32 y)) in H; [|lra].
      unfold Rdiv in H. rewrite Rmult_assoc, Rinv_l, Rmult_1_r in H by lra.
      lra.
    - intros H.
      assert (Hz : round_half_even (y / ulp32 y) = 0).
      { apply rhe_zero_iff. rewrite Hdiv.
        apply (Rmult_le_reg_r (ulp32 y)); [lra|].
        unfold Rdiv. rewrite Rmult_assoc, Rinv_l, Rmult_1_r by lra. lra. }
      rewrite Hz. apply Rmult_0_l. }
  rewrite Hhalf. clear Hhalf Hdiv.
  split.
  - intros H.
    (* the binade is the lowest one, otherwise 2^e <= |y| <= 2^(e-24) *)
    destruct (Z_le_gt_dec (Zfloor (ln (Rabs y) / ln 2)) (-126)) as [Hlow|Hhigh].
    + unfold ulp32, exponent32 in H.
      rewrite Z.max_l in H by lia. exact H.
    + exfalso. unfold ulp32, exponent32 in H.
      rewrite Z.max_r in H by lia.
      pose proof (floor_log2_le Hay) as Hle.
      set (e := Zfloor (ln (Rabs y) / ln 2)) in *.
      pose proof (@pow2_lt (e - 23) e ltac:(lia)) as Hlt.
      pose proof (pow2_pos (e - 23)). lra.
  - intros H. eapply Rle_trans; [exact H|].
    pose proof (ulp32_ge_tiny y). lra.
Qed.

Lemma round32_nonneg (y : R) : 0 <= y -> 0 <= round32 y.
Proof.
  intros Hy. unfold round32. pose proof (ulp32_pos y) as Hu.
  apply Rmult_le_pos; [|lra]. apply rhe_nonneg.
  apply Rmult_le_pos; [exact Hy|]. left. apply Rinv_0_lt_compat, Hu.
Qed.

(** A float32 is zero or at least the smallest subnormal in magnitude. *)
Lemma round32_zero_or_tiny (y : R) :
  0 <= y -> round32 y = 0 \/ tiny32 <= round32 y.
Proof.
  intros Hy. pose proof (round32_nonneg Hy) as Hn. unfold round32 in *.
  destruct (rhe_is_int (y / ulp32 y)) as [k Hk]. rewrite Hk in *.
  pose proof (ulp32_pos y) as Hu. pose proof (ulp32_ge_tiny y) as Ht.
  destruct (Z_le_gt_dec k 0) as [Hk0|Hk1].
  - left. apply IZR_le in Hk0.
    assert (IZR k * ulp32 y <= 0) by nra. nra.
  - right. assert (H1 : (1 <= k)%Z) by lia. apply IZR_le in H1. nra.
Qed.


Lemma round32_opp_1 : round32 (-1) = -1.
Proof.
  unfold round32, ulp32, exponent32.
  assert (Habs : Rabs (-1) = 1)
    by (unfold Rabs; destruct (Rcase_abs (-1)); lra).
  rewrite Habs, ln_1.
  replace (0 / ln 2) with (IZR 0) by (unfold Rdiv; rewrite Rmult_0_l; reflexivity).
  rewrite ZfloorZ. change (Z.max (-126) 0 - 23)%Z with (-23)%Z.
  assert (Hq : -1 / powerRZ 2 (-23) = IZR (- 2 ^ 23)).
  { change (-23)%Z with (- (23))%Z. rewrite powerRZ_neg'.
    change 23%Z with (Z.of_nat 23). rewrite pow2_nat.
    rewrite opp_IZR. field.
    apply not_0_IZR. discriminate. }
  rewrite Hq, rhe_int.
  change (-23)%Z with (- (23))%Z. rewrite powerRZ_neg'.
  change 23%Z with (Z.of_nat 23). rewrite pow2_nat, opp_IZR.
  field. apply not_0_IZR. discriminate.
Qed.

(** The float32 norm. *)

Lemma sum_sq32_facts (xs : list R) :
  0 <= sum_sq32 xs /\ (sum_sq32 xs = 0 \/ tiny32 <= sum_sq32 xs).
Proof.
  induction xs as [|v xs [IH0 IH1]]; simpl.
  - split; [lra|left; reflexivity].
  - assert (Hs : 0 <= round32 (v * v))
      by (apply round32_nonneg, Rle_0_sqr).
    assert (Hsum : 0 <= round32 (v * v) + sum_sq32 xs) by lra.
    split; [apply round32_nonneg, Hsum|apply round32_zero_or_tiny, Hsum].
Qed.

Lemma sum_sq32_zero_iff (xs : list R) :
  sum_sq32 xs = 0 <-> Forall (fun v => v * v <= tiny32 / 2) xs.
Proof.
  induction xs as [|v xs IH]; simpl.
  - split; auto.
  - pose proof (Rle_0_sqr v) as Hvv. unfold Rsqr in Hvv.
    assert (Hs : 0 <= round32 (v * v)) by (apply round32_nonneg, Hvv).
    destruct (round32_zero_or_tiny Hvv) as [Hs0|Hst];
      destruct (sum_sq32_facts xs) as [Ha [Ha0|Hat]];
      pose proof tiny32_pos as Ht;
      rewrite round32_zero_iff, Rabs_pos_eq by lra.
    + rewrite Hs0, Ha0. split.
      * intros _. constructor.
        { apply round32_zero_iff in Hs0. rewrite Rabs_pos_eq in Hs0; lra. }
        { apply IH, Ha0. }
      * intros _. lra.
    + split; [intros H; lra|].
      intros H. inversion H as [|? ? _ Hrest]; subst.
      apply IH in Hrest. lra.
    + split; [intros H; lra|].
      intros H. inversion H as [|? ? Hv _]; subst.
      assert (Hz : round32 (v * v) = 0)
        by (apply round32_zero_iff; rewrite Rabs_pos_eq; lra).
      lra.
    + split; [intros H; lra|].
      intros H. inversion H as [|? ? Hv _]; subst.
      assert (Hz : round32 (v * v) = 0)
        by (apply round32_zero_iff; rewrite Rabs_pos_eq; lra).
      lra.
Qed.

Lemma norm32_zero_iff (x : Seq) :
  norm32 x = 0
  <-> Forall (Forall (Forall (Forall (fun v => v * v <= tiny32 / 2)))) x.
Proof.
  unfold norm32, elements.
  assert (Hall : Forall (Forall (Forall (Forall
                   (fun v => v * v <= tiny32 / 2)))) x
                 <-> sum_sq32 (concat (concat (concat x))) = 0).
  { rewrite sum_sq32_zero_iff.
    rewrite (Forall_concat_iff _ (concat (concat x))).
    rewrite (Forall_concat_iff _ (concat x)).
    rewrite (Forall_concat_iff _ x). reflexivity. }
  rewrite Hall.
  set (S := sum_sq32 (concat (concat (concat x)))).
  destruct (sum_sq32_facts (concat (concat (concat x)))) as [H0 Hz].
  fold S in H0, Hz.
  pose proof tiny32_pos as Ht. pose proof tiny32_le_1 as Ht1.
  rewrite round32_zero_iff, Rabs_pos_eq by apply sqrt_pos.
  split.
  - intros H. destruct Hz as [Hz|Hz]; [exact Hz|]. exfalso.
    pose proof (sqrt_sqrt S H0) as Hsq. pose proof (sqrt_pos S). nra.
  - intros ->. rewrite sqrt_0. lra.
Qed.

Lemma Forall_zip_with_self {A B : Type} (P : B -> Prop) (f : A -> A -> B)
    (l : list A) :
  (forall a, P (f a a)) -> Forall P (zip_with f l l).
Proof.
  intros H. induction l as [|a l IH]; simpl; constructor; auto.
Qed.

(** The difference of a sequence with itself has float32 norm 0. *)
Lemma norm32_diff_self (x : Seq) : norm32 (map_seq2 sub32 x x) = 0.
Proof.
  apply norm32_zero_iff.
  unfold map_seq2, map_batch2, map_sample2, map_plane2.
  repeat (apply Forall_zip_with_self; intros ?).
  unfold sub32. rewrite Rminus_diag, round32_0.
  pose proof tiny32_pos. lra.
Qed.

Lemma even_half (t : nat) :
  Nat.modulo t 2 = 0%nat -> Nat.div (t + 1) 2 = Nat.div t 2 /\
                          (t = 2 * Nat.div t 2)%nat.
Proof.
  intros Hmod.
  pose proof (Nat.div_mod_eq t 2) as Ht.
  pose proof (Nat.div_mod_eq (t + 1) 2) as Ht1.
  pose proof (Nat.mod_upper_bound (t + 1) 2 ltac:(lia)) as Hb.
  lia.
Qed.

(** The flag after one check, from any earlier value of the flag. *)
Lemma check_flag_after (self : DVSR) (lqs : Seq) :
  is_mirror_extended (check_if_mirror_extended self lqs) = true <->
  is_mirror_extended self = true \/
  (Nat.modulo (length lqs) 2 = 0%nat /\
   norm32 (map_seq2 sub32 (firstn (Nat.div (length lqs) 2) lqs)
             (rev (skipn (Nat.div (length lqs) 2) lqs))) = 0).
Proof.
  unfold check_if_mirror_extended, chunk2_time, flip1.
  destruct (Nat.eqb (Nat.modulo (length lqs) 2) 0) eqn:Heven.
  - apply Nat.eqb_eq in Heven.
    destruct (even_half _ Heven) as [Hk Ht]. rewrite Hk.
    destruct (Req_dec_T _ 0) as [Hz|Hnz]; simpl.
    + split; [intros _; right; split; assumption|reflexivity].
    + split; [intros H; left; exact H|].
      intros [H|[_ H]]; [exact H|contradiction].
  - apply Nat.eqb_neq in Heven. split; [intros H; left; exact H|].
    intros [H|[H _]]; [exact H|contradiction].
Qed.

(** Equal halves are always flagged. *)
Lemma check_flags_equal_halves (self : DVSR) (lqs : Seq) :
  Nat.modulo (length lqs) 2 = 0%nat ->
  firstn (Nat.div (length lqs) 2) lqs
  = rev (skipn (Nat.div (length lqs) 2) lqs) ->
  is_mirror_extended (check_if_mirror_extended self lqs) = true.
Proof.
  intros Heven Heq. apply check_flag_after. right. split; [exact Heven|].
  rewrite <- Heq. apply norm32_diff_self.
Qed.


(** ** The flag across calls *)

Lemma check_keeps_flag (self : DVSR) (lqs : Seq) :
  is_mirror_extended self = true ->
  is_mirror_extended (check_if_mirror_extended self lqs) = true.
Proof.
  intros H. unfold check_if_mirror_extended, chunk2_time.
  destruct (Nat.eqb _ 0); [|exact H].
  destruct (Req_dec_T _ 0); [reflexivity|exact H].
Qed.

Lemma check_cpu_cache (self : DVSR) (lqs : Seq) :
  cpu_cache (check_if_mirror_extended self lqs) = cpu_cache self.
Proof.
  unfold check_if_mirror_extended, chunk2_time.
  destruct (Nat.eqb _ 0); [|reflexivity].
  destruct (Req_dec_T _ 0); reflexivity.
Qed.

Lemma hg_prepare_state (N : Networks) (self : DVSR) (is_cuda : bool)
    (lqs guides : Seq) (ei ef : option Seq) (hg_idx : nat) :
  fst (hg_prepare N self is_cuda lqs guides ei ef hg_idx)
  = check_if_mirror_extended
      (set_cpu_cache self
         (Nat.ltb (cpu_cache_length self) (length lqs) && is_cuda)) lqs.
Proof. reflexivity. Qed.

Lemma hg_forward_state (N : Networks) (self : DVSR) (is_cuda : bool)
    (lqs guides : Seq) (ei ef : option Seq) (hg_idx : nat) :
  fst (hg_forward N self is_cuda lqs guides ei ef hg_idx)
  = fst (hg_prepare N self is_cuda lqs guides ei ef hg_idx).
Proof. reflexivity. Qed.

(** C4 (the code departs from the claim). The flag set by a call on a
    mirror-extended sequence is still set after a later stage-forward call on
    a sequence that is not mirror-extended: nothing resets it. *)
Theorem mirror_flag_outlives_call :
  forall (N : Networks) (is_cuda : bool) (guides : Seq) (hg_idx : nat),
    let self1 := check_if_mirror_extended toy_model mirrored_pair in
    let self2 :=
      fst (hg_forward N self1 is_cuda plain_pair guides None None hg_idx) in
    is_mirror_extended toy_model = false /\
    is_mirror_extended self1 = true /\
    firstn 1 plain_pair <> rev (skipn 1 plain_pair) /\
    is_mirror_extended self2 = true.
Proof.
  intros N is_cuda guides hg_idx self1 self2.
  assert (H1 : is_mirror_extended self1 = true).
  { apply (@check_flags_equal_halves toy_model mirrored_pair); reflexivity. }
  split; [reflexivity|]. split; [exact H1|]. split.
  - simpl. unfold frame_a, frame_b. intros H.
    assert (H0 : (0 : R) = 1) by congruence. lra.
  - unfold self2. rewrite hg_forward_state, hg_prepare_state.
    apply check_keeps_flag. exact H1.
Qed.

(** ** Stage forward on a flagged sequence *)

Lemma compute_flow_flagged (N : Networks) (self : DVSR) (guides : Seq)
    (hg_idx : nat) :
  is_mirror_extended self = true ->
  match compute_flow N self guides hg_idx with
  | Ok (ff, _) => ff = None /\ cpu_cache self = false
  | Raise _ => cpu_cache self = true \/ cpu_cache self = false
  end.
Proof.
  intros Hflag. unfold compute_flow. rewrite Hflag. cbv zeta.
  destruct (cpu_cache self).
  - match goal with |- context [bind ?m _] => destruct m end; simpl; auto.
  - match goal with |- context [bind ?m _] => destruct m end; simpl; auto.
Qed.

Lemma compute_flow_flagged_offload (N : Networks) (self : DVSR) (guides : Seq)
    (hg_idx : nat) :
  is_mirror_extended self = true -> cpu_cache self = true ->
  exists e, compute_flow N self guides hg_idx = Raise e.
Proof.
  intros Hflag Hcpu. unfold compute_flow. rewrite Hflag, Hcpu. cbv zeta.
  match goal with |- context [bind ?m _] => destruct m end; simpl; eauto.
Qed.

Lemma resize_flows_none (N : Networks) (n t hw : nat) :
  resize_flows N n t hw None = Raise AttributeError.
Proof. reflexivity. Qed.

Lemma hg_prepare_flagged (N : Networks) (self : DVSR) (is_cuda : bool)
    (lqs guides : Seq) (ei ef : option Seq) (hg_idx : nat) :
  is_mirror_extended (fst (hg_prepare N self is_cuda lqs guides ei ef hg_idx))
  = true ->
  exists e, snd (hg_prepare N self is_cuda lqs guides ei ef hg_idx) = Raise e.
Proof.
  rewrite hg_prepare_state. intros Hflag. unfold hg_prepare. cbv zeta. simpl snd.
  destruct (spatial_features _ _ _ _ _ _ _) as [spatial|e]; simpl; eauto.
  pose proof (@compute_flow_flagged N _ guides hg_idx Hflag) as Hcf.
  destruct (compute_flow _ _ _ _) as [[ff fb]|e]; simpl; eauto.
  destruct Hcf as [-> _]. simpl. eauto.
Qed.

Lemma hg_forward_flagged (N : Networks) (self : DVSR) (is_cuda : bool)
    (lqs guides : Seq) (ei ef : option Seq) (hg_idx : nat) :
  is_mirror_extended (fst (hg_prepare N self is_cuda lqs guides ei ef hg_idx))
  = true ->
  exists e, snd (hg_forward N self is_cuda lqs guides ei ef hg_idx) = Raise e.
Proof.
  intros Hflag. destruct (@hg_prepare_flagged _ _ _ _ _ _ _ _ Hflag) as [e He].
  exists e. unfold hg_forward.
  destruct (hg_prepare N self is_cuda lqs guides ei ef hg_idx) as [s p].
  simpl in *. rewrite He. reflexivity.
Qed.

Lemma hg_prepare_forward_flow (N : Networks) (self : DVSR) (is_cuda : bool)
    (lqs guides : Seq) (ei ef : option Seq) (hg_idx : nat)
    (feats : Feats) (ff : option Seq) (fb : Seq) :
  snd (hg_prepare N self is_cuda lqs guides ei ef hg_idx) = Ok (feats, ff, fb) ->
  exists f, ff = Some f.
Proof.
  unfold hg_prepare. cbv zeta. simpl snd.
  destruct (spatial_features _ _ _ _ _ _ _) as [spatial|e]; simpl;
    [|discriminate].
  destruct (compute_flow _ _ _ _) as [[ff0 fb0]|e]; simpl; [|discriminate].
  destruct (resize_flows _ _ _ _ ff0) as [f|e]; simpl; [|discriminate].
  destruct (resize_flows _ _ _ _ (Some fb0)) as [b|e]; simpl; [|discriminate].
  intros H. inversion H; subst. eauto.
Qed.

(** C6. On a sequence flagged as mirror-extended, [compute_flow] hands back
    [None] as forward flow (or, under CPU offload, already fails on it), the
    resize of [None] fails, the stage-forward call ends in an exception, and
    at the entry of the propagation loop the forward flow is never [None], so
    the [flows_backward.flip(1)] branch is never taken. *)
Theorem flagged_stage_forward_raises
    (N : Networks) (self : DVSR) (is_cuda : bool) (lqs guides : Seq)
    (ei ef : option Seq) (hg_idx : nat) :
  let self' := fst (hg_prepare N self is_cuda lqs guides ei ef hg_idx) in
  is_mirror_extended self' = true ->
  (forall ff fb, compute_flow N self' guides hg_idx = Ok (ff, fb) -> ff = None)
  /\ (cpu_cache self' = true ->
      exists e, compute_flow N self' guides hg_idx = Raise e)
  /\ (forall hw,
        resize_flows N (batch_size lqs) (length lqs) hw None
        = Raise AttributeError)
  /\ (exists e,
        snd (hg_forward N self is_cuda lqs guides ei ef hg_idx) = Raise e)
  /\ (forall self0 is_cuda0 lqs0 guides0 ei0 ef0 hg0 feats ff fb,
        snd (hg_prepare N self0 is_cuda0 lqs0 guides0 ei0 ef0 hg0)
        = Ok (feats, ff, fb) ->
        exists f, ff = Some f /\
                  select_flows "forward" ff fb = f /\
                  select_flows "backward" ff fb = fb).
Proof.
  intros self' Hflag. repeat split.
  - intros ff fb Hcf.
    pose proof (@compute_flow_flagged N _ guides hg_idx Hflag) as H.
    rewrite Hcf in H. apply H.
  - intros Hcpu. apply compute_flow_flagged_offload; assumption.
  - apply hg_forward_flagged. exact Hflag.
  - intros self0 is_cuda0 lqs0 guides0 ei0 ef0 hg0 feats ff fb Hprep.
    destruct (@hg_prepare_forward_flow _ _ _ _ _ _ _ _ _ _ _ Hprep) as [f ->].
    exists f. repeat split.
Qed.

Lemma flagged_stage_forward_raises_witness :
  is_mirror_extended
    (fst (hg_prepare shaped_networks toy_model false mirrored_pair
            mirrored_guides None None 1)) = true /\
  exists e,
    snd (hg_forward shaped_networks toy_model false mirrored_pair
           mirrored_guides None None 1) = Raise e.
Proof.
  assert (H : is_mirror_extended
                (fst (hg_prepare shaped_networks toy_model false mirrored_pair
                        mirrored_guides None None 1)) = true).
  { rewrite hg_prepare_state.
    apply (@check_flags_equal_halves _ mirrored_pair); reflexivity. }
  split; [exact H|].
  destruct (@flagged_stage_forward_raises shaped_networks toy_model false
              mirrored_pair mirrored_guides None None 1 H)
    as (_ & _ & _ & Hraise & _).
  exact Hraise.
Defined.

(** ** Sequences built as A ++ reverse(A) *)

Lemma mirror_halves (A : Seq) :
  Nat.modulo (length (A ++ rev A)) 2 = 0%nat /\
  firstn (Nat.div (length (A ++ rev A)) 2) (A ++ rev A)
  = rev (skipn (Nat.div (length (A ++ rev A)) 2) (A ++ rev A)).
Proof.
  assert (Hlen : length (A ++ rev A) = (2 * length A)%nat).
  { rewrite length_app, length_rev. lia. }
  assert (Hmod : Nat.modulo (length (A ++ rev A)) 2 = 0%nat).
  { apply Even_mod_iff. exists (length A). exact Hlen. }
  split; [exact Hmod|].
  assert (Hk : Nat.div (length (A ++ rev A)) 2 = length A).
  { pose proof (Nat.div_mod_eq (length (A ++ rev A)) 2). lia. }
  rewrite Hk, firstn_app, skipn_app, Nat.sub_diag, firstn_all, skipn_all.
  simpl. rewrite app_nil_r, rev_involutive. reflexivity.
Qed.

Lemma mirror_constructed_flagged (self : DVSR) (n c hw : nat) (A : Seq) :
  shaped_seq n c hw A ->
  is_mirror_extended (check_if_mirror_extended self (A ++ rev A)) = true.
Proof.
  intros _. destruct (mirror_halves A) as [Hmod Heq].
  apply check_flags_equal_halves; assumption.
Qed.

(** C5 (the code departs from the claim). For a sequence built as
    A ++ reverse(A) the detector reports true, but the stage-forward call then
    ends in an exception before any forward propagation branch runs: no forward
    flow is derived from the backward flow. *)
Theorem mirror_constructed_sequence_raises
    (N : Networks) (self : DVSR) (is_cuda : bool) (A guides : Seq)
    (ei ef : option Seq) (hg_idx n c hw : nat) :
  shaped_seq n c hw A ->
  is_mirror_extended
    (fst (hg_forward N self is_cuda (A ++ rev A) guides ei ef hg_idx)) = true
  /\ exists e,
       snd (hg_forward N self is_cuda (A ++ rev A) guides ei ef hg_idx)
       = Raise e.
Proof.
  intros Hshape.
  assert (Hflag : is_mirror_extended
            (fst (hg_prepare N self is_cuda (A ++ rev A) guides ei ef hg_idx))
          = true).
  { rewrite hg_prepare_state. apply (mirror_constructed_flagged _ Hshape). }
  split.
  - rewrite hg_forward_state. exact Hflag.
  - apply hg_forward_flagged. exact Hflag.
Qed.

Lemma mirror_constructed_sequence_raises_witness :
  shaped_seq 1 1 1 [frame_a] /\
  exists e,
    snd (hg_forward shaped_networks toy_model false
           ([frame_a] ++ rev [frame_a]) mirrored_guides None None 1) = Raise e.
Proof.
  assert (Hshape : shaped_seq 1 1 1 [frame_a]) by repeat constructor.
  split; [exact Hshape|].
  apply (@mirror_constructed_sequence_raises shaped_networks toy_model false
           [frame_a] mirrored_guides None None 1 1 1 1 Hshape).
Defined.

Lemma check_sets_flag (self : DVSR) (lqs : Seq) :
  is_mirror_extended self = false ->
  is_mirror_extended (check_if_mirror_extended self lqs) = true ->
  check_if_mirror_extended self lqs = set_mirror self true.
Proof.
  intros Hinit. unfold check_if_mirror_extended, chunk2_time.
  destruct (Nat.eqb _ 0); [|congruence].
  destruct (Req_dec_T _ 0); [reflexivity|congruence].
Qed.

Lemma check_leaves_unflagged (self : DVSR) (lqs : Seq) :
  is_mirror_extended (check_if_mirror_extended self lqs) = false ->
  check_if_mirror_extended self lqs = self.
Proof.
  unfold check_if_mirror_extended, chunk2_time.
  destruct (Nat.eqb _ 0); [|reflexivity].
  destruct (Req_dec_T _ 0); [discriminate|reflexivity].
Qed.

(** On the mirrored pair the exception is the [AttributeError] of
    [flows_forward.view] applied to [None]. *)
Example mirrored_pair_attribute_error :
  snd (hg_forward shaped_networks toy_model false mirrored_pair mirrored_guides
         None None 1) = Raise AttributeError.
Proof.
  unfold hg_forward, hg_prepare. cbv zeta.
  rewrite check_sets_flag.
  - lazy -[Rplus Rminus Rmult Rdiv Rinv Ropp exp IZR Req_dec_T]. reflexivity.
  - reflexivity.
  - apply (@check_flags_equal_halves _ mirrored_pair); reflexivity.
Qed.

(** ** The feature dictionary *)

Lemma dict_get_set_same (d : Feats) (k : string) (v : list Batch) :
  dict_get (dict_set d k v) k = Ok v.
Proof.
  induction d as [|[k' v'] d IH]; simpl.
  - rewrite String.eqb_refl. reflexivity.
  - destruct (String.eqb k' k) eqn:E; simpl; rewrite E; auto.
Qed.

Lemma dict_get_set_other (d : Feats) (k k' : string) (v : list Batch) :
  k' <> k -> dict_get (dict_set d k v) k' = dict_get d k'.
Proof.
  intros Hne. induction d as [|[k0 v0] d IH]; simpl.
  - destruct (String.eqb k k') eqn:E; [|reflexivity].
    apply String.eqb_eq in E. congruence.
  - destruct (String.eqb k0 k) eqn:E; simpl.
    + apply String.eqb_eq in E. subst k0.
      destruct (String.eqb k k') eqn:E'; [|reflexivity].
      apply String.eqb_eq in E'. congruence.
    + destruct (String.eqb k0 k'); auto.
Qed.

Lemma other_branches_set (m : string) (d : Feats) (v : list Batch) :
  other_branches m (dict_set d m v) = other_branches m d.
Proof.
  unfold other_branches. induction d as [|[k0 v0] d IH]; simpl.
  - rewrite String.eqb_refl, orb_true_r. reflexivity.
  - destruct (String.eqb k0 m) eqn:E; simpl; rewrite E.
    + rewrite orb_true_r. reflexivity.
    + rewrite orb_false_r. destruct (String.eqb k0 "spatial"); simpl;
        rewrite IH; reflexivity.
Qed.

(** ** Python indexing *)

Lemma py_index_nonneg {A : Type} (l : list A) (i : Z) :
  (0 <= i < Z.of_nat (length l))%Z ->
  exists a, py_index l i = Ok a /\ nth_error l (Z.to_nat i) = Some a.
Proof.
  intros Hi. unfold py_index.
  destruct (i <? 0)%Z eqn:Hneg; [apply Z.ltb_lt in Hneg; lia|].
  assert (Hr : ((0 <=? i) && (i <? Z.of_nat (length l)))%Z%bool = true).
  { apply andb_true_iff. split; [apply Z.leb_le|apply Z.ltb_lt]; lia. }
  rewrite Hr.
  destruct (nth_error l (Z.to_nat i)) as [a|] eqn:E; [eauto|].
  apply nth_error_None in E. lia.
Qed.

Lemma py_index_neg2 {A : Type} (l : list A) :
  (2 <= length l)%nat ->
  exists a, py_index l (-2)%Z = Ok a /\ In a l.
Proof.
  intros Hlen. unfold py_index.
  replace (-2 <? 0)%Z with true by reflexivity.
  assert (Hr : ((0 <=? Z.of_nat (length l) + -2)
                && (Z.of_nat (length l) + -2 <? Z.of_nat (length l)))%Z%bool
               = true).
  { apply andb_true_iff. split; [apply Z.leb_le|apply Z.ltb_lt]; lia. }
  rewrite Hr.
  destruct (nth_error l (Z.to_nat (Z.of_nat (length l) + -2))) as [a|] eqn:E.
  - exists a. split; [reflexivity|]. eapply nth_error_In, E.
  - apply nth_error_None in E. lia.
Qed.

Lemma py_index_Forall {A : Type} (P : A -> Prop) (l : list A) (i : Z) (a : A) :
  Forall P l -> py_index l i = Ok a -> P a.
Proof.
  intros HP. unfold py_index.
  destruct (_ && _)%bool; [|discriminate].
  destruct (nth_error l _) as [a'|] eqn:E; [|discriminate].
  intros H. inversion H; subst. eapply Forall_forall; [exact HP|].
  eapply nth_error_In, E.
Qed.

Lemma py_range_length (lo hi : Z) :
  length (py_range lo hi) = Z.to_nat (hi - lo).
Proof. unfold py_range. rewrite length_map, length_seq. reflexivity. Qed.

Lemma py_range_nth (lo hi : Z) (k : nat) :
  (k < Z.to_nat (hi - lo))%nat ->
  nth_error (py_range lo hi) k = Some (lo + Z.of_nat k)%Z.
Proof.
  intros Hk. unfold py_range.
  rewrite nth_error_map, nth_error_seq.
  destruct (Nat.ltb k (Z.to_nat (hi - lo))) eqn:E.
  - reflexivity.
  - apply Nat.ltb_ge in E. lia.
Qed.

Lemma py_index_range (lo hi i : Z) :
  (0 <= i < hi - lo)%Z -> py_index (py_range lo hi) i = Ok (lo + i)%Z.
Proof.
  intros Hi.
  destruct (@py_index_nonneg Z (py_range lo hi) i) as (a & Ha & Hn).
  { rewrite py_range_length. lia. }
  rewrite py_range_nth in Hn by lia.
  inversion Hn; subst. rewrite Ha. f_equal. lia.
Qed.

Lemma py_index_app_l {A : Type} (l r : list A) (i : Z) :
  (0 <= i < Z.of_nat (length l))%Z -> py_index (l ++ r) i = py_index l i.
Proof.
  intros Hi.
  destruct (@py_index_nonneg A l i Hi) as (a & Ha & Hn).
  destruct (@py_index_nonneg A (l ++ r) i) as (b & Hb & Hm).
  { rewrite length_app. lia. }
  rewrite nth_error_app1 in Hm by lia. congruence.
Qed.

Lemma py_index_rev_range (hi i : Z) :
  (0 <= i < hi)%Z -> py_index (rev (py_range 0 hi)) i = Ok (hi - 1 - i)%Z.
Proof.
  intros Hi.
  destruct (@py_index_nonneg Z (rev (py_range 0 hi)) i) as (a & Ha & Hn).
  { rewrite length_rev, py_range_length. lia. }
  rewrite Ha. f_equal.
  rewrite nth_error_rev in Hn.
  rewrite py_range_length in Hn.
  destruct (Nat.ltb (Z.to_nat i) (Z.to_nat (hi - 0))) eqn:E.
  - rewrite py_range_nth in Hn by lia. inversion Hn. lia.
  - apply Nat.ltb_ge in E. lia.
Qed.

(** ** Batch sizes through the tensor primitives *)

Lemma mapM_ok {A B : Type} (f : A -> result B) (P : B -> Prop) (l : list A) :
  Forall (fun a => exists b, f a = Ok b /\ P b) l ->
  exists bs, mapM f l = Ok bs /\ Forall P bs /\ length bs = length l.
Proof.
  induction 1 as [|a l (b & Hb & Pb) _ (bs & Hbs & Pbs & Hlen)]; simpl.
  - exists []. repeat split. constructor.
  - rewrite Hb. simpl. rewrite Hbs. simpl.
    exists (b :: bs). repeat split; [constructor; assumption|simpl; lia].
Qed.

Lemma fold_zip_app_length (n : nat) (rest : list Batch) :
  forall b : Batch,
    batch_of n b -> Forall (batch_of n) rest ->
    batch_of n (fold_left (zip_with (@app Plane)) rest b).
Proof.
  unfold batch_of. induction rest as [|r rest IH]; intros b Hb Hrest; simpl.
  - exact Hb.
  - inversion Hrest as [|? ? Hr Hrest']; subst. cbv beta in Hr.
    apply IH; [|assumption].
    rewrite zip_with_length; [reflexivity|]. symmetry. exact Hr.
Qed.

Lemma cat_c_ok (n : nat) (bs : list Batch) :
  bs <> [] -> Forall (batch_of n) bs ->
  exists r, cat_c bs = Ok r /\ batch_of n r.
Proof.
  intros Hne Hall. destruct bs as [|b rest]; [congruence|].
  inversion Hall as [|? ? Hb Hrest]; subst. unfold cat_c.
  assert (Hchk : forallb (fun b' : Batch => Nat.eqb (length b') (length b)) rest
                 = true).
  { apply forallb_forall. intros x Hx. apply Nat.eqb_eq.
    rewrite Forall_forall in Hrest. unfold batch_of in *.
    rewrite (Hrest x Hx). congruence. }
  rewrite Hchk. eexists. split; [reflexivity|].
  apply fold_zip_app_length; assumption.
Qed.

Lemma zeros_like_batch (n : nat) (b : Batch) :
  batch_of n b -> batch_of n (zeros_like b).
Proof. unfold batch_of, zeros_like, map_batch. rewrite length_map. auto. Qed.

Lemma new_zeros_batch (n c hw : nat) : batch_of n (new_zeros n c hw).
Proof. unfold batch_of, new_zeros. apply repeat_length. Qed.

Lemma map_batch2_batch (f : R -> R -> R) (n : nat) (a b : Batch) :
  batch_of n a -> batch_of n b -> batch_of n (map_batch2 f a b).
Proof.
  unfold batch_of, map_batch2. intros Ha Hb.
  rewrite zip_with_length; congruence.
Qed.

(** ** The index lists of [propagate] *)

Lemma enumerate_from_length {A : Type} (l : list A) :
  forall i, length (enumerate_from i l) = length l.
Proof. induction l as [|a l IH]; intros i; simpl; auto. Qed.

Lemma frame_indices_length (flows : Seq) (m : string) :
  length (frame_indices flows m) = S (length flows).
Proof.
  unfold frame_indices.
  destruct (is_backward m); [rewrite length_rev|];
    rewrite py_range_length; lia.
Qed.

Lemma py_range_bounds (lo hi : Z) :
  Forall (fun v => (lo <= v < hi)%Z) (py_range lo hi).
Proof.
  unfold py_range. apply Forall_forall. intros v Hv.
  apply in_map_iff in Hv. destruct Hv as (k & <- & Hk).
  apply in_seq in Hk. lia.
Qed.

Lemma frame_indices_bounds (flows : Seq) (m : string) :
  Forall (fun v => (0 <= v < Z.of_nat (S (length flows)))%Z)
         (frame_indices flows m).
Proof.
  unfold frame_indices.
  assert (H : Forall (fun v => (0 <= v < Z.of_nat (S (length flows)))%Z)
                     (py_range 0 (Z.of_nat (length flows) + 1))).
  { eapply Forall_impl; [|apply py_range_bounds]. simpl. intros v Hv. lia. }
  destruct (is_backward m); [apply Forall_rev|]; exact H.
Qed.

(** For every step that aligns, [flow_idx[i]] names one of the flow fields. *)
Lemma flow_indices_valid (flows : Seq) (m : string) (i : nat) :
  (1 <= i <= length flows)%nat ->
  exists fi, py_index (flow_indices flows m) (Z.of_nat i) = Ok fi /\
             (0 <= fi < Z.of_nat (length flows))%Z.
Proof.
  intros Hi. unfold flow_indices, frame_indices.
  destruct (is_backward m).
  - rewrite py_index_rev_range by lia. eexists. split; [reflexivity|]. lia.
  - rewrite py_index_range by lia. eexists. split; [reflexivity|]. lia.
Qed.

Lemma mapping_index_id (len : nat) (idx : Z) :
  (0 <= idx < Z.of_nat len)%Z ->
  py_index (py_range 0 (Z.of_nat len) ++ rev (py_range 0 (Z.of_nat len))) idx
  = Ok idx.
Proof.
  intros Hi. rewrite py_index_app_l by (rewrite py_range_length; lia).
  rewrite py_index_range by lia. f_equal.
Qed.

(** ** The propagation loop *)

Lemma last_cons_indep {A : Type} (l : list A) :
  forall a d d', last (a :: l) d = last (a :: l) d'.
Proof.
  induction l as [|b l IH]; intros a d d'; [reflexivity|].
  change (last (b :: l) d = last (b :: l) d'). apply IH.
Qed.

Section PropagateProps.
Variable N : Networks.
Variable self : DVSR.
Variable flows : Seq.
Variable module_name : string.
Variable hg_idx : nat.
Variable feats0 : Feats.
Variable n : nat.
Variable spatial : list Batch.

Hypothesis Hpre : propagate_pre N flows module_name feats0 n.
Hypothesis Hspatial_len : length spatial = S (length flows).
Hypothesis Hspatial_batch : Forall (batch_of n) spatial.

Local Abbreviation inv := (propagate_inv module_name feats0 spatial n).

Local Abbreviation mapping_idx :=
  (py_range 0 (Z.of_nat (length spatial))
   ++ rev (py_range 0 (Z.of_nat (length spatial)))).

Local Abbreviation flow_ok := (flow_index_ok flows).

Lemma flows_index_ok (fi : Z) :
  (0 <= fi < Z.of_nat (length flows))%Z ->
  exists f, py_index flows fi = Ok f /\ batch_of n f.
Proof.
  intros Hfi. destruct (@py_index_nonneg _ flows fi Hfi) as (f & Hf & _).
  exists f. split; [exact Hf|].
  eapply py_index_Forall; [apply (flows_batch Hpre)|exact Hf].
Qed.

Lemma align_ok (flow_idx : list Z) (i : nat) (feats : Feats)
    (feat_prop feat_current : Batch) :
  inv i (feat_prop, feats) -> batch_of n feat_current ->
  (1 <= i)%nat -> flow_ok flow_idx i ->
  exists r, align N flows module_name hg_idx flow_idx i feats
              feat_prop feat_current = Ok r /\ batch_of n r.
Proof.
  intros (Hfp & _ & _ & own & Hown & Hlen & Hownb) Hfc Hi Hflow.
  simpl in Hfp, Hown. unfold align.
  destruct (Hflow i ltac:(lia)) as (fi & Hfi & Hfir).
  rewrite Hfi. cbn [bind].
  destruct (flows_index_ok Hfir) as (flow_n1 & Hf1 & Hf1b).
  rewrite Hf1. cbn [bind].
  assert (Hc1 : batch_of n (flow_warp N feat_prop (permute_0231 N flow_n1))).
  { unfold batch_of. rewrite (net_flow_warp Hpre). exact Hfp. }
  assert (Hsecond :
    exists feat_n2 flow_n2 cond_n2,
      (if Nat.ltb 1 i then
         own <- dict_get feats module_name ;;
         feat_n2 <- py_index own (-2)%Z ;;
         fi2 <- py_index flow_idx (Z.of_nat (i - 1)) ;;
         flow_n2 <- py_index flows fi2 ;;
         let flow_n2 :=
           map_batch2 Rplus flow_n1
             (flow_warp N flow_n2 (permute_0231 N flow_n1)) in
         let cond_n2 := flow_warp N feat_n2 (permute_0231 N flow_n2) in
         Ok (feat_n2, flow_n2, cond_n2)
       else
         Ok (zeros_like feat_prop, zeros_like flow_n1,
             zeros_like (flow_warp N feat_prop (permute_0231 N flow_n1))))
      = Ok (feat_n2, flow_n2, cond_n2)
      /\ batch_of n feat_n2 /\ batch_of n cond_n2).
  { destruct (Nat.ltb 1 i) eqn:E.
    - apply Nat.ltb_lt in E. rewrite Hown. cbn [bind].
      destruct (@py_index_neg2 _ own ltac:(lia)) as (feat_n2 & Hn2 & Hin).
      rewrite Hn2. cbn [bind].
      destruct (Hflow (i - 1)%nat ltac:(lia)) as (fi2 & Hfi2 & Hfi2r).
      rewrite Hfi2. cbn [bind].
      destruct (flows_index_ok Hfi2r) as (flow_n2 & Hf2 & _).
      rewrite Hf2. cbn [bind].
      assert (Hn2b : batch_of n feat_n2).
      { rewrite Forall_forall in Hownb. apply Hownb, Hin. }
      do 3 eexists. split; [reflexivity|]. split; [exact Hn2b|].
      unfold batch_of. rewrite (net_flow_warp Hpre). exact Hn2b.
    - do 3 eexists. split; [reflexivity|].
      split; apply zeros_like_batch; assumption. }
  destruct Hsecond as (feat_n2 & flow_n2 & cond_n2 & Heq & Hn2b & Hc2).
  cbv zeta in Heq |- *. rewrite Heq. cbn [bind].
  destruct (@cat_c_ok n [flow_warp N feat_prop (permute_0231 N flow_n1);
                         feat_current; cond_n2])
    as (cond & Hcond & _); [discriminate|repeat constructor; assumption|].
  rewrite Hcond. cbn [bind].
  destruct (@cat_c_ok n [feat_prop; feat_n2])
    as (stacked & Hst & Hstb); [discriminate|repeat constructor; assumption|].
  rewrite Hst. cbn [bind].
  eexists. split; [reflexivity|].
  unfold batch_of. rewrite (net_deform_align Hpre). exact Hstb.
Qed.

Lemma residual_append_ok (i : nat) (idx : Z) (feats : Feats)
    (feat_prop0 feat_prop feat_current : Batch) :
  inv i (feat_prop0, feats) -> batch_of n feat_prop ->
  batch_of n feat_current ->
  (0 <= idx < Z.of_nat (S (length flows)))%Z ->
  exists st', residual_append N module_name hg_idx idx feats
                feat_prop feat_current = Ok st' /\ inv (S i) st'.
Proof.
  intros (_ & Hsp & Hoth & own & Hown & Hlen & Hownb) Hfp Hfc Hidx.
  simpl in Hsp, Hoth, Hown. unfold residual_append.
  destruct (@mapM_ok _ _
              (fun kv : string * list Batch => py_index (snd kv) idx)
              (batch_of n) (other_branches module_name feats))
    as (others & Hothers & Hob & _).
  { rewrite Hoth. eapply Forall_impl; [|apply (others_frames Hpre)].
    intros [k l] [Hl Hlb]. simpl in *.
    destruct (@py_index_nonneg _ l idx ltac:(lia)) as (a & Ha & _).
    exists a. split; [exact Ha|].
    eapply py_index_Forall; [exact Hlb|exact Ha]. }
  rewrite Hothers. cbn [bind].
  destruct (@cat_c_ok n ([feat_current] ++ others ++ [feat_prop]))
    as (feat & Hfeat & Hfeatb).
  { discriminate. }
  { constructor; [assumption|]. apply Forall_app. split; [assumption|].
    constructor; [assumption|constructor]. }
  rewrite Hfeat. cbn [bind]. rewrite Hown. cbn [bind].
  eexists. split; [reflexivity|].
  assert (Hnew : batch_of n
            (map_batch2 Rplus feat_prop
               (backbone N hg_idx module_name feat))).
  { apply map_batch2_batch; [assumption|].
    unfold batch_of. rewrite (net_backbone Hpre). exact Hfeatb. }
  split; [exact Hnew|]. simpl. split.
  { rewrite dict_get_set_other; [exact Hsp|].
    intros E. apply (module_not_spatial Hpre). congruence. }
  split; [rewrite other_branches_set; exact Hoth|].
  eexists. split; [apply dict_get_set_same|]. split.
  - rewrite length_app. simpl. lia.
  - apply Forall_app. split; [assumption|]. constructor; [exact Hnew|constructor].
Qed.

Lemma propagate_step_ok (flow_idx : list Z) (i : nat) (idx : Z)
    (st : Batch * Feats) :
  inv i st ->
  (0 <= idx < Z.of_nat (S (length flows)))%Z ->
  flow_ok flow_idx i ->
  exists st', propagate_step N flows module_name hg_idx flow_idx mapping_idx
                i idx st = Ok st' /\ inv (S i) st'.
Proof.
  destruct st as [feat_prop feats]. intros Hinv Hidx Hflow.
  pose proof Hinv as (Hfp & Hsp & _). simpl in Hfp, Hsp.
  unfold propagate_step. rewrite Hsp. cbn [bind].
  unfold mapping_idx. rewrite mapping_index_id by lia. cbn [bind].
  destruct (@py_index_nonneg _ spatial idx ltac:(lia)) as (fc & Hfc & _).
  rewrite Hfc. cbn [bind].
  assert (Hfcb : batch_of n fc).
  { eapply py_index_Forall; [exact Hspatial_batch|exact Hfc]. }
  destruct (Nat.ltb 0 i) eqn:E.
  - apply Nat.ltb_lt in E.
    destruct (align_ok Hinv Hfcb E Hflow) as (r & Hr & Hrb).
    rewrite Hr. cbn [bind].
    eapply residual_append_ok; eauto.
  - cbn [bind]. eapply residual_append_ok; eauto.
Qed.

Lemma propagate_loop_ok (flow_idx : list Z) (idxs : list Z) :
  forall (i0 : nat) (st : Batch * Feats),
    inv i0 st ->
    Forall (fun v => (0 <= v < Z.of_nat (S (length flows)))%Z) idxs ->
    flow_ok flow_idx (i0 + length idxs - 1) ->
    exists trace,
      propagate_loop N flows module_name hg_idx flow_idx mapping_idx
        (enumerate_from i0 idxs) st = Ok trace /\
      length trace = length idxs /\
      appended_one_each module_name i0 trace /\
      inv (i0 + length idxs) (last trace st).
Proof.
  induction idxs as [|idx idxs IH]; intros i0 st Hinv Hidx Hflow.
  - exists []. simpl. split; [reflexivity|]. split; [reflexivity|]. split.
    + intros j st' Hj. destruct j; discriminate.
    + rewrite Nat.add_0_r. exact Hinv.
  - inversion Hidx as [|? ? Hidx0 Hidxs]; subst. simpl enumerate_from.
    cbn [propagate_loop].
    destruct (@propagate_step_ok flow_idx i0 idx st Hinv Hidx0)
      as (st' & Hstep & Hinv').
    { intros j Hj. apply Hflow. simpl. lia. }
    rewrite Hstep. cbn [bind].
    destruct (IH (S i0) st' Hinv' Hidxs) as (tr & Htr & Hlen & Hone & Hlast).
    { intros j Hj. apply Hflow. simpl. lia. }
    rewrite Htr. cbn [bind].
    exists (st' :: tr). split; [reflexivity|]. split; [simpl; lia|]. split.
    + intros j st'' Hj. destruct j as [|j]; simpl in Hj.
      * inversion Hj; subst.
        destruct Hinv' as (_ & _ & _ & own & Hown & Hl & _).
        exists own. split; [exact Hown|]. lia.
      * destruct (Hone j st'' Hj) as (own & Hown & Hl).
        exists own. split; [exact Hown|]. lia.
    + replace (i0 + length (idx :: idxs))%nat
        with (S i0 + length idxs)%nat by (simpl; lia).
      destruct tr as [|a tr']; [exact Hlast|].
      change (last (st' :: a :: tr') st) with (last (a :: tr') st).
      rewrite (last_cons_indep tr' a st st'). exact Hlast.
Qed.
End PropagateProps.

Lemma propagate_step_seed (N : Networks) (flows : Seq) (module_name : string)
    (hg_idx : nat) (flow_idx : list Z) (spatial : list Batch) (idx : Z)
    (feat_prop : Batch) (feats : Feats) :
  dict_get feats "spatial" = Ok spatial ->
  (0 <= idx < Z.of_nat (length spatial))%Z ->
  exists feat_current,
    py_index spatial idx = Ok feat_current /\
    propagate_step N flows module_name hg_idx flow_idx
      (py_range 0 (Z.of_nat (length spatial))
       ++ rev (py_range 0 (Z.of_nat (length spatial))))
      0 idx (feat_prop, feats)
    = residual_append N module_name hg_idx idx feats feat_prop feat_current.
Proof.
  intros Hsp Hidx.
  destruct (@py_index_nonneg _ spatial idx Hidx) as (fc & Hfc & _).
  exists fc. split; [exact Hfc|].
  unfold propagate_step. rewrite Hsp. cbn [bind].
  rewrite mapping_index_id by lia. cbn [bind]. rewrite Hfc. reflexivity.
Qed.

Lemma last_map_snd {A B : Type} (l : list (A * B)) (d : A * B) :
  last (map snd l) (snd d) = snd (last l d).
Proof.
  induction l as [|a l IH]; [reflexivity|].
  destruct l as [|b l]; [reflexivity|].
  change (last (map snd (b :: l)) (snd d) = snd (last (b :: l) d)). exact IH.
Qed.

Lemma batch_size_flows (n : nat) (flows : Seq) :
  Forall (batch_of n) flows -> (1 <= length flows)%nat -> batch_size flows = n.
Proof.
  intros Hall Hlen. destruct flows as [|b flows]; simpl in *; [lia|].
  inversion Hall; subst. assumption.
Qed.

(** C1 (as the code has it). For a sequence of T >= 2 frames, the loop of
    [propagate] runs its counter i over 0..T-1, T iterations in all; every
    iteration, the seed iteration i = 0 included, appends exactly one frame to
    the branch; the seed iteration performs no alignment: its frame is the
    residual block applied to the zero accumulator; the branch returned has
    exactly T frames. *)
Theorem propagate_counts_frames
    (N : Networks) (self : DVSR) (flows : Seq) (module_name : string)
    (hg_idx : nat) (feats : Feats) (n : nat) :
  propagate_pre N flows module_name feats n ->
  (1 <= length flows)%nat ->
  let T := S (length flows) in
  let zeros :=
    new_zeros (batch_size flows) (mid_channels self) (plane_size flows) in
  map fst (enumerate (frame_indices flows module_name)) = seq 0 T /\
  exists trace feats',
    propagate_trace N self flows module_name hg_idx feats = Ok trace /\
    length trace = T /\
    appended_one_each module_name 0 trace /\
    (exists idx0 spatial feat_current st0,
        nth_error (frame_indices flows module_name) 0 = Some idx0 /\
        dict_get feats "spatial" = Ok spatial /\
        py_index spatial idx0 = Ok feat_current /\
        residual_append N module_name hg_idx idx0 feats zeros feat_current
        = Ok st0 /\
        nth_error trace 0 = Some st0) /\
    propagate N self flows module_name hg_idx feats = Ok feats' /\
    exists out, dict_get feats' module_name = Ok out /\ length out = T.
Proof.
  intros Hpre Hlen T zeros.
  destruct (spatial_frames Hpre) as (spatial & Hsp & Hsplen & Hspb).
  assert (Hfst : forall (l : list Z) i,
             map fst (enumerate_from i l) = seq i (length l)).
  { induction l as [|a l IH]; intros i; simpl; [reflexivity|].
    rewrite IH. reflexivity. }
  split.
  { unfold enumerate. rewrite Hfst, frame_indices_length. reflexivity. }
  assert (Hinv0 : propagate_inv module_name feats spatial n 0 (zeros, feats)).
  { split; [|split; [exact Hsp|split; [reflexivity|]]].
    - simpl. unfold zeros. rewrite (batch_size_flows (flows_batch Hpre) Hlen).
      apply new_zeros_batch.
    - exists []. split; [apply (own_empty Hpre)|]. split; [reflexivity|constructor]. }
  destruct (@propagate_loop_ok N flows module_name hg_idx feats n spatial
              Hpre Hsplen Hspb (flow_indices flows module_name)
              (frame_indices flows module_name) 0%nat (zeros, feats) Hinv0)
    as (trace & Htrace & Htlen & Hone & Hlast).
  { apply frame_indices_bounds. }
  { intros j Hj. apply flow_indices_valid.
    rewrite frame_indices_length in Hj. lia. }
  rewrite frame_indices_length in Htlen, Hlast. simpl in Hlast.
  assert (Hptrace :
            propagate_trace N self flows module_name hg_idx feats = Ok trace).
  { unfold propagate_trace, mapping_indices. rewrite Hsp. cbn [bind].
    exact Htrace. }
  destruct Hlast as (_ & _ & _ & own & Hown & Hownlen & _).
  assert (Hfinal : last (map snd trace) feats = snd (last trace (zeros, feats))).
  { apply (last_map_snd trace (zeros, feats)). }
  assert (Hprop : exists feats',
             propagate N self flows module_name hg_idx feats = Ok feats' /\
             exists out, dict_get feats' module_name = Ok out /\
                         length out = T).
  { unfold propagate. rewrite Hptrace. cbn [bind]. rewrite Hfinal.
    destruct (is_backward module_name).
    - rewrite Hown. cbn [bind]. eexists. split; [reflexivity|].
      exists (rev own). split; [apply dict_get_set_same|].
      rewrite length_rev. exact Hownlen.
    - eexists. split; [reflexivity|]. exists own. split; assumption. }
  destruct Hprop as (feats' & Hprop & Hout).
  exists trace, feats'. split; [exact Hptrace|]. split; [exact Htlen|].
  split; [exact Hone|]. split; [|split; [exact Hprop|exact Hout]].
  (* the seed iteration *)
  pose proof (frame_indices_length flows module_name) as Hfl.
  pose proof (frame_indices_bounds flows module_name) as Hfb.
  destruct (frame_indices flows module_name) as [|idx0 rest] eqn:Hfi;
    [discriminate|].
  inversion Hfb as [|? ? Hidx0 _]; subst.
  destruct (@propagate_step_seed N flows module_name hg_idx
              (flow_indices flows module_name) spatial idx0 zeros feats Hsp)
    as (fc & Hfc & Hseed); [lia|].
  unfold enumerate in Htrace. simpl enumerate_from in Htrace.
  cbn [propagate_loop] in Htrace. rewrite Hseed in Htrace.
  destruct (residual_append N module_name hg_idx idx0 feats zeros fc)
    as [st0|e] eqn:Hres; [|discriminate].
  cbn [bind] in Htrace.
  destruct (propagate_loop _ _ _ _ _ _ _ _) as [tr|e]; [|discriminate].
  cbn [bind] in Htrace. inversion Htrace; subst.
  exists idx0, spatial, fc, st0. repeat split; assumption.
Qed.

Lemma toy_propagate_pre :
  propagate_pre toy_networks toy_flows "backward_1" toy_feats 1.
Proof.
  constructor.
  - reflexivity.
  - intros. simpl. apply length_map.
  - intros. simpl. apply length_map.
  - repeat constructor.
  - discriminate.
  - exists plain_pair. repeat split. repeat constructor.
  - reflexivity.
  - constructor.
Qed.

Lemma propagate_counts_frames_witness :
  propagate_pre toy_networks toy_flows "backward_1" toy_feats 1 /\
  (1 <= length toy_flows)%nat /\
  exists trace feats' out,
    propagate_trace toy_networks toy_model toy_flows "backward_1" 1 toy_feats
    = Ok trace /\
    length trace = 2%nat /\
    propagate toy_networks toy_model toy_flows "backward_1" 1 toy_feats
    = Ok feats' /\
    dict_get feats' "backward_1" = Ok out /\ length out = 2%nat.
Proof.
  split; [exact toy_propagate_pre|]. split; [simpl; lia|].
  destruct (@propagate_counts_frames toy_networks toy_model toy_flows
              "backward_1" 1 toy_feats 1 toy_propagate_pre)
    as (_ & trace & feats' & Htr & Hlen & _ & _ & Hp & out & Hout & Hol).
  - simpl. lia.
  - exists trace, feats', out. repeat split; assumption.
Defined.

(** For T = 2 the loop makes two iterations, not three, and its first
    iteration already appends a frame. *)
Lemma seed_step_appends_nothing_fails :
  ~ seed_step_appends_nothing toy_networks toy_model toy_flows "backward_1" 1
      toy_feats 2.
Proof.
  intros (trace & st0 & Htr & Hlen & _).
  assert (Hrun : exists a b,
             propagate_trace toy_networks toy_model toy_flows "backward_1" 1
               toy_feats = Ok [a; b]).
  { do 2 eexists. reflexivity. }
  destruct Hrun as (a & b & Hrun). rewrite Hrun in Htr.
  inversion Htr; subst. simpl in Hlen. discriminate.
Qed.

(** ** The confidence blend *)

Lemma zip_with_nth {A B C : Type} (f : A -> B -> C) (xs : list A) :
  forall (ys : list B) (p : nat) (dx : A) (dy : B) (d : C),
    (p < length xs)%nat -> (p < length ys)%nat ->
    nth p (zip_with f xs ys) d = f (nth p xs dx) (nth p ys dy).
Proof.
  induction xs as [|x xs IH]; intros [|y ys] p dx dy d Hx Hy; simpl in *;
    try lia.
  destruct p as [|p]; [reflexivity|]. apply IH; lia.
Qed.

Lemma nth_Forall {A : Type} (P : A -> Prop) (l : list A) (k : nat) (d : A) :
  Forall P l -> (k < length l)%nat -> P (nth k l d).
Proof.
  intros H Hk. rewrite Forall_forall in H. apply H, nth_In, Hk.
Qed.

Lemma pixel_map_seq2 (f : R -> R -> R) (n c hw : nat) (x y : Seq)
    (t b ch p : nat) :
  shaped_seq n c hw x -> shaped_seq n c hw y ->
  (t < length x)%nat -> (t < length y)%nat ->
  (b < n)%nat -> (ch < c)%nat -> (p < hw)%nat ->
  pixel (map_seq2 f x y) t b ch p = f (pixel x t b ch p) (pixel y t b ch p).
Proof.
  intros Hx Hy Htx Hty Hb Hc Hp. unfold pixel, map_seq2.
  destruct (@nth_Forall _ _ _ t [] Hx Htx) as [Lbx Fbx].
  destruct (@nth_Forall _ _ _ t [] Hy Hty) as [Lby Fby].
  rewrite (@zip_with_nth _ _ _ (map_batch2 f) x y t [] [] []) by assumption.
  unfold map_batch2.
  destruct (@nth_Forall _ _ _ b [] Fbx ltac:(lia)) as [Lsx Fsx].
  destruct (@nth_Forall _ _ _ b [] Fby ltac:(lia)) as [Lsy Fsy].
  rewrite (@zip_with_nth _ _ _ (map_sample2 f) (nth t x []) (nth t y []) b
             [] [] []) by lia.
  unfold map_sample2.
  pose proof (@nth_Forall _ _ _ ch [] Fsx ltac:(lia)) as Lpx.
  pose proof (@nth_Forall _ _ _ ch [] Fsy ltac:(lia)) as Lpy.
  cbv beta in Lpx, Lpy.
  rewrite (@zip_with_nth _ _ _ (map_plane2 f) (nth b (nth t x []) [])
             (nth b (nth t y []) []) ch [] [] []) by lia.
  unfold map_plane2.
  apply zip_with_nth; lia.
Qed.

Lemma weights_sum (a b : R) : weight_first a b + weight_second a b = 1.
Proof.
  unfold weight_first, weight_second.
  pose proof (exp_pos a). pose proof (exp_pos b). field. lra.
Qed.

Lemma weight_first_bounds (a b : R) : 0 <= weight_first a b <= 1.
Proof.
  unfold weight_first. pose proof (exp_pos a) as Ha. pose proof (exp_pos b) as Hb.
  assert (Hd : 0 < exp a + exp b) by lra. split.
  - apply Rlt_le, Rdiv_lt_0_compat; assumption.
  - apply (Rmult_le_reg_r (exp a + exp b)); [exact Hd|].
    unfold Rdiv. rewrite Rmult_assoc, Rinv_l by lra. lra.
Qed.

Lemma weight_second_bounds (a b : R) : 0 <= weight_second a b <= 1.
Proof.
  pose proof (weights_sum a b). pose proof (weight_first_bounds a b).
  unfold weight_second in *. pose proof (exp_pos a) as Ha.
  pose proof (exp_pos b) as Hb. assert (Hd : 0 < exp a + exp b) by lra.
  split.
  - apply Rlt_le, Rdiv_lt_0_compat; assumption.
  - lra.
Qed.

(** Softmax over the two stacked one-channel maps, plane by plane. *)
Lemma softmax_planes (p1 p2 : Plane) :
  zip_with Rdiv (map exp p1) (zip_with Rplus (map exp p1) (map exp p2))
  = map_plane2 weight_first p1 p2 /\
  zip_with Rdiv (map exp p2) (zip_with Rplus (map exp p1) (map exp p2))
  = map_plane2 weight_second p1 p2.
Proof.
  unfold map_plane2. revert p2.
  induction p1 as [|a p1 IH]; intros [|b p2]; simpl; auto.
  destruct (IH p2) as [H1 H2]. rewrite H1, H2. split; reflexivity.
Qed.

Lemma softmax_one_channel (s1 s2 : Sample) :
  length s1 = 1%nat -> length s2 = 1%nat ->
  firstn 1 (softmax_sample (s1 ++ s2)) = map_sample2 weight_first s1 s2 /\
  skipn 1 (softmax_sample (s1 ++ s2)) = map_sample2 weight_second s1 s2.
Proof.
  destruct s1 as [|p1 [|? ?]]; try discriminate.
  destruct s2 as [|p2 [|? ?]]; try discriminate.
  intros _ _. unfold softmax_sample, map_sample2. simpl.
  destruct (softmax_planes p1 p2) as [H1 H2]. rewrite H1, H2.
  split; reflexivity.
Qed.

Lemma softmax_batch (n hw : nat) (a b : Batch) :
  shaped_batch n 1 hw a -> shaped_batch n 1 hw b ->
  cat_c [a; b] = Ok (zip_with (@app Plane) a b) /\
  map (firstn 1) (map softmax_sample (zip_with (@app Plane) a b))
  = map_batch2 weight_first a b /\
  map (skipn 1) (map softmax_sample (zip_with (@app Plane) a b))
  = map_batch2 weight_second a b.
Proof.
  intros [La Fa] [Lb Fb]. split.
  - unfold cat_c. simpl. rewrite La, Lb, Nat.eqb_refl. reflexivity.
  - clear La Lb. revert b Fb.
    induction Fa as [|s1 a [Ls1 _] _ IH]; intros b Fb.
    + split; reflexivity.
    + destruct Fb as [|s2 b [Ls2 _] Fb]; [split; reflexivity|].
      destruct (IH b Fb) as [H1 H2].
      destruct (softmax_one_channel s1 s2 Ls1 Ls2) as [S1 S2].
      unfold map_batch2 in *. cbn [zip_with map]. rewrite S1, S2, H1, H2.
      split; reflexivity.
Qed.

Lemma softmax_seq (n hw : nat) (x y : Seq) :
  shaped_seq n 1 hw x -> shaped_seq n 1 hw y -> length x = length y ->
  mapM (fun ab : Batch * Batch => cat_c [fst ab; snd ab]) (combine x y)
  = Ok (zip_with (zip_with (@app Plane)) x y) /\
  map (map (firstn 1)) (softmax (zip_with (zip_with (@app Plane)) x y))
  = map_seq2 weight_first x y /\
  map (map (skipn 1)) (softmax (zip_with (zip_with (@app Plane)) x y))
  = map_seq2 weight_second x y.
Proof.
  intros Hx. revert y. unfold softmax, map_seq2.
  induction Hx as [|a x Ha _ IH]; intros [|b y] Hy Hlen; simpl in Hlen;
    try discriminate.
  - repeat split.
  - inversion Hy as [|? ? Hb Hy']; subst.
    destruct (IH y Hy' ltac:(lia)) as (H0 & H1 & H2).
    destruct (softmax_batch Ha Hb) as (B0 & B1 & B2).
    cbn [combine mapM fst snd]. rewrite B0. cbn [bind]. rewrite H0. cbn [bind].
    split; [reflexivity|]. cbn [zip_with map].
    rewrite B1, B2, H1, H2. split; reflexivity.
Qed.

Lemma blend_closed_form (n hw : nat) (rd rc dd dc : Seq) :
  (1 <= n)%nat -> (1 <= length rc)%nat ->
  shaped_seq n 1 hw rc -> shaped_seq n 1 hw dc -> length rc = length dc ->
  blend rd rc dd dc
  = Ok (map_seq2 Rplus
          (map_seq2 Rmult dd (map_seq2 weight_second rc dc))
          (map_seq2 Rmult rd (map_seq2 weight_first rc dc)),
        {| d_depth := dd; rgb_depth := rd;
           d_conf := map_seq2 weight_second rc dc;
           rgb_conf := map_seq2 weight_first rc dc |}).
Proof.
  intros Hn Ht Hrc Hdc Hlen.
  destruct (softmax_seq Hrc Hdc Hlen) as (H0 & H1 & H2).
  unfold blend, cat_seq_c. rewrite Hlen, Nat.eqb_refl, H0. cbn [bind].
  unfold chunk2_seq_c.
  assert (Hc : match softmax (zip_with (zip_with (@app Plane)) rc dc) with
               | [] => 0%nat
               | b :: _ => channels b
               end = 2%nat).
  { destruct rc as [|a rc]; [simpl in Ht; lia|].
    destruct dc as [|b dc]; [discriminate|].
    inversion Hrc as [|? ? [La Fa] _]; inversion Hdc as [|? ? [Lb Fb] _]; subst.
    destruct a as [|s1 a]; [simpl in Hn; lia|].
    destruct b as [|s2 b]; [simpl in Lb; lia|].
    inversion Fa as [|? ? [Ls1 _] _]; inversion Fb as [|? ? [Ls2 _] _]; subst.
    destruct s1 as [|p1 [|? ?]]; try discriminate.
    destruct s2 as [|p2 [|? ?]]; try discriminate.
    reflexivity. }
  rewrite Hc. simpl Nat.eqb. cbv iota. cbn [bind].
  change (Nat.div (2 + 1) 2) with 1%nat.
  rewrite H1, H2. reflexivity.
Qed.

Lemma Forall_zip_with {A B C : Type} (P : A -> Prop) (Q : B -> Prop)
    (S : C -> Prop) (f : A -> B -> C) :
  (forall a b, P a -> Q b -> S (f a b)) ->
  forall xs ys, Forall P xs -> Forall Q ys -> Forall S (zip_with f xs ys).
Proof.
  intros Hf xs ys Hx. revert ys.
  induction Hx as [|a xs Ha _ IH]; intros ys Hy; [constructor|].
  destruct Hy as [|b ys Hb Hy]; simpl; constructor; auto.
Qed.

Lemma map_seq2_shaped (f : R -> R -> R) (n c hw : nat) (x y : Seq) :
  shaped_seq n c hw x -> shaped_seq n c hw y ->
  shaped_seq n c hw (map_seq2 f x y).
Proof.
  unfold shaped_seq, map_seq2. intros Hx Hy.
  apply (@Forall_zip_with _ _ _ (shaped_batch n c hw) (shaped_batch n c hw)
           (shaped_batch n c hw)); [|exact Hx|exact Hy].
  intros a b [La Fa] [Lb Fb]. split.
  { unfold map_batch2. rewrite zip_with_length; congruence. }
  unfold map_batch2.
  apply (@Forall_zip_with _ _ _ (shaped_sample c hw) (shaped_sample c hw)
           (shaped_sample c hw)); [|exact Fa|exact Fb].
  intros s s' [Ls Fs] [Ls' Fs']. split.
  { unfold map_sample2. rewrite zip_with_length; congruence. }
  unfold map_sample2.
  apply (@Forall_zip_with _ _ _ (fun p : Plane => length p = hw)
           (fun p : Plane => length p = hw)
           (fun p : Plane => length p = hw)); [|exact Fs|exact Fs'].
  intros p q Hp Hq. unfold map_plane2.
  rewrite zip_with_length; congruence.
Qed.

Lemma map_seq2_length (f : R -> R -> R) (x y : Seq) :
  length x = length y -> length (map_seq2 f x y) = length x.
Proof. apply zip_with_length. Qed.

(** C2. For the confidence maps conf1, conf2 returned by the two stages,
    [forward] returns the blend whose weights w1, w2 are the two-way softmax
    of (conf1, conf2): at every pixel w1 + w2 = 1 and 0 <= w1, w2 <= 1, and
    the final depth is depth2 * w2 + depth1 * w1. *)
Theorem forward_confidence_blend
    (N : Networks) (self s1 s2 : DVSR) (is_cuda : bool) (lqs guides : Seq)
    (rd rc dd dc extra : Seq) (rf o : option Seq) (n hw : nat) :
  let lqs' := repeat_interleave_hw N (Nat.div (scale self) 4) lqs in
  hg_forward N self is_cuda lqs' guides None None 1 = (s1, Ok (rd, rc, rf)) ->
  cat_seq_c rd rc = Ok extra ->
  hg_forward N s1 is_cuda lqs' guides (Some extra) rf 2
  = (s2, Ok (dd, dc, o)) ->
  shaped_seq n 1 hw rc -> shaped_seq n 1 hw dc ->
  shaped_seq n 1 hw rd -> shaped_seq n 1 hw dd ->
  length rd = length rc -> length dd = length rc -> length dc = length rc ->
  (1 <= n)%nat -> (1 <= length rc)%nat ->
  exists depth_final im,
    forward N self is_cuda lqs guides = (s2, Ok (depth_final, im)) /\
    d_depth im = dd /\ rgb_depth im = rd /\
    forall t b p, (t < length rc)%nat -> (b < n)%nat -> (p < hw)%nat ->
      let w1 := pixel (rgb_conf im) t b 0 p in
      let w2 := pixel (d_conf im) t b 0 p in
      w1 = weight_first (pixel rc t b 0 p) (pixel dc t b 0 p) /\
      w2 = weight_second (pixel rc t b 0 p) (pixel dc t b 0 p) /\
      w1 + w2 = 1 /\ 0 <= w1 <= 1 /\ 0 <= w2 <= 1 /\
      pixel depth_final t b 0 p
      = pixel dd t b 0 p * w2 + pixel rd t b 0 p * w1.
Proof.
  intros lqs' H1 Hcat H2 Hrc Hdc Hrd Hdd Lrd Ldd Ldc Hn Ht.
  unfold forward. fold lqs'. rewrite H1, Hcat, H2. cbn [bind].
  rewrite (@blend_closed_form n hw rd rc dd dc) by (auto; congruence).
  do 2 eexists. split; [reflexivity|]. split; [reflexivity|].
  split; [reflexivity|].
  intros t b p Htr Hb Hp. cbn [rgb_conf d_conf].
  assert (Hw1 : pixel (map_seq2 weight_first rc dc) t b 0 p
                = weight_first (pixel rc t b 0 p) (pixel dc t b 0 p)).
  { apply (@pixel_map_seq2 _ n 1%nat hw); auto; lia. }
  assert (Hw2 : pixel (map_seq2 weight_second rc dc) t b 0 p
                = weight_second (pixel rc t b 0 p) (pixel dc t b 0 p)).
  { apply (@pixel_map_seq2 _ n 1%nat hw); auto; lia. }
  split; [exact Hw1|]. split; [exact Hw2|].
  split; [rewrite Hw1, Hw2; apply weights_sum|].
  split; [rewrite Hw1; apply weight_first_bounds|].
  split; [rewrite Hw2; apply weight_second_bounds|].
  assert (Sw1 : shaped_seq n 1 hw (map_seq2 weight_first rc dc))
    by (apply map_seq2_shaped; assumption).
  assert (Sw2 : shaped_seq n 1 hw (map_seq2 weight_second rc dc))
    by (apply map_seq2_shaped; assumption).
  assert (Lw1 : length (map_seq2 weight_first rc dc) = length rc)
    by (apply map_seq2_length; congruence).
  assert (Lw2 : length (map_seq2 weight_second rc dc) = length rc)
    by (apply map_seq2_length; congruence).
  rewrite (@pixel_map_seq2 Rplus n 1%nat hw); auto.
  - rewrite (@pixel_map_seq2 Rmult n 1%nat hw dd); auto; try lia.
    rewrite (@pixel_map_seq2 Rmult n 1%nat hw rd); auto; try lia.
  - apply map_seq2_shaped; assumption.
  - apply map_seq2_shaped; assumption.
  - rewrite map_seq2_length; lia.
  - rewrite map_seq2_length; lia.
Qed.

Lemma check_plain_pair (self : DVSR) :
  is_mirror_extended self = false ->
  check_if_mirror_extended self plain_pair = self.
Proof.
  intros Hinit. apply check_leaves_unflagged.
  apply Bool.not_true_is_false. intros E.
  apply check_flag_after in E.
  destruct E as [E|[_ E]]; [congruence|].
  apply norm32_zero_iff in E.
  change (Forall (Forall (Forall (Forall (fun v => v * v <= tiny32 / 2))))
            [[[[sub32 0 1]]]]) in E.
  inversion E as [|? ? E1 _]; subst. inversion E1 as [|? ? E2 _]; subst.
  inversion E2 as [|? ? E3 _]; subst. inversion E3 as [|? ? E4 _]; subst.
  unfold sub32 in E4. replace (0 - 1) with (-1) in E4 by lra.
  rewrite round32_opp_1 in E4.
  pose proof tiny32_le_1. lra.
Qed.

(** Evaluation of the model on concrete inputs, the arithmetic on reals left
    symbolic. *)
Ltac run_model :=
  lazy -[Rplus Rminus Rmult Rdiv Rinv Ropp exp IZR Req_dec_T]; reflexivity.

Lemma forward_confidence_blend_witness :
  exists depth_final im,
    forward shaped_networks toy_model false plain_pair plain_guides
    = (toy_model, Ok (depth_final, im)) /\
    pixel (rgb_conf im) 0 0 0 0 + pixel (d_conf im) 0 0 0 0 = 1.
Proof.
  edestruct (@forward_confidence_blend shaped_networks toy_model toy_model
               toy_model false plain_pair plain_guides)
    with (n := 1%nat) (hw := 16%nat)
    as (depth_final & im & Hf & _ & _ & Hpix).
  - unfold hg_forward, hg_prepare. cbv zeta.
    change (repeat_interleave_hw shaped_networks
              (Nat.div (scale toy_model) 4) plain_pair) with plain_pair.
    rewrite check_plain_pair by reflexivity. run_model.
  - run_model.
  - unfold hg_forward, hg_prepare. cbv zeta.
    change (repeat_interleave_hw shaped_networks
              (Nat.div (scale toy_model) 4) plain_pair) with plain_pair.
    rewrite check_plain_pair by reflexivity. run_model.
  - repeat constructor.
  - repeat constructor.
  - repeat constructor.
  - repeat constructor.
  - reflexivity.
  - reflexivity.
  - reflexivity.
  - lia.
  - simpl. lia.
  - exists depth_final, im. split; [exact Hf|].
    destruct (Hpix 0%nat 0%nat 0%nat) as (_ & _ & Hsum & _);
      [simpl; lia|lia|lia|exact Hsum].
Defined.

(** ** Merging and splitting the batch and time axes *)

Section Reshape.
Context {A : Type}.

Lemma transpose_length (m : nat) (xs : list (list A)) :
  Forall (fun r => length r = m) xs -> length (transpose m xs) = m.
Proof.
  unfold transpose. induction 1 as [|r xs Hr _ IH]; simpl.
  - apply repeat_length.
  - rewrite zip_with_length; congruence.
Qed.

Lemma transpose_rows (m : nat) (xs : list (list A)) :
  Forall (fun r => length r = m) xs ->
  Forall (fun r => length r = length xs) (transpose m xs).
Proof.
  unfold transpose. induction 1 as [|r xs Hr Hxs IH]; simpl.
  - apply Forall_forall. intros x Hx. apply repeat_spec in Hx. subst.
    reflexivity.
  - apply (@Forall_zip_with _ _ _ (fun _ : A => True)
             (fun r' => length r' = length xs)
             (fun r' => length r' = S (length xs))).
    + intros a b _ Hb. simpl. congruence.
    + apply Forall_forall. intros; exact I.
    + exact IH.
Qed.

Lemma transpose_cons_col (k : nat) (a : list A) :
  forall rows : list (list A),
    length a = length rows -> Forall (fun r => length r = k) rows ->
    transpose (S k) (zip_with cons a rows) = a :: transpose k rows.
Proof.
  unfold transpose. induction a as [|x a IH]; intros [|r rows] Hlen Hrows;
    simpl in Hlen; try discriminate.
  - reflexivity.
  - inversion Hrows; subst. cbn [zip_with fold_right].
    rewrite IH by (auto; lia). reflexivity.
Qed.

Lemma transpose_involutive (n : nat) (xs : list (list A)) :
  Forall (fun r => length r = n) xs ->
  transpose (length xs) (transpose n xs) = xs.
Proof.
  induction 1 as [|a xs Ha Hxs IH].
  - unfold transpose. simpl. destruct n; reflexivity.
  - change (transpose n (a :: xs)) with (zip_with cons a (transpose n xs)).
    cbn [length]. rewrite transpose_cons_col.
    + rewrite IH. reflexivity.
    + rewrite transpose_length; assumption.
    + apply transpose_rows. exact Hxs.
Qed.

Lemma chunks_concat (t : nat) (rows : list (list A)) :
  Forall (fun r => length r = t) rows ->
  chunks (length rows) t (concat rows) = rows.
Proof.
  induction 1 as [|r rows Hr _ IH]; [reflexivity|].
  cbn [length chunks concat].
  rewrite firstn_app, skipn_app, Hr, Nat.sub_diag, firstn_all2, skipn_all2
    by lia.
  simpl. rewrite app_nil_r, IH. reflexivity.
Qed.

Lemma concat_length_regular (t : nat) (rows : list (list A)) :
  Forall (fun r => length r = t) rows ->
  length (concat rows) = (length rows * t)%nat.
Proof.
  induction 1 as [|r rows Hr _ IH]; [reflexivity|].
  simpl. rewrite length_app, IH, Hr. reflexivity.
Qed.

(** Splitting what was merged gives the sequence back. *)
Lemma view_merge_roundtrip (n : nat) (xs : list (list A)) :
  Forall (fun r => length r = n) xs ->
  length (concat (transpose n xs)) = (n * length xs)%nat /\
  transpose (length xs) (chunks n (length xs) (concat (transpose n xs))) = xs.
Proof.
  intros Hxs.
  pose proof (transpose_length Hxs) as Hlen.
  pose proof (transpose_rows Hxs) as Hrows.
  split.
  - rewrite (concat_length_regular Hrows), Hlen. reflexivity.
  - pose proof (chunks_concat Hrows) as Hc. rewrite Hlen in Hc.
    rewrite Hc. apply transpose_involutive, Hxs.
Qed.
End Reshape.

Lemma zip_with_cons_cols {A B C : Type} (f : A -> B -> C) (a : list A) :
  forall (rows : list (list A)) (b : list B) (rows' : list (list B)),
    zip_with (zip_with f) (zip_with cons a rows) (zip_with cons b rows')
    = zip_with cons (zip_with f a b) (zip_with (zip_with f) rows rows').
Proof.
  induction a as [|x a IH]; intros [|r rows] [|y b] [|r' rows']; simpl; auto.
  rewrite IH. reflexivity.
Qed.

Lemma transpose_zip_with {A B C : Type} (f : A -> B -> C) (m : nat)
    (xs : list (list A)) :
  forall ys : list (list B),
    length xs = length ys ->
    zip_with (zip_with f) (transpose m xs) (transpose m ys)
    = transpose m (zip_with (zip_with f) xs ys).
Proof.
  unfold transpose. induction xs as [|a xs IH]; intros [|b ys] Hlen;
    simpl in Hlen; try discriminate; simpl.
  - induction m as [|m IHm]; simpl; [reflexivity|]. rewrite IHm. reflexivity.
  - rewrite zip_with_cons_cols, IH by lia. reflexivity.
Qed.

Lemma zip_with_concat {A B C : Type} (f : A -> B -> C) (xs : list (list A)) :
  forall ys : list (list B),
    Forall2 (fun r r' => length r = length r') xs ys ->
    zip_with f (concat xs) (concat ys) = concat (zip_with (zip_with f) xs ys).
Proof.
  induction xs as [|r xs IH]; intros ys H; inversion H as [|? r' ? ys' Hr Hrest];
    subst; simpl; [reflexivity|].
  rewrite <- IH by assumption. clear IH H Hrest.
  revert r' Hr. induction r as [|x r IHr]; intros [|y r'] Hr; simpl in *;
    try discriminate; [reflexivity|].
  rewrite IHr by lia. reflexivity.
Qed.

(** ** Sequential and batched execution *)

Lemma py_index_nat {A : Type} (l : list A) (i : nat) (d : A) :
  (i < length l)%nat -> py_index l (Z.of_nat i) = Ok (nth i l d).
Proof.
  intros Hi.
  destruct (@py_index_nonneg A l (Z.of_nat i) ltac:(lia)) as (a & Ha & Hn).
  rewrite Nat2Z.id in Hn. rewrite Ha. f_equal.
  symmetry. apply nth_error_nth, Hn.
Qed.

Lemma mapM_ext_ok {A B : Type} (f : A -> result B) (g : A -> B) (l : list A) :
  (forall a, In a l -> f a = Ok (g a)) -> mapM f l = Ok (map g l).
Proof.
  induction l as [|a l IH]; intros H; simpl; [reflexivity|].
  rewrite (H a) by (left; reflexivity). cbn [bind].
  rewrite IH by (intros; apply H; right; assumption). reflexivity.
Qed.

Lemma map_seq_zip_with {A B C : Type} (F : A -> B -> C) (dx : A) (dy : B)
    (xs : list A) :
  forall ys : list B,
    length xs = length ys ->
    map (fun i => F (nth i xs dx) (nth i ys dy)) (seq 0 (length xs))
    = zip_with F xs ys.
Proof.
  induction xs as [|x xs IH]; intros [|y ys] Hlen; simpl in Hlen;
    try discriminate; [reflexivity|].
  cbn [length seq map zip_with nth]. f_equal.
  rewrite <- seq_shift, map_map. cbn [nth]. apply IH. lia.
Qed.

Lemma map_seq_nth {A : Type} (d : A) (l : list A) :
  map (fun i => nth i l d) (seq 0 (length l)) = l.
Proof.
  induction l as [|x l IH]; [reflexivity|].
  cbn [length seq map nth]. f_equal.
  rewrite <- seq_shift, map_map. exact IH.
Qed.

Lemma Forall_removelast {A : Type} (P : A -> Prop) (l : list A) :
  Forall P l -> Forall P (removelast l).
Proof. intros H. rewrite removelast_firstn_len. apply Forall_firstn, H. Qed.

Lemma Forall_tl {A : Type} (P : A -> Prop) (l : list A) :
  Forall P l -> Forall P (tl l).
Proof. intros H. destruct H; [constructor|assumption]. Qed.

Lemma length_removelast' {A : Type} (l : list A) :
  length (removelast l) = (length l - 1)%nat.
Proof. rewrite removelast_firstn_len, length_firstn. lia. Qed.

Lemma batch_size_regular (n : nat) (x : Seq) :
  Forall (batch_of n) x -> (1 <= length x)%nat -> batch_size x = n.
Proof. apply batch_size_flows. Qed.

Lemma reshape_merge_regular (n : nat) (x : Seq) :
  Forall (batch_of n) x -> (1 <= length x)%nat ->
  reshape_merge x = concat (transpose n x).
Proof.
  intros Hx Hlen. unfold reshape_merge.
  rewrite (batch_size_regular Hx Hlen). reflexivity.
Qed.

Lemma merged_length (n : nat) (x : Seq) :
  Forall (batch_of n) x -> length (concat (transpose n x)) = (n * length x)%nat.
Proof. intros Hx. apply (view_merge_roundtrip Hx). Qed.

Lemma split_merge (n : nat) (x : Seq) :
  Forall (batch_of n) x ->
  transpose (length x) (chunks n (length x) (concat (transpose n x))) = x.
Proof. intros Hx. apply (view_merge_roundtrip Hx). Qed.

(** *** Views with the sizes given *)

Lemma shaped_batches (n c hw : nat) (x : Seq) :
  shaped_seq n c hw x -> Forall (batch_of n) x.
Proof. intros H. eapply Forall_impl; [|exact H]. intros b [Hb _]. exact Hb. Qed.

Lemma plane_size_shaped (n c hw : nat) (x : Seq) :
  shaped_seq n c hw x ->
  (1 <= length x)%nat -> (1 <= n)%nat -> (1 <= c)%nat ->
  plane_size x = hw.
Proof.
  intros H Hl Hn Hc. destruct x as [|b x]; [simpl in Hl; lia|].
  inversion H as [|? ? [Lb Fb] _].
  destruct b as [|s b]; [simpl in Lb; lia|].
  inversion Fb as [|? ? [Ls Fs] _].
  destruct s as [|p s]; [simpl in Ls; lia|].
  inversion Fs. simpl. assumption.
Qed.

Lemma channel_count_shaped (n c hw : nat) (x : Seq) :
  shaped_seq n c hw x -> (1 <= length x)%nat -> (1 <= n)%nat ->
  channel_count x = c.
Proof.
  intros H Hl Hn. destruct x as [|b x]; [simpl in Hl; lia|].
  inversion H as [|? ? [Lb Fb] _].
  destruct b as [|s b]; [simpl in Lb; lia|].
  inversion Fb as [|? ? [Ls Fs] _]. simpl. assumption.
Qed.

Lemma flat_samples (x : Batch) : flat x = concat (map (@concat R) x).
Proof.
  unfold flat. induction x as [|s x IH]; simpl; [reflexivity|].
  rewrite concat_app, IH. reflexivity.
Qed.

Lemma sample_elements (c hw : nat) (s : Sample) :
  shaped_sample c hw s ->
  length (concat s) = (c * hw)%nat /\ chunks c hw (concat s) = s.
Proof.
  intros [L F]. split.
  - rewrite (concat_length_regular F), L. reflexivity.
  - rewrite <- L. apply chunks_concat, F.
Qed.

(** Samples of c channels of hw pixels are recovered from their elements. *)
Lemma regroup_shaped (c hw : nat) (x : Batch) :
  Forall (shaped_sample c hw) x ->
  length (flat x) = (length x * (c * hw))%nat /\
  map (chunks c hw) (chunks (length x) (c * hw) (flat x)) = x.
Proof.
  intros H. rewrite flat_samples.
  assert (F : Forall (fun r : list R => length r = (c * hw)%nat)
                (map (@concat R) x)).
  { apply Forall_map. eapply Forall_impl; [|exact H].
    intros s Hs. apply (sample_elements Hs). }
  split.
  - rewrite (concat_length_regular F), length_map. reflexivity.
  - pose proof (chunks_concat F) as E. rewrite length_map in E.
    rewrite E, map_map.
    transitivity (map (fun s : Sample => s) x); [|apply map_id].
    apply map_ext_in. intros s Hs. rewrite Forall_forall in H.
    apply (sample_elements (H s Hs)).
Qed.

Lemma view4_shaped (c hw : nat) (x : Batch) :
  Forall (shaped_sample c hw) x -> (1 <= c)%nat -> (1 <= hw)%nat ->
  view4 c hw (flat x) = Ok x.
Proof.
  intros H Hc Hhw. destruct (regroup_shaped H) as [L E].
  assert (Hper : (c * hw)%nat <> 0%nat) by nia.
  unfold view4. cbv zeta.
  rewrite (proj2 (Nat.eqb_neq _ _) Hper), L, Nat.Div0.mod_mul, Nat.eqb_refl.
  rewrite (Nat.div_mul _ _ Hper), E. reflexivity.
Qed.

Lemma view5_shaped (n t c hw : nat) (x : Batch) :
  Forall (shaped_sample c hw) x -> length x = (n * t)%nat ->
  view5 n t c hw x = Ok (transpose t (chunks n t x)).
Proof.
  intros H Hl. destruct (regroup_shaped H) as [L E]. rewrite Hl in L, E.
  unfold view5. rewrite L.
  replace (n * t * (c * hw))%nat with (n * t * c * hw)%nat by lia.
  rewrite Nat.eqb_refl, E. reflexivity.
Qed.

Lemma view_split_shaped (n t c hw : nat) (x : Batch) :
  Forall (shaped_sample c hw) x -> length x = (n * t)%nat ->
  (1 <= n * t)%nat -> (1 <= c)%nat -> (1 <= hw)%nat ->
  view_split n t x = Ok (transpose t (chunks n t x)).
Proof.
  intros H Hl Hnt Hc Hhw.
  assert (Hp : plane_size [x] = hw).
  { apply (@plane_size_shaped (length x) c hw [x]).
    - constructor; [split; [reflexivity|exact H]|constructor].
    - simpl. lia.
    - lia.
    - exact Hc. }
  destruct (regroup_shaped H) as [L _].
  assert (Hper : (n * t * hw)%nat <> 0%nat) by nia.
  unfold view_split. cbv zeta. rewrite Hp, L, Hl.
  rewrite (proj2 (Nat.eqb_neq _ _) Hper).
  replace (n * t * (c * hw))%nat with (c * (n * t * hw))%nat by lia.
  rewrite Nat.Div0.mod_mul, Nat.eqb_refl, (Nat.div_mul _ _ Hper).
  apply view5_shaped; assumption.
Qed.

Lemma Forall_transpose {A : Type} (P : A -> Prop) (m : nat)
    (xs : list (list A)) :
  Forall (Forall P) xs -> Forall (Forall P) (transpose m xs).
Proof.
  unfold transpose. induction 1 as [|a xs Ha _ IH]; simpl.
  - apply Forall_forall. intros r Hr. apply repeat_spec in Hr. subst.
    constructor.
  - eapply Forall_zip_with; [|exact Ha|exact IH].
    intros v r Hv Hr. constructor; assumption.
Qed.

Lemma merged_shaped (n c hw : nat) (x : Seq) :
  shaped_seq n c hw x -> Forall (shaped_sample c hw) (concat (transpose n x)).
Proof.
  intros H. apply Forall_concat_iff, Forall_transpose.
  eapply Forall_impl; [|exact H]. intros b [_ Hb]. exact Hb.
Qed.

(** Merging batch and time and viewing the result with the sizes of the
    samples changes nothing. *)
Lemma view4_merge (n c hw : nat) (x : Seq) :
  shaped_seq n c hw x ->
  (1 <= length x)%nat -> (1 <= c)%nat -> (1 <= hw)%nat ->
  view4 c hw (flat (reshape_merge x)) = Ok (concat (transpose n x)).
Proof.
  intros Hx Hl Hc Hhw.
  rewrite (reshape_merge_regular (shaped_batches Hx) Hl).
  apply view4_shaped; [apply merged_shaped, Hx|assumption|assumption].
Qed.

(** Splitting what was merged gives the sequence back. *)
Lemma view5_merge (n c hw : nat) (x : Seq) :
  shaped_seq n c hw x ->
  view5 n (length x) c hw (concat (transpose n x)) = Ok x.
Proof.
  intros Hx. pose proof (shaped_batches Hx) as Hb.
  rewrite (@view5_shaped n (length x) c hw).
  - rewrite (split_merge Hb). reflexivity.
  - apply merged_shaped, Hx.
  - apply merged_length, Hb.
Qed.

Lemma view_split_merge (n c hw : nat) (x : Seq) :
  shaped_seq n c hw x ->
  (1 <= length x)%nat -> (1 <= n)%nat -> (1 <= c)%nat -> (1 <= hw)%nat ->
  view_split n (length x) (concat (transpose n x)) = Ok x.
Proof.
  intros Hx Hl Hn Hc Hhw. pose proof (shaped_batches Hx) as Hb.
  rewrite (@view_split_shaped n (length x) c hw).
  - rewrite (split_merge Hb). reflexivity.
  - apply merged_shaped, Hx.
  - apply merged_length, Hb.
  - nia.
  - exact Hc.
  - exact Hhw.
Qed.

Lemma merge_zip_with (f : Sample -> Sample -> Sample) (n : nat) (x y : Seq) :
  Forall (batch_of n) x -> Forall (batch_of n) y -> length x = length y ->
  zip_with f (concat (transpose n x)) (concat (transpose n y))
  = concat (transpose n (zip_with (zip_with f) x y)).
Proof.
  intros Hx Hy Hlen. rewrite zip_with_concat.
  - rewrite transpose_zip_with by exact Hlen. reflexivity.
  - apply (@Forall2_of_Forall _ (fun r : Batch => length r = length x)).
    + intros a b Ha Hb. congruence.
    + apply transpose_rows, Hx.
    + rewrite Hlen. apply transpose_rows, Hy.
    + rewrite !transpose_length; auto.
Qed.

Lemma zip_with_batches (f : Sample -> Sample -> Sample) (n : nat) (x y : Seq) :
  Forall (batch_of n) x -> Forall (batch_of n) y ->
  Forall (batch_of n) (zip_with (zip_with f) x y).
Proof.
  apply Forall_zip_with. unfold batch_of. intros a b Ha Hb.
  rewrite zip_with_length; congruence.
Qed.

(** Frames of [n] samples each, combined sample by sample. *)
Lemma zip_frames (P Q S : Sample -> Prop) (f : Sample -> Sample -> Sample)
    (n : nat) (x y : Seq) :
  (forall s s', P s -> Q s' -> S (f s s')) ->
  Forall (fun b : Batch => length b = n /\ Forall P b) x ->
  Forall (fun b : Batch => length b = n /\ Forall Q b) y ->
  Forall (fun b : Batch => length b = n /\ Forall S b)
         (zip_with (zip_with f) x y).
Proof.
  intros Hf. apply Forall_zip_with. intros a b [La Fa] [Lb Fb]. split.
  - rewrite zip_with_length; congruence.
  - eapply Forall_zip_with; [exact Hf|exact Fa|exact Fb].
Qed.

Lemma shaped_zip (f : Sample -> Sample -> Sample)
    (n c hw c' hw' c2 hw2 : nat) (x y : Seq) :
  (forall s s', shaped_sample c hw s -> shaped_sample c' hw' s' ->
                shaped_sample c2 hw2 (f s s')) ->
  shaped_seq n c hw x -> shaped_seq n c' hw' y ->
  shaped_seq n c2 hw2 (zip_with (zip_with f) x y).
Proof. intros Hf Hx Hy. exact (@zip_frames _ _ _ f n x y Hf Hx Hy). Qed.

(** What the operators do to one sample, from what they do to a batch. *)
Lemma flow_sample_sized (N : Networks) (hg c hw : nat)
    (f : Sample -> Sample -> Sample) :
  (forall a b, spynet N hg a b = zip_with f a b) -> flow_sized N c hw ->
  forall s s', shaped_sample c hw s -> shaped_sample c hw s' ->
               shaped_sample 2 hw (f s s').
Proof.
  intros Hf Hs s s' H H'.
  assert (E : Forall (shaped_sample 2 hw) (spynet N hg [s] [s'])).
  { apply Hs; [constructor; [assumption|constructor]..|reflexivity]. }
  rewrite Hf in E. inversion E. assumption.
Qed.

Lemma guide_sample_sized (N : Networks) (hg hw cf c : nat)
    (g : Sample -> Sample) (e : Sample) :
  keeps_sizes N hw cf -> (forall a, conv_guide_init N hg a = map g a) ->
  shaped_sample c (16 * hw) e -> planes_of hw (g e).
Proof.
  intros HK Hg He.
  assert (E : Forall (planes_of hw) (conv_guide_init N hg [e])).
  { apply (@ks_guide N hw cf HK hg c). constructor; [assumption|constructor]. }
  rewrite Hg in E. inversion E. assumption.
Qed.

Lemma feat_sample_sized (N : Networks) (hg hw cf : nat)
    (h : Sample -> Sample) (s : Sample) :
  keeps_sizes N hw cf -> (forall a, feat_extract N hg a = map h a) ->
  planes_of hw s -> (1 <= length s)%nat -> shaped_sample cf hw (h s).
Proof.
  intros HK Hh Hs Hl.
  assert (E : Forall (shaped_sample cf hw) (feat_extract N hg [s])).
  { apply (@ks_feat N hw cf HK hg).
    constructor; [split; assumption|constructor]. }
  rewrite Hh in E. inversion E. assumption.
Qed.

(** One pair at a time, concatenated. *)
Lemma pairwise_flows (N : Networks) (hg_idx : nat)
    (f : Sample -> Sample -> Sample) (first second : Seq) (m : nat) :
  (forall a b, spynet N hg_idx a b = zip_with f a b) ->
  length first = m -> length second = m -> (1 <= m)%nat ->
  (pieces <- mapM (fun tt : nat =>
                     a <- py_index first (Z.of_nat tt) ;;
                     b <- py_index second (Z.of_nat tt) ;;
                     Ok (spynet N hg_idx a b))
                  (seq 0 m) ;;
   cat_time pieces)
  = Ok (zip_with (zip_with f) first second).
Proof.
  intros Hf L1 L2 Hm.
  rewrite (@mapM_ext_ok _ _ _
             (fun tt => zip_with f (nth tt first []) (nth tt second []))).
  - cbn [bind]. rewrite <- L1.
    rewrite (map_seq_zip_with (zip_with f) [] [] first second) by congruence.
    destruct first as [|a first]; [simpl in L1; lia|].
    destruct second as [|b second]; [simpl in L2; lia|]. reflexivity.
  - intros tt Htt. apply in_seq in Htt.
    rewrite (py_index_nat first []) by lia. cbn [bind].
    rewrite (py_index_nat second []) by lia. cbn [bind].
    rewrite Hf. reflexivity.
Qed.

(** All pairs in one call of the flow network, viewed as
    [(n, t - 1, 2, h, w)]. *)
Lemma batched_flows (N : Networks) (hg_idx : nat)
    (f : Sample -> Sample -> Sample) (first second : Seq) (n m c hw : nat) :
  (forall a b, spynet N hg_idx a b = zip_with f a b) ->
  flow_sized N c hw ->
  shaped_seq n c hw first -> shaped_seq n c hw second ->
  length first = m -> length second = m -> (1 <= m)%nat ->
  (1 <= c)%nat -> (1 <= hw)%nat ->
  (a <- view4 c hw (flat (reshape_merge first)) ;;
   b <- view4 c hw (flat (reshape_merge second)) ;;
   view5 n m 2 hw (spynet N hg_idx a b))
  = Ok (zip_with (zip_with f) first second).
Proof.
  intros Hf Hs H1 H2 L1 L2 Hm Hc Hhw.
  pose proof (shaped_batches H1) as B1. pose proof (shaped_batches H2) as B2.
  rewrite (view4_merge H1), (view4_merge H2) by lia. cbn [bind].
  rewrite Hf, merge_zip_with by (auto; congruence).
  replace m with (length (zip_with (zip_with f) first second))
    by (rewrite zip_with_length; congruence).
  apply view5_merge.
  apply (@shaped_zip _ n c hw c hw 2%nat hw _ _
           (@flow_sample_sized N hg_idx c hw f Hf Hs)); assumption.
Qed.

Lemma compute_flow_value (N : Networks) (self : DVSR) (guides : Seq)
    (hg_idx n c hw : nat) (f : Sample -> Sample -> Sample) :
  (forall a b, spynet N hg_idx a b = zip_with f a b) ->
  flow_sized N c hw -> shaped_seq n c hw guides ->
  (1 <= n)%nat -> (1 <= c)%nat -> (1 <= hw)%nat ->
  (2 <= length guides)%nat ->
  compute_flow N self guides hg_idx
  = if is_mirror_extended self then
      if cpu_cache self then Raise AttributeError
      else Ok (None, zip_with (zip_with f) (removelast guides) (tl guides))
    else Ok (Some (zip_with (zip_with f) (tl guides) (removelast guides)),
             zip_with (zip_with f) (removelast guides) (tl guides)).
Proof.
  intros Hf Hs Hg Hn Hc Hhw Hlen. unfold compute_flow. cbv zeta.
  rewrite (batch_size_regular (shaped_batches Hg)) by lia.
  rewrite (plane_size_shaped Hg), (channel_count_shaped Hg) by lia.
  assert (H1 : shaped_seq n c hw (removelast guides))
    by (apply Forall_removelast, Hg).
  assert (H2 : shaped_seq n c hw (tl guides)) by (apply Forall_tl, Hg).
  pose proof (length_removelast' guides) as L1.
  pose proof (length_tl guides) as L2.
  destruct (cpu_cache self).
  - rewrite (@pairwise_flows N hg_idx f (removelast guides) (tl guides))
      by (auto; lia).
    cbn [bind].
    destruct (is_mirror_extended self); cbn [bind from_option]; [reflexivity|].
    rewrite (@pairwise_flows N hg_idx f (tl guides) (removelast guides))
      by (auto; lia).
    reflexivity.
  - rewrite (@batched_flows N hg_idx f (removelast guides) (tl guides) n
               (length guides - 1) c hw) by (auto; lia).
    cbn [bind].
    destruct (is_mirror_extended self); cbn [bind]; [reflexivity|].
    rewrite (@batched_flows N hg_idx f (tl guides) (removelast guides) n
               (length guides - 1) c hw) by (auto; lia).
    reflexivity.
Qed.

Lemma zip_with_map_r {A B B' C : Type} (f : A -> B -> C) (k : B' -> B)
    (xs : list A) :
  forall ys : list B',
    zip_with f xs (map k ys) = zip_with (fun x y => f x (k y)) xs ys.
Proof.
  induction xs as [|x xs IH]; intros [|y ys]; simpl; auto.
  rewrite IH. reflexivity.
Qed.

Lemma map_zip_with {A B C D : Type} (f : A -> B -> C) (k : C -> D)
    (xs : list A) :
  forall ys : list B,
    map k (zip_with f xs ys) = zip_with (fun x y => k (f x y)) xs ys.
Proof.
  induction xs as [|x xs IH]; intros [|y ys]; simpl; auto.
  rewrite IH. reflexivity.
Qed.

Lemma cat_c_pair (a b : Batch) :
  length b = length a -> cat_c [a; b] = Ok (zip_with (@app Plane) a b).
Proof. intros H. unfold cat_c. simpl. rewrite H, Nat.eqb_refl. reflexivity. Qed.

Lemma cat_c_triple (a b c : Batch) :
  length b = length a -> length c = length a ->
  cat_c [a; b; c]
  = Ok (zip_with (@app Plane) (zip_with (@app Plane) a b) c).
Proof.
  intros Hb Hc. unfold cat_c. simpl. rewrite Hb, Hc, Nat.eqb_refl.
  reflexivity.
Qed.

Lemma mapM_index_all {A : Type} (l : list A) :
  mapM (fun i : nat => py_index l (Z.of_nat i)) (seq 0 (length l)) = Ok l.
Proof.
  destruct l as [|d l']; [reflexivity|].
  rewrite (@mapM_ext_ok _ _ _ (fun i => nth i (d :: l') d)).
  - rewrite map_seq_nth. reflexivity.
  - intros i Hi. apply in_seq in Hi. apply py_index_nat. lia.
Qed.

(** Stage 1: per frame, [feat_extract(cat([lq, conv_guide_init(guide)]))]. *)
Lemma spatial_features_stage1 (N : Networks) (self : DVSR) (lqs guides : Seq)
    (ei ef : option Seq) (n c hw cf : nat) (g h : Sample -> Sample) :
  (forall a, conv_guide_init N 1 a = map g a) ->
  (forall a, feat_extract N 1 a = map h a) ->
  (forall s e, shaped_sample c hw s -> shaped_sample 3 (16 * hw) e ->
               shaped_sample cf hw (h (s ++ g e))) ->
  shaped_seq n c hw lqs -> shaped_seq n 3 (16 * hw) guides ->
  length guides = length lqs -> (1 <= length lqs)%nat ->
  (1 <= n)%nat -> (1 <= c)%nat -> (1 <= hw)%nat -> (1 <= cf)%nat ->
  spatial_features N self lqs guides ei ef 1
  = Ok (zip_with (zip_with (fun s e => h (s ++ g e))) lqs guides).
Proof.
  intros Hg Hh Hz Sl Sg Hlen Ht Hn Hc Hhw Hcf.
  pose proof (shaped_batches Sl) as Hl. pose proof (shaped_batches Sg) as Hgd.
  unfold spatial_features. cbv zeta.
  change (Nat.eqb 1 1) with true. cbv iota.
  destruct (cpu_cache self).
  - rewrite (@mapM_ext_ok _ _ _
               (fun i => zip_with (fun s e => h (s ++ g e))
                           (nth i lqs []) (nth i guides []))).
    + rewrite (map_seq_zip_with
                 (zip_with (fun s e => h (s ++ g e))) [] [] lqs guides)
        by congruence.
      reflexivity.
    + intros i Hi. apply in_seq in Hi.
      rewrite (py_index_nat guides []) by lia. cbn [bind].
      rewrite (py_index_nat lqs []) by lia. cbn [bind].
      rewrite Hg, cat_c_pair.
      * cbn [bind]. rewrite Hh, zip_with_map_r, map_zip_with. reflexivity.
      * rewrite length_map.
        pose proof (@nth_Forall _ _ _ i [] Hl ltac:(lia)) as E1.
        pose proof (@nth_Forall _ _ _ i [] Hgd ltac:(lia)) as E2.
        unfold batch_of in *. congruence.
  - rewrite (batch_size_regular Hl Ht), (plane_size_shaped Sl Ht Hn Hc).
    rewrite (channel_count_shaped Sl Ht Hn).
    rewrite (view4_merge Sg) by lia. cbn [bind].
    rewrite (view4_merge Sl) by lia. cbn [bind].
    rewrite Hg, cat_c_pair
      by (rewrite length_map, !merged_length by assumption; congruence).
    cbn [bind]. rewrite Hh, zip_with_map_r, map_zip_with.
    rewrite merge_zip_with by (auto; congruence).
    set (Z := zip_with (zip_with (fun s e => h (s ++ g e))) lqs guides).
    assert (HZ : shaped_seq n cf hw Z)
      by (apply (@shaped_zip _ n c hw 3%nat (16 * hw)%nat cf hw _ _ Hz);
          assumption).
    assert (LZ : length Z = length lqs)
      by (apply zip_with_length; congruence).
    rewrite <- LZ. rewrite (view_split_merge HZ) by lia. cbn [bind].
    apply mapM_index_all.
Qed.

(** Stage 2: per frame,
    [feat_extract(cat([lq, conv_guide_init(extra_input), extra_feat]))]. *)
Lemma spatial_features_stage2 (N : Networks) (self : DVSR)
    (lqs guides e f' : Seq) (hg_idx n c hw cf : nat)
    (g h : Sample -> Sample) :
  hg_idx <> 1%nat ->
  (forall a, conv_guide_init N hg_idx a = map g a) ->
  (forall a, feat_extract N hg_idx a = map h a) ->
  (forall s x z,
      shaped_sample c hw s -> shaped_sample 2 (16 * hw) x ->
      shaped_sample (mid_channels self) hw z ->
      shaped_sample cf hw (h ((s ++ g x) ++ z))) ->
  shaped_seq n c hw lqs -> shaped_seq n 2 (16 * hw) e ->
  shaped_seq n (mid_channels self) hw f' ->
  length e = length lqs -> length f' = length lqs -> (1 <= length lqs)%nat ->
  (1 <= n)%nat -> (1 <= c)%nat -> (1 <= hw)%nat -> (1 <= cf)%nat ->
  (1 <= mid_channels self)%nat ->
  spatial_features N self lqs guides (Some e) (Some f') hg_idx
  = Ok (zip_with (zip_with (fun u z => h (u ++ z)))
          (zip_with (zip_with (fun s x => s ++ g x)) lqs e) f').
Proof.
  intros Hhg Hg Hh Hz Sl Se Sf Le Lf Ht Hn Hc Hhw Hcf Hm.
  pose proof (shaped_batches Sl) as Hl. pose proof (shaped_batches Se) as He.
  pose proof (shaped_batches Sf) as Hf.
  unfold spatial_features. cbv zeta.
  apply Nat.eqb_neq in Hhg. rewrite Hhg. cbn [from_option bind].
  set (U := zip_with (zip_with (fun s x => s ++ g x)) lqs e).
  assert (HU : Forall (batch_of n) U) by (apply zip_with_batches; assumption).
  assert (LU : length U = length lqs) by (apply zip_with_length; congruence).
  destruct (cpu_cache self).
  - rewrite (@mapM_ext_ok _ _ _
               (fun i => zip_with (fun u z => h (u ++ z))
                           (nth i U []) (nth i f' []))).
    + rewrite <- LU.
      rewrite (map_seq_zip_with
                 (zip_with (fun u z => h (u ++ z))) [] [] U f')
        by congruence.
      reflexivity.
    + intros i Hi. apply in_seq in Hi.
      rewrite (py_index_nat e []) by lia. cbn [bind].
      rewrite (py_index_nat lqs []) by lia. cbn [bind].
      rewrite (py_index_nat f' []) by lia. cbn [bind].
      pose proof (@nth_Forall _ _ _ i [] Hl ltac:(lia)) as E1.
      pose proof (@nth_Forall _ _ _ i [] He ltac:(lia)) as E2.
      pose proof (@nth_Forall _ _ _ i [] Hf ltac:(lia)) as E3.
      unfold batch_of in E1, E2, E3.
      rewrite Hg, cat_c_triple by (rewrite ?length_map; congruence).
      cbn [bind]. rewrite Hh, zip_with_map_r, map_zip_with.
      unfold U.
      rewrite (@zip_with_nth _ _ _ (zip_with (fun s x => s ++ g x)) lqs e i
                 [] [] []) by lia.
      reflexivity.
  - rewrite (batch_size_regular Hl Ht), (plane_size_shaped Sl Ht Hn Hc).
    rewrite (channel_count_shaped Sl Ht Hn).
    rewrite (view4_merge Se) by lia. cbn [bind].
    rewrite (view4_merge Sl) by lia. cbn [bind].
    rewrite (view4_merge Sf) by lia. cbn [bind].
    rewrite Hg, cat_c_triple
      by (rewrite ?length_map, !merged_length by assumption; congruence).
    cbn [bind]. rewrite Hh, zip_with_map_r, map_zip_with.
    rewrite (merge_zip_with (fun s x => s ++ g x) Hl He) by congruence.
    fold U.
    rewrite (merge_zip_with (fun u z => h (u ++ z)) HU Hf) by congruence.
    set (V := zip_with (zip_with (fun u z => h (u ++ z))) U f').
    assert (HV : shaped_seq n cf hw V).
    { apply (@zip_frames
               (fun u => exists s x, u = s ++ g x /\ shaped_sample c hw s /\
                                     shaped_sample 2 (16 * hw) x)
               (shaped_sample (mid_channels self) hw)
               (shaped_sample cf hw)).
      - intros u z (s & x & -> & Hs & Hx) Hzz. apply Hz; assumption.
      - apply (@zip_frames (shaped_sample c hw)
                 (shaped_sample 2 (16 * hw))); [|exact Sl|exact Se].
        intros s x Hs Hx. exists s, x. auto.
      - exact Sf. }
    assert (LV : length V = length lqs)
      by (unfold V; rewrite zip_with_length; congruence).
    rewrite <- LV. rewrite (view_split_merge HV) by lia. cbn [bind].
    apply mapM_index_all.
Qed.

Lemma check_flag_indep (self : DVSR) (b : bool) (lqs : Seq) :
  is_mirror_extended (check_if_mirror_extended (set_cpu_cache self b) lqs)
  = is_mirror_extended (check_if_mirror_extended self lqs).
Proof.
  unfold check_if_mirror_extended, chunk2_time.
  destruct (Nat.eqb _ 0); [|reflexivity].
  destruct (Req_dec_T _ 0); reflexivity.
Qed.

Lemma check_mid_channels (self : DVSR) (lqs : Seq) :
  mid_channels (check_if_mirror_extended self lqs) = mid_channels self.
Proof.
  unfold check_if_mirror_extended, chunk2_time.
  destruct (Nat.eqb _ 0); [|reflexivity].
  destruct (Req_dec_T _ 0); reflexivity.
Qed.

Lemma propagate_self (N : Networks) (s s' : DVSR) (flows : Seq)
    (m : string) (hg_idx : nat) (feats : Feats) :
  mid_channels s = mid_channels s' ->
  propagate N s flows m hg_idx feats = propagate N s' flows m hg_idx feats.
Proof.
  intros H. unfold propagate, propagate_trace. rewrite H. reflexivity.
Qed.

Lemma propagate_all_self (N : Networks) (s s' : DVSR) (hg_idx : nat)
    (ff : option Seq) (fb : Seq) (bs : list (string * string)) :
  mid_channels s = mid_channels s' ->
  forall feats,
    propagate_all N s hg_idx ff fb bs feats
    = propagate_all N s' hg_idx ff fb bs feats.
Proof.
  intros H. induction bs as [|b bs IH]; intros feats; [reflexivity|].
  cbn [propagate_all]. cbv zeta.
  rewrite (@propagate_self N s s' _ _ _ _ H).
  destruct (propagate N s' _ _ _ _) as [feats'|e]; cbn [bind];
    [apply IH|reflexivity].
Qed.

Lemma hg_forward_result (N : Networks) (self : DVSR) (is_cuda : bool)
    (lqs guides : Seq) (ei ef : option Seq) (hg_idx : nat) :
  snd (hg_forward N self is_cuda lqs guides ei ef hg_idx)
  = ('(feats, flows_forward, flows_backward) <-
       snd (hg_prepare N self is_cuda lqs guides ei ef hg_idx) ;;
     feats <- propagate_all N
                (fst (hg_prepare N self is_cuda lqs guides ei ef hg_idx))
                hg_idx flows_forward flows_backward branches feats ;;
     '(depth, conf, feats_fused) <- upsample N lqs hg_idx feats ;;
     if Nat.eqb hg_idx 1 then Ok (depth, conf, Some feats_fused)
     else Ok (depth, conf, None)).
Proof. reflexivity. Qed.

(** The spatial features of a stage on inputs of the documented sizes: the
    same in both execution modes, one frame per input frame. *)
Lemma spatial_features_ok (N : Networks) (lqs guides : Seq)
    (ei ef : option Seq) (hg_idx n c hw cf m : nat) :
  samplewise N -> keeps_sizes N hw cf ->
  shaped_seq n c hw lqs -> shaped_seq n 3 (16 * hw) guides ->
  length guides = length lqs -> (1 <= length lqs)%nat ->
  (1 <= n)%nat -> (1 <= c)%nat -> (1 <= hw)%nat ->
  stage_inputs hg_idx n hw m (length lqs) ei ef ->
  exists spatial,
    (forall self, mid_channels self = m ->
       spatial_features N self lqs guides ei ef hg_idx = Ok spatial) /\
    length spatial = length lqs /\ shaped_seq n cf hw spatial.
Proof.
  intros HN HK Sl Sg Hlen Ht Hn Hc Hhw Hstage.
  destruct (conv_guide_init_samplewise HN hg_idx) as [g Hcgi].
  destruct (feat_extract_samplewise HN hg_idx) as [h Hfe].
  pose proof (ks_channels HK) as Hcf.
  destruct (Nat.eq_dec hg_idx 1) as [->|Hne].
  - assert (Hz : forall s e,
               shaped_sample c hw s -> shaped_sample 3 (16 * hw) e ->
               shaped_sample cf hw (h (s ++ g e))).
    { intros s e [Ls Fs] He. apply (@feat_sample_sized N 1 hw cf h _ HK Hfe).
      - apply Forall_app. split; [exact Fs|].
        apply (@guide_sample_sized N 1 hw cf 3 g e HK Hcgi He).
      - rewrite length_app. lia. }
    exists (zip_with (zip_with (fun s e => h (s ++ g e))) lqs guides).
    split; [|split].
    + intros self _.
      apply (@spatial_features_stage1 N self lqs guides ei ef n c hw cf g h);
        assumption.
    + apply zip_with_length. congruence.
    + apply (@shaped_zip _ n c hw 3%nat (16 * hw)%nat cf hw _ _ Hz);
        assumption.
  - destruct Hstage as [E|(e & f & -> & -> & Se & Sf & Le & Lf & Hm)];
      [contradiction|].
    assert (Hz : forall s x z,
               shaped_sample c hw s -> shaped_sample 2 (16 * hw) x ->
               shaped_sample m hw z ->
               shaped_sample cf hw (h ((s ++ g x) ++ z))).
    { intros s x z [Ls Fs] Hx [Lz Fz].
      apply (@feat_sample_sized N hg_idx hw cf h _ HK Hfe).
      - apply Forall_app. split; [|exact Fz].
        apply Forall_app. split; [exact Fs|].
        apply (@guide_sample_sized N hg_idx hw cf 2 g x HK Hcgi Hx).
      - rewrite !length_app. lia. }
    exists (zip_with (zip_with (fun u z => h (u ++ z)))
              (zip_with (zip_with (fun s x => s ++ g x)) lqs e) f).
    split; [|split].
    + intros self Hmid. subst m.
      apply (@spatial_features_stage2 N self lqs guides e f hg_idx n c hw cf
               g h); assumption.
    + rewrite zip_with_length; rewrite zip_with_length; congruence.
    + apply (@zip_frames
               (fun u => exists s x, u = s ++ g x /\ shaped_sample c hw s /\
                                     shaped_sample 2 (16 * hw) x)
               (shaped_sample m hw) (shaped_sample cf hw)).
      * intros u z (s & x & -> & Hs & Hx) Hzz. apply Hz; assumption.
      * apply (@zip_frames (shaped_sample c hw)
                 (shaped_sample 2 (16 * hw))); [|exact Sl|exact Se].
        intros s x Hs Hx. exists s, x. auto.
      * exact Sf.
Qed.

Lemma modes_agree_on_prepare (N : Networks) (s1 s2 : DVSR) (lqs guides : Seq)
    (ei ef : option Seq) (hg_idx n c hw cf : nat) :
  samplewise N -> keeps_sizes N hw cf ->
  shaped_seq n c hw lqs -> shaped_seq n 3 (16 * hw) guides ->
  length guides = length lqs -> (2 <= length lqs)%nat ->
  (1 <= n)%nat -> (1 <= c)%nat -> (1 <= hw)%nat ->
  stage_inputs hg_idx n hw (mid_channels s1) (length lqs) ei ef ->
  mid_channels s1 = mid_channels s2 ->
  is_mirror_extended s1 = is_mirror_extended s2 ->
  (spatial <- spatial_features N s1 lqs guides ei ef hg_idx ;;
   let feats : Feats := [("spatial"%string, spatial)] in
   let hw' := if cpu_cache s1 then plane_size lqs else plane_size spatial in
   '(flows_forward, flows_backward) <- compute_flow N s1 guides hg_idx ;;
   flows_forward <-
     resize_flows N (batch_size lqs) (length lqs) hw' flows_forward ;;
   flows_backward <-
     resize_flows N (batch_size lqs) (length lqs) hw' (Some flows_backward) ;;
   Ok (feats, Some flows_forward, flows_backward))
  = (spatial <- spatial_features N s2 lqs guides ei ef hg_idx ;;
     let feats : Feats := [("spatial"%string, spatial)] in
     let hw' := if cpu_cache s2 then plane_size lqs else plane_size spatial in
     '(flows_forward, flows_backward) <- compute_flow N s2 guides hg_idx ;;
     flows_forward <-
       resize_flows N (batch_size lqs) (length lqs) hw' flows_forward ;;
     flows_backward <-
       resize_flows N (batch_size lqs) (length lqs) hw' (Some flows_backward) ;;
     Ok (feats, Some flows_forward, flows_backward)).
Proof.
  intros HN HK Sl Sg Hlen Ht Hn Hc Hhw Hstage Hmid Hflag.
  destruct (@spatial_features_ok N lqs guides ei ef hg_idx n c hw cf
              (mid_channels s1) HN HK Sl Sg Hlen ltac:(lia) Hn Hc Hhw Hstage)
    as (spatial & Hsp & Ls & Ss).
  rewrite (Hsp s1 eq_refl), (Hsp s2 (eq_sym Hmid)).
  cbn [bind]. cbv zeta.
  rewrite (plane_size_shaped Sl) by lia.
  rewrite (plane_size_shaped Ss) by (pose proof (ks_channels HK); lia).
  replace (if cpu_cache s1 then hw else hw) with hw
    by (destruct (cpu_cache s1); reflexivity).
  replace (if cpu_cache s2 then hw else hw) with hw
    by (destruct (cpu_cache s2); reflexivity).
  destruct (spynet_samplewise HN hg_idx) as [f Hf].
  rewrite !(@compute_flow_value N _ guides hg_idx n 3 (16 * hw) f)
    by (auto; try lia; apply (ks_flow HK)).
  rewrite Hflag.
  destruct (is_mirror_extended s2); [|reflexivity].
  destruct (cpu_cache s1), (cpu_cache s2); reflexivity.
Qed.

(** C10 (the code departs from it). On a sequence of a single frame the two
    execution modes differ: with offloading active [compute_flow] runs its
    per-pair loop zero times and raises RuntimeError at
    [torch.cat(flows_backward, dim=1)] of the empty list, so the stage fails
    before the propagation loop, whereas the batched mode calls the flow
    network once on the zero pairs, views the result as [(n, 0, 2, h, w)] and
    hands empty flows to the loop. *)
Theorem offload_flow_fails_on_single_frame :
  let lqs : Seq := [frame_a] in
  let guides : Seq := [guide_frame 0] in
  let offload :=
    fst (hg_prepare shaped_networks toy_offload_model true lqs guides
           None None 1) in
  let resident :=
    fst (hg_prepare shaped_networks toy_offload_model false lqs guides
           None None 1) in
  (cpu_cache offload = true /\ cpu_cache resident = false) /\
  (exists spatial,
     spatial_features shaped_networks offload lqs guides None None 1
     = Ok spatial /\
     spatial_features shaped_networks resident lqs guides None None 1
     = Ok spatial) /\
  compute_flow shaped_networks offload guides 1 = Raise RuntimeError /\
  compute_flow shaped_networks resident guides 1 = Ok (Some [], []) /\
  snd (hg_prepare shaped_networks toy_offload_model true lqs guides
         None None 1) = Raise RuntimeError /\
  snd (hg_prepare shaped_networks toy_offload_model false lqs guides
         None None 1) = Ok ([("spatial"%string, [frame_a])], Some [], []).
Proof.
  intros lqs guides offload resident.
  assert (Eoff : offload = set_cpu_cache toy_offload_model true)
    by reflexivity.
  assert (Eres : resident = set_cpu_cache toy_offload_model false)
    by reflexivity.
  split; [rewrite Eoff, Eres; split; reflexivity|].
  split; [exists [frame_a]; rewrite Eoff, Eres; split; reflexivity|].
  split; [rewrite Eoff; reflexivity|].
  split; [rewrite Eres; reflexivity|].
  split; reflexivity.
Qed.

(** ** The histogram error model *)

Lemma rsum_nonneg (n : nat) (f : nat -> R) :
  (forall k, (k < n)%nat -> 0 <= f k) -> 0 <= rsum n f.
Proof.
  induction n as [|n IH]; intros H; simpl; [lra|].
  pose proof (IH (fun k Hk => H k (Nat.lt_lt_succ_r _ _ Hk))).
  pose proof (H n (Nat.lt_succ_diag_r n)). lra.
Qed.

Lemma rsum_le_more (n m : nat) (f : nat -> R) :
  (n <= m)%nat -> (forall k, (k < m)%nat -> 0 <= f k) ->
  rsum n f <= rsum m f.
Proof.
  intros Hnm. induction Hnm as [|m Hnm IH]; intros H; [lra|].
  simpl. pose proof (IH (fun k Hk => H k (Nat.lt_lt_succ_r _ _ Hk))).
  pose proof (H m (Nat.lt_succ_diag_r m)). lra.
Qed.


Lemma eps_pos : 0 < eps.
Proof. unfold eps. lra. Qed.

Lemma ge0_cases (v : R) : ge0 v = 0 \/ ge0 v = 1.
Proof. unfold ge0. destruct (Rle_dec 0 v); auto. Qed.


Lemma clamp01_bounds (v : R) : 0 <= clamp01 v <= 1.
Proof.
  unfold clamp01, Rmin, Rmax.
  destruct (Rle_dec v 0); destruct (Rle_dec _ 1); lra.
Qed.


Lemma intensity_nonneg (d img : Tensor4) (b y x : nat) :
  0 <= albedo img b y x -> 0 <= intensity d img b y x.
Proof.
  intros Ha. unfold intensity.
  pose proof (clamp01_bounds (at4 d b 0 y x)) as Hc.
  pose proof eps_pos.
  apply Rmult_le_pos; [exact Ha|].
  apply Rlt_le, Rinv_0_lt_compat. unfold depth_clamped. nra.
Qed.




Lemma clamp01_zero : clamp01 0 = 0.
Proof.
  unfold clamp01, Rmin, Rmax.
  destruct (Rle_dec 0 0); destruct (Rle_dec _ 1); lra.
Qed.

Lemma round_half_even_zero : round_half_even 0 = 0.
Proof.
  unfold round_half_even. rewrite (ZfloorZ 0).
  destruct (Rlt_dec (0 - 0) (1 / 2)) as [_|H]; [reflexivity|]. exfalso. lra.
Qed.






(** ** The sentinel of missing measurements *)

Lemma rmax_const (K : nat) (f : nat -> R) (v : R) :
  (forall k, (k <= K)%nat -> f k = v) -> rmax K f = v.
Proof.
  induction K as [|K IH]; intros H; simpl.
  - apply H. lia.
  - rewrite IH by (intros; apply H; lia). rewrite (H (S K)) by lia.
    apply Rmax_left. lra.
Qed.

Lemma rmax_first (K : nat) (f : nat -> R) :
  (forall k, (k <= K)%nat -> f k <= f 0%nat) -> rmax K f = f 0%nat.
Proof.
  induction K as [|K IH]; intros H; simpl; [reflexivity|].
  rewrite IH by (intros; apply H; lia). apply Rmax_left, H. lia.
Qed.

Lemma dtof_shapes_ok_inv (pitch : nat) (d img r : Tensor4) :
  dtof_shapes_ok pitch d img r = true ->
  (0 < pitch)%nat /\ dim0 r = dim0 d /\
  (dim2 r * pitch)%nat = dim2 d /\ (dim3 r * pitch)%nat = dim3 d.
Proof.
  unfold dtof_shapes_ok. intros H.
  repeat (apply andb_prop in H; destruct H as [H ?]).
  apply Nat.ltb_lt in H.
  repeat match goal with
         | E : Nat.eqb _ _ = true |- _ => apply Nat.eqb_eq in E
         end.
  auto.
Qed.

Lemma cdf_inp_zero (cdf : Tensor4) (b py px : nat) :
  (forall m, (m < dim1 cdf)%nat -> at4 cdf b m py px = 0) ->
  (0 < dim1 cdf)%nat ->
  rmax (dim1 cdf - 1) (fun k => cdf_inp cdf b k py px) = 0.
Proof.
  intros Hz Hpos. apply rmax_const. intros k Hk. unfold cdf_inp.
  rewrite (Hz k) by lia. unfold Rdiv. apply Rmult_0_l.
Qed.

(** C8. A pixel-patch whose input CDF is zero in every bin gets the error
    value -1 before upsampling; [get_inp_error] returns normally; and every
    full-resolution pixel of that patch carries exactly -1 after the
    nearest-neighbour upsampling by [pitch]. *)
Theorem sentinel_survives_upsample
    (pitch : nat) (temp_res : Z) (cdf rebin_idx pred img : Tensor4) :
  dtof_shapes_ok pitch pred img (drop_last_dim1 rebin_idx) = true ->
  (0 < dim1 cdf)%nat ->
  dim0 cdf = dim0 rebin_idx -> dim1 cdf = dim1 rebin_idx ->
  dim2 cdf = dim2 rebin_idx -> dim3 cdf = dim3 rebin_idx ->
  exists low out,
    inp_error_lowres pitch temp_res cdf rebin_idx pred img = Ok low /\
    get_inp_error pitch temp_res cdf rebin_idx pred img = Ok out /\
    dim2 out = (dim2 low * pitch)%nat /\ dim3 out = (dim3 low * pitch)%nat /\
    forall b py px,
      (b < dim0 low)%nat -> (py < dim2 low)%nat -> (px < dim3 low)%nat ->
      (forall m, (m < dim1 cdf)%nat -> at4 cdf b m py px = 0) ->
      at4 low b 0 py px = -1 /\
      forall y x, (y / pitch)%nat = py -> (x / pitch)%nat = px ->
                  at4 out b 0 y x = -1.
Proof.
  intros Hshape Hbins E0 E1 E2 E3.
  destruct (dtof_shapes_ok_inv _ _ _ _ Hshape) as (Hp & _ & S2 & S3).
  cbn [drop_last_dim1 dim2 dim3] in S2, S3.
  unfold get_inp_error, inp_error_lowres, cdf_pred, dtof_hist_torch.
  rewrite Hshape. cbn [bind].
  match goal with
  | |- context [inp_shapes_ok cdf rebin_idx ?cp] =>
      assert (Hok : inp_shapes_ok cdf rebin_idx cp = true)
  end.
  { unfold inp_shapes_ok. cbn [dim0 dim1 dim2 dim3].
    rewrite <- S2, <- S3, !Nat.div_mul by lia.
    rewrite (proj2 (Nat.ltb_lt _ _) Hbins), E0, E1, E2, E3, !Nat.eqb_refl.
    reflexivity. }
  rewrite Hok. cbn [bind].
  do 2 eexists. split; [reflexivity|]. split; [reflexivity|].
  cbn [repeat_interleave_23 dim0 dim1 dim2 dim3 at4].
  split; [reflexivity|]. split; [reflexivity|].
  intros b py px _ _ _ Hzero. split.
  - rewrite (cdf_inp_zero cdf b py px Hzero Hbins).
    destruct (Req_dec_T 0 0) as [_|Hne]; [reflexivity|].
    exfalso. apply Hne. reflexivity.
  - intros y x Hy Hx. rewrite Hy, Hx.
    rewrite (cdf_inp_zero cdf b py px Hzero Hbins).
    destruct (Req_dec_T 0 0) as [_|Hne]; [reflexivity|].
    exfalso. apply Hne. reflexivity.
Qed.

Lemma sentinel_survives_upsample_witness :
  dtof_shapes_ok 1 zero_depth bright_guide (drop_last_dim1 toy_rebin) = true /\
  exists out,
    get_inp_error 1 2 empty_cdf toy_rebin zero_depth bright_guide = Ok out /\
    at4 out 0 0 0 0 = -1.
Proof.
  split; [reflexivity|].
  destruct (@sentinel_survives_upsample 1 2 empty_cdf toy_rebin zero_depth
              bright_guide eq_refl)
    as (low & out & Hlow & Hout & _ & _ & Hval);
    try reflexivity; [simpl; lia|].
  exists out. split; [exact Hout|].
  assert (Hd : dim0 low = 1%nat /\ dim2 low = 1%nat /\ dim3 low = 1%nat).
  { unfold inp_error_lowres, cdf_pred, dtof_hist_torch in Hlow.
    simpl in Hlow. inversion Hlow; subst. repeat split. }
  destruct Hd as (D0 & D2 & D3).
  destruct (Hval 0%nat 0%nat 0%nat) as [_ Hup]; try lia.
  - intros m _. reflexivity.
  - apply Hup; reflexivity.
Defined.

(** ** The positional encoding *)

Lemma neg_maxpool_neg_grid_y (pitch py px : nat) :
  neg_maxpool_neg pitch grid_y py px = INR (py * pitch).
Proof.
  unfold neg_maxpool_neg, grid_y.
  rewrite rmax_first.
  - rewrite rmax_const with (v := - INR (py * pitch + 0)) by reflexivity.
    rewrite Nat.add_0_r. lra.
  - intros k _.
    rewrite rmax_const with (v := - INR (py * pitch + k)) by reflexivity.
    rewrite rmax_const with (v := - INR (py * pitch + 0)) by reflexivity.
    apply Ropp_le_contravar, le_INR. lia.
Qed.

Lemma neg_maxpool_neg_grid_x (pitch py px : nat) :
  neg_maxpool_neg pitch grid_x py px = INR (px * pitch).
Proof.
  unfold neg_maxpool_neg, grid_x.
  rewrite rmax_const with (v := - INR (px * pitch + 0)).
  - rewrite Nat.add_0_r. lra.
  - intros k _. apply rmax_first. intros j _.
    apply Ropp_le_contravar, le_INR. lia.
Qed.

(** The fifth and sixth channels hold the first row and column of the
    enclosing patch, whatever the pitch. *)
Lemma patch_channels_hold_corner (pitch B T H W : nat) (pe : Tensor5)
    (b t i j : nat) :
  get_pos_encoding pitch B T H W = Ok pe ->
  at5 pe b t 4 i j = INR (i / pitch * pitch) / INR H /\
  at5 pe b t 5 i j = INR (j / pitch * pitch) / INR W /\
  at5 pe b t 2 i j = (INR i - INR (i / pitch * pitch)) / INR pitch /\
  at5 pe b t 3 i j = (INR j - INR (j / pitch * pitch)) / INR pitch.
Proof.
  unfold get_pos_encoding. destruct (pos_shapes_ok pitch H W); [|discriminate].
  intros E. inversion E; subst. cbn [at5 pos_channel].
  unfold rel_y, rel_x, patch_y, patch_x.
  rewrite !neg_maxpool_neg_grid_y, !neg_maxpool_neg_grid_x.
  unfold grid_y, grid_x. repeat split.
Qed.

(** C9 (the code departs from the claim). For a 2x2 image and pitch 2 the
    encoding has six channels, but at pixel (1,1) the patch channel holds the
    normalised first row of the patch, 0, where the patch centre is at 1/4, and
    the relative channel holds the offset from that first row, 1/2, where the
    offset from the centre is 1/4. *)
Theorem pos_encoding_patch_is_corner :
  exists pe,
    get_pos_encoding 2 1 1 2 2 = Ok pe /\
    size2 pe = 6%nat /\
    at5 pe 0 0 4 1 1 = 0 /\
    patch_center 2 1 / INR 2 = 1 / 4 /\
    at5 pe 0 0 2 1 1 = 1 / 2 /\
    (INR 1 - patch_center 2 1) / INR 2 = 1 / 4.
Proof.
  eexists. split; [reflexivity|]. split; [reflexivity|].
  destruct (@patch_channels_hold_corner 2 1 1 2 2 _ 0 0 1 1 eq_refl)
    as (H4 & _ & H2 & _).
  rewrite H4, H2. unfold patch_center.
  change (1 / 2 * 2)%nat with 0%nat. simpl INR.
  repeat split; lra.
Qed.

(** * Further properties of the modelled code *)

(** ** What [propagate] changes in the feature dictionary *)

Lemma dict_set_idem (d : Feats) (k : string) (v v' : list Batch) :
  dict_set (dict_set d k v) k v' = dict_set d k v'.
Proof.
  induction d as [|[k0 v0] d IH]; simpl.
  - rewrite String.eqb_refl. reflexivity.
  - destruct (String.eqb k0 k) eqn:E; simpl; rewrite E; [reflexivity|].
    rewrite IH. reflexivity.
Qed.

Lemma dict_set_get_same (d : Feats) (k : string) (v : list Batch) :
  dict_get d k = Ok v -> dict_set d k v = d.
Proof.
  induction d as [|[k0 v0] d IH]; simpl; [discriminate|].
  destruct (String.eqb k0 k) eqn:E.
  - intros H. inversion H. reflexivity.
  - intros H. rewrite IH by exact H. reflexivity.
Qed.

Lemma dict_set_keys (d : Feats) (k : string) (v0 v : list Batch) :
  dict_get d k = Ok v0 -> map fst (dict_set d k v) = map fst d.
Proof.
  induction d as [|[k0 w] d IH]; simpl; [discriminate|].
  destruct (String.eqb k0 k) eqn:E; simpl; [reflexivity|].
  intros H. rewrite IH by exact H. reflexivity.
Qed.

Lemma dict_set_keys_new (d : Feats) (k : string) (v : list Batch) :
  ~ In k (map fst d) -> map fst (dict_set d k v) = map fst d ++ [k].
Proof.
  induction d as [|[k0 w] d IH]; simpl; intros Hn; [reflexivity|].
  destruct (String.eqb k0 k) eqn:E.
  - apply String.eqb_eq in E. exfalso. apply Hn. left. exact E.
  - simpl. rewrite IH; [reflexivity|]. intros Hin. apply Hn. right. exact Hin.
Qed.

Lemma last_cons {A : Type} (l : list A) (a d : A) :
  last (a :: l) d = last l a.
Proof.
  destruct l as [|b l]; [reflexivity|].
  change (last (a :: b :: l) d) with (last (b :: l) d).
  apply last_cons_indep.
Qed.

(** Whatever a successful iteration computes, its only effect on the
    dictionary is to append its accumulator to the branch of [module_name]. *)
Lemma residual_append_effect (N : Networks) (m : string) (hg_idx : nat)
    (idx : Z) (feats : Feats) (fp fc : Batch) (st' : Batch * Feats) :
  residual_append N m hg_idx idx feats fp fc = Ok st' ->
  exists own,
    dict_get feats m = Ok own /\
    snd st' = dict_set feats m (own ++ [fst st']).
Proof.
  unfold residual_append.
  destruct (mapM _ _) as [others|e]; cbn [bind]; [|discriminate].
  destruct (cat_c _) as [feat|e]; cbn [bind]; [|discriminate].
  destruct (dict_get feats m) as [own|e]; cbn [bind]; [|discriminate].
  intros H. inversion H; subst. exists own. split; reflexivity.
Qed.

Lemma propagate_step_effect (N : Networks) (flows : Seq) (m : string)
    (hg_idx : nat) (flow_idx mapping_idx : list Z) (i : nat) (idx : Z)
    (st st' : Batch * Feats) :
  propagate_step N flows m hg_idx flow_idx mapping_idx i idx st = Ok st' ->
  exists own,
    dict_get (snd st) m = Ok own /\
    snd st' = dict_set (snd st) m (own ++ [fst st']).
Proof.
  destruct st as [fp feats]. unfold propagate_step.
  destruct (dict_get feats "spatial") as [sp|e]; cbn [bind]; [|discriminate].
  destruct (py_index mapping_idx idx) as [mi|e]; cbn [bind]; [|discriminate].
  destruct (py_index sp mi) as [fc|e]; cbn [bind]; [|discriminate].
  destruct (if Nat.ltb 0 i then _ else _) as [fp'|e]; cbn [bind];
    [|discriminate].
  apply residual_append_effect.
Qed.

Lemma propagate_loop_effect (N : Networks) (flows : Seq) (m : string)
    (hg_idx : nat) (flow_idx mapping_idx : list Z) (its : list (nat * Z)) :
  forall (st : Batch * Feats) (trace : list (Batch * Feats))
         (own0 : list Batch),
    propagate_loop N flows m hg_idx flow_idx mapping_idx its st = Ok trace ->
    dict_get (snd st) m = Ok own0 ->
    length trace = length its /\
    snd (last trace st) = dict_set (snd st) m (own0 ++ map fst trace).
Proof.
  induction its as [|[i idx] its IH]; intros st trace own0 Hrun Hown.
  - simpl in Hrun. inversion Hrun; subst. split; [reflexivity|].
    simpl. rewrite app_nil_r. symmetry. apply dict_set_get_same, Hown.
  - cbn [propagate_loop] in Hrun.
    destruct (propagate_step _ _ _ _ _ _ _ _ _) as [st'|e] eqn:Hstep;
      cbn [bind] in Hrun; [|discriminate].
    destruct (propagate_loop _ _ _ _ _ _ _ _) as [tr|e] eqn:Hrest;
      cbn [bind] in Hrun; [|discriminate].
    inversion Hrun; subst.
    destruct (propagate_step_effect _ _ _ _ _ _ _ _ _ Hstep)
      as (own & Hown' & Hsnd).
    rewrite Hown in Hown'. inversion Hown'; subst own.
    assert (Hnext : dict_get (snd st') m = Ok (own0 ++ [fst st'])).
    { rewrite Hsnd. apply dict_get_set_same. }
    destruct (IH st' tr _ Hrest Hnext) as [Hlen Hlast].
    split; [simpl; lia|].
    rewrite last_cons, Hlast, Hsnd, dict_set_idem, <- app_assoc.
    reflexivity.
Qed.

(** The whole of [propagate], seen from the dictionary. *)
Lemma propagate_effect (N : Networks) (self : DVSR) (flows : Seq)
    (m : string) (hg_idx : nat) (feats feats' : Feats) :
  propagate N self flows m hg_idx feats = Ok feats' ->
  exists trace own0,
    propagate_trace N self flows m hg_idx feats = Ok trace /\
    length trace = S (length flows) /\
    dict_get feats m = Ok own0 /\
    feats' = dict_set feats m
               (if is_backward m then rev (own0 ++ map fst trace)
                else own0 ++ map fst trace).
Proof.
  unfold propagate.
  destruct (propagate_trace N self flows m hg_idx feats) as [trace|e] eqn:Htr;
    cbn [bind]; [|discriminate].
  intros Hres. exists trace.
  unfold propagate_trace in Htr.
  destruct (mapping_indices feats) as [mi|e]; cbn [bind] in Htr;
    [|discriminate].
  set (st0 := (new_zeros (batch_size flows) (mid_channels self)
                 (plane_size flows), feats)) in *.
  assert (Hown0 : exists own0, dict_get feats m = Ok own0).
  { pose proof (frame_indices_length flows m) as Hfl.
    unfold enumerate in Htr.
    destruct (frame_indices flows m) as [|idx0 rest]; [discriminate|].
    simpl enumerate_from in Htr. cbn [propagate_loop] in Htr.
    destruct (propagate_step _ _ _ _ _ _ _ _ _) as [st'|e] eqn:Hstep;
      cbn [bind] in Htr; [|discriminate].
    destruct (propagate_step_effect _ _ _ _ _ _ _ _ _ Hstep) as (own & H & _).
    exists own. exact H. }
  destruct Hown0 as [own0 Hown0]. exists own0.
  destruct (propagate_loop_effect _ _ _ _ _ _ _ st0 Htr Hown0) as [Hlen Hlast].
  unfold enumerate in Hlen.
  rewrite enumerate_from_length, frame_indices_length in Hlen.
  split; [reflexivity|]. split; [exact Hlen|]. split; [exact Hown0|].
  pose proof (last_map_snd trace st0) as Hl.
  rewrite Hlast in Hl. unfold st0 in Hl. cbn [snd] in Hl.
  rewrite Hl in Hres.
  destruct (is_backward m).
  - rewrite dict_get_set_same in Hres. cbn [bind] in Hres.
    rewrite dict_set_idem in Hres. inversion Hres. reflexivity.
  - inversion Hres. reflexivity.
Qed.

(** X2. A successful [propagate] keeps the keys of the dictionary and their
    order, and leaves every entry other than its own branch, the spatial
    features included, exactly as it found it. *)
Theorem propagate_touches_own_branch_only
    (N : Networks) (self : DVSR) (flows : Seq) (module_name : string)
    (hg_idx : nat) (feats feats' : Feats) :
  propagate N self flows module_name hg_idx feats = Ok feats' ->
  map fst feats' = map fst feats /\
  forall k, k <> module_name -> dict_get feats' k = dict_get feats k.
Proof.
  intros H.
  destruct (propagate_effect _ _ _ _ _ _ H) as (trace & own0 & _ & _ & Hown & ->).
  split.
  - apply (@dict_set_keys _ _ own0 _ Hown).
  - intros k Hk. apply dict_get_set_other. exact Hk.
Qed.

Lemma propagate_touches_own_branch_only_witness :
  exists feats',
    propagate toy_networks toy_model toy_flows "backward_1" 1 toy_feats
    = Ok feats' /\
    map fst feats' = map fst toy_feats /\
    dict_get feats' "spatial" = Ok plain_pair.
Proof.
  assert (H : exists f,
             propagate toy_networks toy_model toy_flows "backward_1" 1
               toy_feats = Ok f) by (eexists; run_model).
  destruct H as [f Hf]. exists f. split; [exact Hf|].
  destruct (@propagate_touches_own_branch_only toy_networks toy_model
              toy_flows "backward_1" 1 toy_feats f Hf) as [Hk Ho].
  split; [exact Hk|]. rewrite Ho by discriminate. reflexivity.
Defined.

(** X3. Whatever the direction, the branch that [propagate] returns is in
    frame order: the frame stored at position [idx] is the accumulator of the
    iteration that processed frame [idx]; the branch has one frame per
    iteration, T in all. *)
Theorem propagate_branch_in_frame_order
    (N : Networks) (self : DVSR) (flows : Seq) (module_name : string)
    (hg_idx : nat) (feats feats' : Feats) :
  propagate N self flows module_name hg_idx feats = Ok feats' ->
  dict_get feats module_name = Ok [] ->
  exists trace out,
    propagate_trace N self flows module_name hg_idx feats = Ok trace /\
    dict_get feats' module_name = Ok out /\
    length out = S (length flows) /\
    forall i idx,
      nth_error (frame_indices flows module_name) i = Some idx ->
      nth_error out (Z.to_nat idx) = option_map fst (nth_error trace i).
Proof.
  intros H Hempty.
  destruct (propagate_effect _ _ _ _ _ _ H)
    as (trace & own0 & Htr & Hlen & Hown & ->).
  rewrite Hempty in Hown. inversion Hown; subst own0. cbn [app].
  exists trace. eexists. split; [exact Htr|].
  split; [apply dict_get_set_same|].
  assert (Hmap : length (map fst trace) = S (length flows))
    by (rewrite length_map; exact Hlen).
  unfold frame_indices.
  destruct (is_backward module_name).
  - split; [rewrite length_rev; exact Hmap|].
    intros i idx Hi.
    assert (Hlt : (i < S (length flows))%nat).
    { assert (Hne : nth_error
                      (rev (py_range 0 (Z.of_nat (length flows) + 1))) i
                    <> None) by (rewrite Hi; discriminate).
      apply nth_error_Some in Hne.
      rewrite length_rev, py_range_length in Hne. lia. }
    rewrite nth_error_rev, py_range_length in Hi.
    replace (Nat.ltb i (Z.to_nat (Z.of_nat (length flows) + 1 - 0))) with true
      in Hi by (symmetry; apply Nat.ltb_lt; lia).
    rewrite py_range_nth in Hi by lia. inversion Hi; subst idx.
    match goal with
    | |- context [Z.to_nat ?z] =>
        replace (Z.to_nat z) with (length flows - i)%nat by lia
    end.
    rewrite nth_error_rev, Hmap.
    replace (Nat.ltb (length flows - i) (S (length flows))) with true
      by (symmetry; apply Nat.ltb_lt; lia).
    replace (S (length flows) - S (length flows - i))%nat with i by lia.
    apply nth_error_map.
  - split; [exact Hmap|].
    intros i idx Hi.
    assert (Hlt : (i < S (length flows))%nat).
    { assert (Hne : nth_error (py_range 0 (Z.of_nat (length flows) + 1)) i
                    <> None) by (rewrite Hi; discriminate).
      apply nth_error_Some in Hne. rewrite py_range_length in Hne. lia. }
    rewrite py_range_nth in Hi by lia. inversion Hi; subst idx.
    match goal with
    | |- context [Z.to_nat ?z] => replace (Z.to_nat z) with i by lia
    end.
    apply nth_error_map.
Qed.

Lemma propagate_branch_in_frame_order_witness :
  exists feats' out,
    propagate toy_networks toy_model toy_flows "backward_1" 1 toy_feats
    = Ok feats' /\
    dict_get toy_feats "backward_1" = Ok [] /\
    dict_get feats' "backward_1" = Ok out /\
    length out = 2%nat.
Proof.
  assert (H : exists f,
             propagate toy_networks toy_model toy_flows "backward_1" 1
               toy_feats = Ok f) by (eexists; run_model).
  destruct H as [f Hf].
  destruct (@propagate_branch_in_frame_order toy_networks toy_model
              toy_flows "backward_1" 1 toy_feats f Hf eq_refl)
    as (trace & out & _ & Hout & Hlen & _).
  exists f, out. repeat split; assumption.
Defined.

(** X4. At every aligning step [i >= 1] of either direction, the flow field
    that [propagate] reads is the one between the frame being processed and
    the frame processed just before it: consecutive frame indices differ by
    one and [flow_idx[i]] is the smaller of the two. *)
Theorem flow_joins_consecutive_frames
    (flows : Seq) (module_name : string) (i : nat) :
  (1 <= i <= length flows)%nat ->
  exists cur prev fi,
    py_index (frame_indices flows module_name) (Z.of_nat i) = Ok cur /\
    py_index (frame_indices flows module_name) (Z.of_nat (i - 1)) = Ok prev /\
    py_index (flow_indices flows module_name) (Z.of_nat i) = Ok fi /\
    fi = Z.min cur prev /\
    (cur - prev = if is_backward module_name then -1 else 1)%Z.
Proof.
  intros Hi. unfold flow_indices, frame_indices.
  destruct (is_backward module_name).
  - rewrite !py_index_rev_range by lia.
    do 3 eexists. repeat split; lia.
  - rewrite !py_index_range by lia.
    do 3 eexists. repeat split; lia.
Qed.

Lemma flow_joins_consecutive_frames_witness :
  (1 <= 1 <= length toy_flows)%nat /\
  exists cur prev,
    py_index (frame_indices toy_flows "backward_1") 1 = Ok cur /\
    py_index (frame_indices toy_flows "backward_1") 0 = Ok prev /\
    py_index (flow_indices toy_flows "backward_1") 1 = Ok (Z.min cur prev).
Proof.
  assert (H : (1 <= 1 <= length toy_flows)%nat) by (simpl; lia).
  split; [exact H|].
  destruct (@flow_joins_consecutive_frames toy_flows "backward_1" 1 H)
    as (cur & prev & fi & H1 & H2 & H3 & -> & _).
  exists cur, prev. repeat split; assumption.
Defined.

(** ** upsample *)

Lemma dict_get_In (d : Feats) (k : string) (v : list Batch) :
  dict_get d k = Ok v -> In (k, v) d.
Proof.
  induction d as [|[k0 v0] d IH]; simpl; [discriminate|].
  destruct (String.eqb k0 k) eqn:E.
  - apply String.eqb_eq in E. intros H. inversion H; subst. left. reflexivity.
  - intros H. right. apply IH, H.
Qed.

Lemma pop_heads_ok (n T r : nat) (feats : Feats) :
  upsample_inv n T (S r) feats ->
  exists hs feats',
    pop_heads feats = Ok (hs, feats') /\
    Forall (batch_of n) hs /\
    upsample_inv n T r feats' /\
    dict_get feats' "spatial" = dict_get feats "spatial".
Proof.
  unfold upsample_inv.
  induction 1 as [|[k l] feats [Hb Hl] _ (hs & feats' & Hpop & Hhs & Hinv & Hsp)];
    cbn [fst snd] in *.
  - exists [], []. repeat split; constructor.
  - cbn [pop_heads]. destruct (String.eqb k "spatial") eqn:E.
    + rewrite Hpop. cbn [bind].
      exists hs, ((k, l) :: feats'). split; [reflexivity|].
      split; [exact Hhs|]. split.
      * constructor; [|exact Hinv]. cbn [fst snd]. rewrite E. auto.
      * simpl. rewrite E. reflexivity.
    + destruct l as [|h l']; [discriminate|].
      rewrite Hpop. cbn [bind].
      inversion Hb as [|? ? Hh Hb']; subst.
      exists (h :: hs), ((k, l') :: feats'). split; [reflexivity|].
      split; [constructor; assumption|]. split.
      * constructor; [|exact Hinv]. cbn [fst snd]. rewrite E.
        split; [exact Hb'|]. simpl in Hl. lia.
      * simpl. rewrite E. exact Hsp.
Qed.

Lemma upsample_step_ok (N : Networks) (lqs : Seq) (hg_idx n T r i : nat)
    (spatial : list Batch) (feats : Feats) :
  keeps_batch N -> (1 <= n)%nat ->
  upsample_inv n T (S r) feats ->
  dict_get feats "spatial" = Ok spatial ->
  length spatial = T ->
  (i < T)%nat -> (i < length lqs)%nat ->
  exists depth conf fused feats',
    upsample_step N lqs hg_idx
      (py_range 0 (Z.of_nat T) ++ rev (py_range 0 (Z.of_nat T))) i feats
    = Ok (depth, conf, fused, feats') /\
    upsample_inv n T r feats' /\
    dict_get feats' "spatial" = Ok spatial.
Proof.
  intros HK Hn Hinv Hsp Hlen Hi Hlq.
  assert (Hspb : Forall (batch_of n) spatial).
  { apply dict_get_In in Hsp. unfold upsample_inv in Hinv.
    rewrite Forall_forall in Hinv. apply (Hinv _ Hsp). }
  destruct (pop_heads_ok Hinv) as (hs & feats' & Hpop & Hhs & Hinv' & Hsp').
  unfold upsample_step. rewrite Hpop. cbn [bind].
  rewrite Hsp', Hsp. cbn [bind].
  rewrite mapping_index_id by lia. cbn [bind].
  destruct (@py_index_nonneg _ spatial (Z.of_nat i) ltac:(lia))
    as (sp & Hspi & _).
  rewrite Hspi. cbn [bind].
  destruct (@cat_c_ok n (sp :: hs)) as (hr & Hhr & Hhrb); [discriminate| |].
  { constructor; [|exact Hhs].
    eapply py_index_Forall; [exact Hspb|exact Hspi]. }
  rewrite Hhr. cbn [bind].
  unfold chunk2_c.
  destruct (Nat.eqb (channels
              (final_pred N hg_idx (reconstruction N hg_idx hr))) 1) eqn:E.
  { apply Nat.eqb_eq in E. exfalso.
    pose proof (kb_final_pred HK hg_idx (reconstruction N hg_idx hr)) as Hc.
    rewrite (kb_reconstruction HK) in Hc. unfold batch_of in Hhrb.
    specialize (Hc ltac:(lia)). lia. }
  cbn [bind].
  destruct (@py_index_nonneg _ lqs (Z.of_nat i) ltac:(lia)) as (lq & Hlqi & _).
  rewrite Hlqi. cbn [bind].
  do 4 eexists. split; [reflexivity|].
  split; [exact Hinv'|]. rewrite Hsp'. exact Hsp.
Qed.

Lemma upsample_loop_ok (N : Networks) (lqs : Seq) (hg_idx n T : nat)
    (spatial : list Batch) (r : nat) :
  keeps_batch N -> (1 <= n)%nat ->
  length spatial = T ->
  forall (i0 : nat) (feats : Feats),
    upsample_inv n T r feats ->
    dict_get feats "spatial" = Ok spatial ->
    (i0 + r <= T)%nat -> (i0 + r <= length lqs)%nat ->
    exists depths confs fused,
      upsample_loop N lqs hg_idx
        (py_range 0 (Z.of_nat T) ++ rev (py_range 0 (Z.of_nat T)))
        (seq i0 r) feats = Ok (depths, confs, fused) /\
      length depths = r /\ length confs = r /\ length fused = r.
Proof.
  intros HK Hn Hlen. induction r as [|r IH]; intros i0 feats Hinv Hsp HT Hlq.
  - exists [], [], []. repeat split.
  - cbn [seq upsample_loop].
    destruct (@upsample_step_ok N lqs hg_idx n T r i0 spatial feats
                HK Hn Hinv Hsp Hlen ltac:(lia) ltac:(lia))
      as (d & c & f & feats' & Hstep & Hinv' & Hsp').
    rewrite Hstep. cbn [bind].
    destruct (IH (S i0) feats' Hinv' Hsp' ltac:(lia) ltac:(lia))
      as (ds & cs & fs & Hloop & L1 & L2 & L3).
    rewrite Hloop. cbn [bind].
    exists (d :: ds), (c :: cs), (f :: fs).
    split; [reflexivity|]. simpl. repeat split; lia.
Qed.

(** [upsample] on a complete dictionary. *)
Lemma upsample_frames
    (N : Networks) (lqs : Seq) (hg_idx n : nat) (feats : Feats) :
  keeps_batch N -> (1 <= n)%nat ->
  stage_ok n (length lqs) feats ->
  (1 <= length lqs)%nat ->
  exists depth conf fused,
    upsample N lqs hg_idx feats = Ok (depth, conf, fused) /\
    length depth = length lqs /\
    length conf = length lqs /\
    length fused = length lqs.
Proof.
  intros HK Hn [[spatial Hsp] Hall] HT.
  assert (Hlen : length spatial = length lqs).
  { apply dict_get_In in Hsp. rewrite Forall_forall in Hall.
    apply (Hall _ Hsp). }
  assert (Hinv : upsample_inv n (length lqs) (length lqs) feats).
  { unfold upsample_inv. eapply Forall_impl; [|exact Hall].
    intros [k l] [Hl Hb]. cbn [fst snd] in *. split; [exact Hb|].
    destruct (String.eqb k "spatial"); exact Hl. }
  unfold upsample. rewrite Hsp. cbn [bind]. rewrite Hlen.
  destruct (@upsample_loop_ok N lqs hg_idx n (length lqs) spatial (length lqs)
              HK Hn Hlen 0%nat feats Hinv Hsp ltac:(lia) ltac:(lia))
    as (ds & cs & fs & Hloop & L1 & L2 & L3).
  rewrite Hloop. cbn [bind].
  destruct ds as [|d ds]; [simpl in L1; lia|].
  destruct cs as [|c cs]; [simpl in L2; lia|].
  destruct fs as [|f fs]; [simpl in L3; lia|].
  cbn [cat_time bind].
  do 3 eexists. split; [reflexivity|]. repeat split; assumption.
Qed.

(** X5. Given the spatial features and branches of all T >= 1 frames, each
    of n >= 1 samples, with operators that keep the batch size and a
    prediction head of at least two channels, [upsample] returns depth,
    confidence and fused features with exactly one frame per input frame.
    (Sizes other than the batch size are left to the operators.) *)
Theorem upsample_one_frame_per_input
    (N : Networks) (lqs : Seq) (hg_idx n : nat) (feats : Feats) :
  keeps_batch N -> (1 <= n)%nat ->
  stage_ok n (length lqs) feats ->
  (1 <= length lqs)%nat ->
  exists depth conf fused,
    upsample N lqs hg_idx feats = Ok (depth, conf, fused) /\
    length depth = length lqs /\
    length conf = length lqs /\
    length fused = length lqs.
Proof.
  intros HK Hn [[spatial Hsp] Hall] HT.
  assert (Hlen : length spatial = length lqs).
  { apply dict_get_In in Hsp. rewrite Forall_forall in Hall.
    apply (Hall _ Hsp). }
  assert (Hinv : upsample_inv n (length lqs) (length lqs) feats).
  { unfold upsample_inv. eapply Forall_impl; [|exact Hall].
    intros [k l] [Hl Hb]. cbn [fst snd] in *. split; [exact Hb|].
    destruct (String.eqb k "spatial"); exact Hl. }
  unfold upsample. rewrite Hsp. cbn [bind]. rewrite Hlen.
  destruct (@upsample_loop_ok N lqs hg_idx n (length lqs) spatial (length lqs)
              HK Hn Hlen 0%nat feats Hinv Hsp ltac:(lia) ltac:(lia))
    as (ds & cs & fs & Hloop & L1 & L2 & L3).
  rewrite Hloop. cbn [bind].
  destruct ds as [|d ds]; [simpl in L1; lia|].
  destruct cs as [|c cs]; [simpl in L2; lia|].
  destruct fs as [|f fs]; [simpl in L3; lia|].
  cbn [cat_time bind].
  do 3 eexists. split; [reflexivity|]. repeat split; assumption.
Qed.

Lemma keeps_batch_two_channel : keeps_batch two_channel_networks.
Proof.
  constructor.
  - reflexivity.
  - intros. simpl. apply length_map.
  - intros. simpl. apply length_map.
  - reflexivity.
  - reflexivity.
  - intros hg [|s a] Ha; simpl in *; lia.
Qed.

Lemma upsample_one_frame_per_input_witness :
  stage_ok 1 (length plain_pair) toy_stage_feats /\
  exists depth conf fused,
    upsample two_channel_networks plain_pair 1 toy_stage_feats
    = Ok (depth, conf, fused) /\
    length depth = 2%nat.
Proof.
  assert (Hok : stage_ok 1 (length plain_pair) toy_stage_feats).
  { split; [exists plain_pair; reflexivity|].
    repeat constructor. }
  split; [exact Hok|].
  destruct (@upsample_one_frame_per_input two_channel_networks plain_pair 1 1
              toy_stage_feats keeps_batch_two_channel ltac:(lia) Hok)
    as (d & c & f & Hup & Hd & _); [simpl; lia|].
  exists d, c, f. split; [exact Hup|exact Hd].
Defined.

Lemma pop_heads_shrinks (feats : Feats) :
  forall (hs : list Batch) (feats' : Feats) (k : string) (l : list Batch),
    pop_heads feats = Ok (hs, feats') ->
    In (k, l) feats -> k <> "spatial"%string ->
    exists h l', l = h :: l' /\ In (k, l') feats'.
Proof.
  induction feats as [|[k0 l0] feats IH]; intros hs feats' k l Hpop Hin Hk;
    [contradiction|].
  cbn [pop_heads] in Hpop.
  destruct (String.eqb k0 "spatial") eqn:E.
  - destruct (pop_heads feats) as [[hs0 rest]|e]; cbn [bind] in Hpop;
      [|discriminate].
    inversion Hpop; subst. destruct Hin as [Heq|Hin].
    + inversion Heq; subst. apply String.eqb_eq in E. contradiction.
    + destruct (IH _ _ _ _ eq_refl Hin Hk) as (h & l' & -> & Hin').
      exists h, l'. split; [reflexivity|]. right. exact Hin'.
  - destruct l0 as [|h0 l0']; [discriminate|].
    destruct (pop_heads feats) as [[hs0 rest]|e]; cbn [bind] in Hpop;
      [|discriminate].
    inversion Hpop; subst. destruct Hin as [Heq|Hin].
    + inversion Heq; subst. exists h0, l0'. split; [reflexivity|].
      left. reflexivity.
    + destruct (IH _ _ _ _ eq_refl Hin Hk) as (h & l' & -> & Hin').
      exists h, l'. split; [reflexivity|]. right. exact Hin'.
Qed.

Lemma upsample_step_pops (N : Networks) (lqs : Seq) (hg_idx : nat)
    (mapping_idx : list Z) (i : nat) (feats feats' : Feats)
    (d c f : Batch) :
  upsample_step N lqs hg_idx mapping_idx i feats = Ok (d, c, f, feats') ->
  exists hs, pop_heads feats = Ok (hs, feats').
Proof.
  unfold upsample_step.
  destruct (pop_heads feats) as [[hs feats1]|e]; cbn [bind]; [|discriminate].
  destruct (dict_get feats1 "spatial") as [sp|e]; cbn [bind]; [|discriminate].
  destruct (py_index mapping_idx _) as [m|e]; cbn [bind]; [|discriminate].
  destruct (py_index sp m) as [s|e]; cbn [bind]; [|discriminate].
  destruct (cat_c _) as [hr|e]; cbn [bind]; [|discriminate].
  destruct (chunk2_c _) as [[depth conf]|e]; cbn [bind]; [|discriminate].
  destruct (py_index lqs _) as [lq|e]; cbn [bind]; [|discriminate].
  intros H. inversion H; subst. exists hs. reflexivity.
Qed.

Lemma upsample_loop_short (N : Networks) (lqs : Seq) (hg_idx : nat)
    (mapping_idx : list Z) (r : nat) :
  forall (i0 : nat) (feats : Feats) (k : string) (l : list Batch),
    In (k, l) feats -> k <> "spatial"%string -> (length l < r)%nat ->
    exists e,
      upsample_loop N lqs hg_idx mapping_idx (seq i0 r) feats = Raise e.
Proof.
  induction r as [|r IH]; intros i0 feats k l Hin Hk Hlen; [lia|].
  cbn [seq upsample_loop].
  destruct (upsample_step N lqs hg_idx mapping_idx i0 feats)
    as [[[[d c] f] feats']|e] eqn:Hstep; cbn [bind]; [|eauto].
  destruct (upsample_step_pops _ _ _ _ _ _ Hstep) as [hs Hpop].
  destruct (@pop_heads_shrinks feats hs feats' k l Hpop Hin Hk)
    as (h & l' & -> & Hin').
  destruct (IH (S i0) feats' k l' Hin' Hk ltac:(simpl in Hlen; lia))
    as [e He].
  rewrite He. cbn [bind]. eauto.
Qed.

(** X6. [upsample] pops one frame from every branch per input frame: when
    some branch holds fewer frames than the sequence, the call ends in an
    exception instead of returning a shorter output. *)
Theorem upsample_short_branch_raises
    (N : Networks) (lqs : Seq) (hg_idx : nat) (feats : Feats)
    (k : string) (l : list Batch) :
  In (k, l) feats -> k <> "spatial"%string ->
  (length l < length lqs)%nat ->
  exists e, upsample N lqs hg_idx feats = Raise e.
Proof.
  intros Hin Hk Hlen. unfold upsample.
  destruct (dict_get feats "spatial") as [spatial|e]; cbn [bind]; [|eauto].
  destruct (@upsample_loop_short N lqs hg_idx
              (py_range 0 (Z.of_nat (length spatial))
               ++ rev (py_range 0 (Z.of_nat (length spatial))))
              (length lqs) 0%nat feats k l Hin Hk Hlen) as [e He].
  rewrite He. cbn [bind]. eauto.
Qed.

Lemma upsample_short_branch_raises_witness :
  In ("backward_1"%string, [frame_a]) toy_short_feats /\
  upsample two_channel_networks plain_pair 1 toy_short_feats
  = Raise IndexError.
Proof.
  assert (Hin : In ("backward_1"%string, [frame_a]) toy_short_feats)
    by (right; left; reflexivity).
  split; [exact Hin|].
  destruct (@upsample_short_branch_raises two_channel_networks plain_pair 1
              toy_short_feats "backward_1" [frame_a] Hin)
    as [e He]; [discriminate|simpl; lia|].
  rewrite He. f_equal.
  assert (Hrun : upsample two_channel_networks plain_pair 1 toy_short_feats
                 = Raise IndexError) by run_model.
  congruence.
Defined.

(** ** The four passes of a stage *)

Lemma propagate_keys (N : Networks) (self : DVSR) (flows : Seq) (m : string)
    (hg_idx : nat) (feats feats' : Feats) :
  propagate N self flows m hg_idx feats = Ok feats' ->
  map fst feats' = map fst feats /\
  forall k, k <> m -> dict_get feats' k = dict_get feats k.
Proof.
  intros H.
  destruct (propagate_effect _ _ _ _ _ _ H) as (trace & own0 & _ & _ & Hown & ->).
  split.
  - apply (@dict_set_keys _ _ own0 _ Hown).
  - intros k Hk. apply dict_get_set_other. exact Hk.
Qed.

Lemma propagate_branch_keys (N : Networks) (self : DVSR) (flows : Seq)
    (m : string) (hg_idx : nat) (feats feats' : Feats) (sp : list Batch) :
  ~ In m (map fst feats) -> m <> "spatial"%string ->
  dict_get feats "spatial" = Ok sp ->
  propagate N self flows m hg_idx (dict_set feats m []) = Ok feats' ->
  map fst feats' = map fst feats ++ [m] /\
  dict_get feats' "spatial" = Ok sp.
Proof.
  intros Hnew Hm Hsp H.
  destruct (propagate_keys _ _ _ _ _ _ H) as [Hk Ho]. split.
  - rewrite Hk. apply dict_set_keys_new, Hnew.
  - rewrite Ho by congruence. rewrite dict_get_set_other by congruence.
    exact Hsp.
Qed.

(** X7. The loop of [hg_forward] over the two iterations and two directions
    leaves the dictionary with the spatial features, untouched, followed by
    the four branches in the order in which they were processed:
    backward_1, forward_1, backward_2, forward_2. *)
Theorem branches_in_processing_order
    (N : Networks) (self : DVSR) (hg_idx : nat) (flows_forward : option Seq)
    (flows_backward : Seq) (spatial : list Batch) (feats' : Feats) :
  propagate_all N self hg_idx flows_forward flows_backward branches
    [("spatial"%string, spatial)] = Ok feats' ->
  map fst feats'
  = ["spatial"; "backward_1"; "forward_1"; "backward_2"; "forward_2"]%string
  /\ dict_get feats' "spatial" = Ok spatial.
Proof.
  unfold branches. cbn [propagate_all fst]. cbv zeta.
  change (module_of ("backward", "1")%string) with "backward_1"%string.
  change (module_of ("forward", "1")%string) with "forward_1"%string.
  change (module_of ("backward", "2")%string) with "backward_2"%string.
  change (module_of ("forward", "2")%string) with "forward_2"%string.
  intros H.
  destruct (propagate N self _ "backward_1" _ _) as [f1|e] eqn:H1;
    cbn [bind] in H; [|discriminate].
  assert (N1 : ~ In "backward_1"%string
                 (map fst [("spatial"%string, spatial)]))
    by (simpl; intros [E|[]]; discriminate).
  destruct (@propagate_branch_keys _ _ _ _ _ _ _ _ N1
              (fun E => ltac:(discriminate E)) eq_refl H1) as [K1 S1].
  destruct (propagate N self _ "forward_1" _ _) as [f2|e] eqn:H2;
    cbn [bind] in H; [|discriminate].
  assert (N2 : ~ In "forward_1"%string (map fst f1))
    by (rewrite K1; simpl; intros [E|[E|[]]]; discriminate).
  destruct (@propagate_branch_keys _ _ _ _ _ _ _ _ N2
              (fun E => ltac:(discriminate E)) S1 H2) as [K2 S2].
  destruct (propagate N self _ "backward_2" _ _) as [f3|e] eqn:H3;
    cbn [bind] in H; [|discriminate].
  assert (N3 : ~ In "backward_2"%string (map fst f2))
    by (rewrite K2, K1; simpl; intros [E|[E|[E|[]]]]; discriminate).
  destruct (@propagate_branch_keys _ _ _ _ _ _ _ _ N3
              (fun E => ltac:(discriminate E)) S2 H3) as [K3 S3].
  destruct (propagate N self _ "forward_2" _ _) as [f4|e] eqn:H4;
    cbn [bind] in H; [|discriminate].
  assert (N4 : ~ In "forward_2"%string (map fst f3))
    by (rewrite K3, K2, K1; simpl; intros [E|[E|[E|[E|[]]]]]; discriminate).
  destruct (@propagate_branch_keys _ _ _ _ _ _ _ _ N4
              (fun E => ltac:(discriminate E)) S3 H4) as [K4 S4].
  inversion H; subst feats'.
  split; [rewrite K4, K3, K2, K1; reflexivity|exact S4].
Qed.

Lemma branches_in_processing_order_witness :
  exists feats',
    propagate_all toy_networks toy_model 1 (Some toy_flows) toy_flows branches
      [("spatial"%string, plain_pair)] = Ok feats' /\
    map fst feats'
    = ["spatial"; "backward_1"; "forward_1"; "backward_2"; "forward_2"]%string.
Proof.
  assert (H : exists f,
             propagate_all toy_networks toy_model 1 (Some toy_flows) toy_flows
               branches [("spatial"%string, plain_pair)] = Ok f)
    by (eexists; run_model).
  destruct H as [f Hf]. exists f. split; [exact Hf|].
  apply (@branches_in_processing_order toy_networks toy_model 1
           (Some toy_flows) toy_flows plain_pair f Hf).
Defined.

(** ** The blend as a convex combination *)

Lemma weight_order (a b : R) :
  a <= b <-> weight_first a b <= weight_second a b.
Proof.
  unfold weight_first, weight_second.
  pose proof (exp_pos a) as Ha. pose proof (exp_pos b) as Hb.
  assert (Hd : 0 < / (exp a + exp b)) by (apply Rinv_0_lt_compat; lra).
  unfold Rdiv. split.
  - intros [Hlt|Heq].
    + apply exp_increasing in Hlt. apply Rmult_le_compat_r; lra.
    + subst. lra.
  - intros H. apply Rmult_le_reg_r in H; [|exact Hd].
    destruct (Rle_or_lt a b) as [Hab|Hab]; [exact Hab|].
    apply exp_increasing in Hab. lra.
Qed.

Lemma convex_between (u v w1 w2 : R) :
  w1 + w2 = 1 -> 0 <= w1 -> 0 <= w2 ->
  Rmin u v <= u * w2 + v * w1 <= Rmax u v.
Proof.
  intros Hs H1 H2.
  replace w2 with (1 - w1) by lra.
  unfold Rmin, Rmax. destruct (Rle_dec u v) as [Huv|Huv]; split; nra.
Qed.

(** Every pixel of the blend, from the raw confidences. *)
Lemma blend_pixels (n hw : nat) (rd rc dd dc : Seq) :
  (1 <= n)%nat -> (1 <= length rc)%nat ->
  shaped_seq n 1 hw rc -> shaped_seq n 1 hw dc ->
  shaped_seq n 1 hw rd -> shaped_seq n 1 hw dd ->
  length rd = length rc -> length dd = length rc -> length dc = length rc ->
  exists out im,
    blend rd rc dd dc = Ok (out, im) /\
    forall t b p, (t < length rc)%nat -> (b < n)%nat -> (p < hw)%nat ->
      pixel (rgb_conf im) t b 0 p
      = weight_first (pixel rc t b 0 p) (pixel dc t b 0 p) /\
      pixel (d_conf im) t b 0 p
      = weight_second (pixel rc t b 0 p) (pixel dc t b 0 p) /\
      pixel out t b 0 p
      = pixel dd t b 0 p
        * weight_second (pixel rc t b 0 p) (pixel dc t b 0 p)
        + pixel rd t b 0 p
          * weight_first (pixel rc t b 0 p) (pixel dc t b 0 p).
Proof.
  intros Hn Ht Hrc Hdc Hrd Hdd Lrd Ldd Ldc.
  rewrite (@blend_closed_form n hw rd rc dd dc) by (auto; congruence).
  do 2 eexists. split; [reflexivity|].
  intros t b p Htr Hb Hp. cbn [rgb_conf d_conf].
  assert (Hw1 : pixel (map_seq2 weight_first rc dc) t b 0 p
                = weight_first (pixel rc t b 0 p) (pixel dc t b 0 p)).
  { apply (@pixel_map_seq2 _ n 1%nat hw); auto; lia. }
  assert (Hw2 : pixel (map_seq2 weight_second rc dc) t b 0 p
                = weight_second (pixel rc t b 0 p) (pixel dc t b 0 p)).
  { apply (@pixel_map_seq2 _ n 1%nat hw); auto; lia. }
  split; [exact Hw1|]. split; [exact Hw2|].
  assert (Lw1 : length (map_seq2 weight_first rc dc) = length rc)
    by (apply map_seq2_length; congruence).
  assert (Lw2 : length (map_seq2 weight_second rc dc) = length rc)
    by (apply map_seq2_length; congruence).
  rewrite (@pixel_map_seq2 Rplus n 1%nat hw); auto.
  - rewrite (@pixel_map_seq2 Rmult n 1%nat hw dd); auto; try lia.
    + rewrite (@pixel_map_seq2 Rmult n 1%nat hw rd); auto; try lia.
      * rewrite Hw1, Hw2. reflexivity.
      * apply map_seq2_shaped; assumption.
    + apply map_seq2_shaped; assumption.
  - apply map_seq2_shaped; [assumption|apply map_seq2_shaped; assumption].
  - apply map_seq2_shaped; [assumption|apply map_seq2_shaped; assumption].
  - rewrite map_seq2_length; lia.
  - rewrite map_seq2_length; lia.
Qed.

(** X8. The blend that closes [forward] is a convex combination: at every
    pixel the final depth lies between the depths of the two stages; the
    stage with the larger raw confidence gets the larger weight; where the
    two confidences are equal the final depth is the mean of the two. *)
Theorem blend_between_stage_depths
    (n hw : nat) (rd rc dd dc : Seq) :
  (1 <= n)%nat -> (1 <= length rc)%nat ->
  shaped_seq n 1 hw rc -> shaped_seq n 1 hw dc ->
  shaped_seq n 1 hw rd -> shaped_seq n 1 hw dd ->
  length rd = length rc -> length dd = length rc -> length dc = length rc ->
  exists out im,
    blend rd rc dd dc = Ok (out, im) /\
    forall t b p, (t < length rc)%nat -> (b < n)%nat -> (p < hw)%nat ->
      Rmin (pixel dd t b 0 p) (pixel rd t b 0 p) <= pixel out t b 0 p
        <= Rmax (pixel dd t b 0 p) (pixel rd t b 0 p) /\
      (pixel rc t b 0 p <= pixel dc t b 0 p <->
       pixel (rgb_conf im) t b 0 p <= pixel (d_conf im) t b 0 p) /\
      (pixel rc t b 0 p = pixel dc t b 0 p ->
       pixel out t b 0 p = (pixel dd t b 0 p + pixel rd t b 0 p) / 2).
Proof.
  intros Hn Ht Hrc Hdc Hrd Hdd Lrd Ldd Ldc.
  destruct (blend_pixels Hn Ht Hrc Hdc Hrd Hdd Lrd Ldd Ldc)
    as (out & im & Hb & Hpix).
  exists out, im. split; [exact Hb|].
  intros t b p Htr Hbn Hp.
  destruct (Hpix t b p Htr Hbn Hp) as (W1 & W2 & Ho).
  rewrite W1, W2, Ho.
  pose proof (weights_sum (pixel rc t b 0 p) (pixel dc t b 0 p)) as Hs.
  pose proof (weight_first_bounds (pixel rc t b 0 p) (pixel dc t b 0 p)) as B1.
  pose proof (weight_second_bounds (pixel rc t b 0 p) (pixel dc t b 0 p)) as B2.
  split; [apply convex_between; lra|].
  split; [apply weight_order|].
  intros E. rewrite E in *.
  assert (Hh : weight_first (pixel dc t b 0 p) (pixel dc t b 0 p)
               = weight_second (pixel dc t b 0 p) (pixel dc t b 0 p))
    by reflexivity.
  rewrite Hh in Hs |- *. nra.
Qed.

Lemma blend_between_stage_depths_witness :
  exists out im,
    blend plain_pair mirrored_pair plain_pair mirrored_pair = Ok (out, im) /\
    pixel out 1 0 0 0 = (pixel plain_pair 1 0 0 0 + pixel plain_pair 1 0 0 0) / 2.
Proof.
  destruct (@blend_between_stage_depths 1 1 plain_pair mirrored_pair
              plain_pair mirrored_pair)
    as (out & im & Hb & Hpix);
    try (simpl; lia); try reflexivity; try (repeat constructor).
  exists out, im. split; [exact Hb|].
  destruct (Hpix 1%nat 0%nat 0%nat) as (_ & _ & Hmean);
    [simpl; lia|lia|lia|].
  apply Hmean. reflexivity.
Defined.

(** ** Ranges of the positional encoding *)

Lemma INR_ratio_unit (a b : nat) : (a < b)%nat -> 0 <= INR a / INR b < 1.
Proof.
  intros Hab.
  assert (Hb : 0 < INR b) by (apply lt_0_INR; lia).
  pose proof (pos_INR a) as Ha. apply lt_INR in Hab.
  split.
  - apply Rmult_le_pos; [exact Ha|]. apply Rlt_le, Rinv_0_lt_compat, Hb.
  - apply (Rmult_lt_reg_r (INR b)); [exact Hb|].
    unfold Rdiv. rewrite Rmult_assoc, Rinv_l by lra. lra.
Qed.

Lemma patch_corner_le (pitch i : nat) : (i / pitch * pitch <= i)%nat.
Proof.
  destruct pitch as [|p]; [simpl; lia|].
  rewrite Nat.mul_comm. apply Nat.Div0.mul_div_le.
Qed.

Lemma patch_offset_lt (pitch i : nat) :
  (0 < pitch)%nat -> (i - i / pitch * pitch < pitch)%nat.
Proof.
  intros Hp. pose proof (Nat.div_mod_eq i pitch) as Hdm.
  pose proof (Nat.mod_upper_bound i pitch ltac:(lia)) as Hm.
  rewrite (Nat.mul_comm (i / pitch)). lia.
Qed.

Lemma pos_shapes_ok_pitch (pitch H W : nat) :
  pos_shapes_ok pitch H W = true -> (0 < pitch)%nat.
Proof.
  unfold pos_shapes_ok. intros Hok.
  apply andb_prop in Hok as [Hok _]. apply andb_prop in Hok as [Hok _].
  apply andb_prop in Hok as [Hok _]. apply andb_prop in Hok as [Hok _].
  apply Nat.ltb_lt, Hok.
Qed.

(** X9. A positional encoding that [get_pos_encoding] returns has shape
    (B, T, 6, H, W); each of its six channels takes values in [0, 1); the
    absolute position is the patch position plus the offset within the patch,
    each with its own normalisation undone. *)
Theorem pos_encoding_channels_normalised
    (pitch B T H W : nat) (pe : Tensor5) :
  get_pos_encoding pitch B T H W = Ok pe ->
  (size0 pe, size1 pe, size2 pe, size3 pe, size4 pe) = (B, T, 6%nat, H, W) /\
  forall b t i j, (i < H)%nat -> (j < W)%nat ->
    (forall c, (c < 6)%nat -> 0 <= at5 pe b t c i j < 1) /\
    at5 pe b t 0 i j * INR H
    = at5 pe b t 4 i j * INR H + at5 pe b t 2 i j * INR pitch /\
    at5 pe b t 1 i j * INR W
    = at5 pe b t 5 i j * INR W + at5 pe b t 3 i j * INR pitch.
Proof.
  intros Hpe.
  assert (Hp : (0 < pitch)%nat).
  { unfold get_pos_encoding in Hpe.
    destruct (pos_shapes_ok pitch H W) eqn:E; [|discriminate].
    apply (@pos_shapes_ok_pitch _ _ _ E). }
  assert (Hsh : (size0 pe, size1 pe, size2 pe, size3 pe, size4 pe)
                = (B, T, 6%nat, H, W) /\
                forall b t i j, at5 pe b t 0 i j = INR i / INR H /\
                                at5 pe b t 1 i j = INR j / INR W).
  { unfold get_pos_encoding in Hpe.
    destruct (pos_shapes_ok pitch H W); [|discriminate].
    inversion Hpe; subst. split; [reflexivity|].
    intros. split; reflexivity. }
  destruct Hsh as [Hsh Habs]. split; [exact Hsh|].
  intros b t i j Hi Hj.
  destruct (Habs b t i j) as [A0 A1].
  destruct (@patch_channels_hold_corner pitch B T H W pe b t i j Hpe)
    as (A4 & A5 & A2 & A3).
  pose proof (patch_corner_le pitch i) as Ci.
  pose proof (patch_corner_le pitch j) as Cj.
  pose proof (@patch_offset_lt pitch i Hp) as Oi.
  pose proof (@patch_offset_lt pitch j Hp) as Oj.
  assert (HH : 0 < INR H) by (apply lt_0_INR; lia).
  assert (HW : 0 < INR W) by (apply lt_0_INR; lia).
  assert (HP : 0 < INR pitch) by (apply lt_0_INR; lia).
  split; [|split].
  - intros c Hc.
    destruct c as [|[|[|[|[|[|c]]]]]]; try lia.
    + rewrite A0. apply INR_ratio_unit, Hi.
    + rewrite A1. apply INR_ratio_unit, Hj.
    + rewrite A2, <- minus_INR by exact Ci. apply INR_ratio_unit, Oi.
    + rewrite A3, <- minus_INR by exact Cj. apply INR_ratio_unit, Oj.
    + rewrite A4. apply INR_ratio_unit. lia.
    + rewrite A5. apply INR_ratio_unit. lia.
  - rewrite A0, A4, A2. field. lra.
  - rewrite A1, A5, A3. field. lra.
Qed.

Lemma pos_encoding_channels_normalised_witness :
  exists pe,
    get_pos_encoding 2 1 1 2 2 = Ok pe /\
    0 <= at5 pe 0 0 2 1 1 < 1.
Proof.
  assert (H : exists pe, get_pos_encoding 2 1 1 2 2 = Ok pe)
    by (eexists; reflexivity).
  destruct H as [pe Hpe]. exists pe. split; [exact Hpe|].
  destruct (@pos_encoding_channels_normalised 2 1 1 2 2 pe Hpe) as [_ Hr].
  destruct (Hr 0%nat 0%nat 1%nat 1%nat) as [Hc _]; [lia|lia|].
  apply Hc. lia.
Defined.

(** ** Which bin a pixel falls into *)

Section BinCount.
Variable idx : R.
Variable r : nat -> R.

Local Abbreviation count K := (rsum K (fun m => ge0 (idx - r m))).

Lemma ge0_reached (m : nat) : r m <= idx -> ge0 (idx - r m) = 1.
Proof. intros H. unfold ge0. destruct (Rle_dec 0 (idx - r m)); lra. Qed.

Lemma ge0_not_reached (m : nat) : idx < r m -> ge0 (idx - r m) = 0.
Proof. intros H. unfold ge0. destruct (Rle_dec 0 (idx - r m)); lra. Qed.

Lemma count_nat (K : nat) : exists k, (k <= K)%nat /\ count K = INR k.
Proof.
  induction K as [|K (k & Hk & IH)]; [exists 0%nat; split; [lia|reflexivity]|].
  cbn [rsum]. rewrite IH.
  destruct (Rle_or_lt (r K) idx) as [H|H].
  - exists (S k). split; [lia|]. rewrite ge0_reached, S_INR by exact H.
    reflexivity.
  - exists k. split; [lia|]. rewrite ge0_not_reached by exact H. lra.
Qed.

Lemma count_prefix (K : nat) :
  (forall m, (m < K)%nat -> r m <= idx) -> count K = INR K.
Proof.
  induction K as [|K IH]; intros H; [reflexivity|].
  cbn [rsum]. rewrite IH by (intros; apply H; lia).
  rewrite ge0_reached by (apply H; lia). rewrite S_INR. reflexivity.
Qed.

Lemma count_suffix (K M : nat) :
  (K <= M)%nat -> (forall m, (K <= m < M)%nat -> idx < r m) ->
  count M = count K.
Proof.
  intros HKM. induction HKM as [|M HKM IH]; intros H; [reflexivity|].
  cbn [rsum]. rewrite IH by (intros; apply H; lia).
  rewrite ge0_not_reached by (apply H; lia). lra.
Qed.

Lemma count_upper (K : nat) : count K <= INR K.
Proof.
  destruct (count_nat K) as (k & Hk & ->). apply le_INR, Hk.
Qed.

Lemma count_mono (K M : nat) : (K <= M)%nat -> count K <= count M.
Proof.
  intros HKM. apply rsum_le_more; [exact HKM|].
  intros m _. destruct (ge0_cases (idx - r m)) as [E|E]; rewrite E; lra.
Qed.

Lemma count_reached (K : nat) :
  (exists m, (m < K)%nat /\ r m <= idx) -> 1 <= count K.
Proof.
  intros (m & Hm & Hr).
  apply Rle_trans with (count (S m)); [|apply count_mono; lia].
  cbn [rsum]. rewrite ge0_reached by exact Hr.
  assert (H0 : 0 <= count m).
  { apply rsum_nonneg. intros k _.
    destruct (ge0_cases (idx - r k)) as [E|E]; rewrite E; lra. }
  lra.
Qed.

(** With boundaries in ascending order, the count of boundaries reached is
    [m + 1] exactly when the value lies in the interval that starts at
    boundary [m]. *)
Lemma count_sorted (M m : nat) :
  (forall a b, (a <= b < M)%nat -> r a <= r b) ->
  (m < M)%nat ->
  (count M = INR (S m) <->
   r m <= idx /\ ((S m < M)%nat -> idx < r (S m))).
Proof.
  intros Hsorted Hm. split.
  - intros Hc. split.
    + destruct (Rle_or_lt (r m) idx) as [H|H]; [exact H|]. exfalso.
      assert (Hs : count M = count m).
      { apply count_suffix; [lia|]. intros k Hk.
        apply Rlt_le_trans with (r m); [exact H|]. apply Hsorted. lia. }
      pose proof (count_upper m) as Hu. rewrite Hs, S_INR in Hc. lra.
    + intros HS.
      destruct (Rle_or_lt (r (S m)) idx) as [H|H]; [|exact H]. exfalso.
      assert (Hp : count (S (S m)) = INR (S (S m))).
      { apply count_prefix. intros k Hk.
        apply Rle_trans with (r (S m)); [|exact H]. apply Hsorted. lia. }
      pose proof (@count_mono (S (S m)) M ltac:(lia)) as Hmono.
      rewrite Hp, Hc, !S_INR in Hmono. lra.
  - intros [Hlow Hhigh].
    assert (Hs : count M = count (S m)).
    { apply count_suffix; [lia|]. intros k Hk.
      apply Rlt_le_trans with (r (S m)); [apply Hhigh; lia|].
      apply Hsorted. lia. }
    rewrite Hs. apply count_prefix. intros k Hk.
    apply Rle_trans with (r m); [|exact Hlow]. apply Hsorted. lia.
Qed.
End BinCount.

Lemma eq0_cases (v : R) : (v = 0 /\ eq0 v = 1) \/ (v <> 0 /\ eq0 v = 0).
Proof. unfold eq0. destruct (Req_dec_T v 0); auto. Qed.

(** X10. With the rebin boundaries of a patch in ascending order, a pixel is
    put into bin [m] exactly when its discretised depth is at or above
    boundary [m] and below boundary [m + 1] (the last bin has no upper
    boundary); in every other bin its entry is 0. *)
Theorem pixel_falls_in_enclosing_bin
    (pitch : nat) (temp_res : Z) (d rebin_idx : Tensor4) (b m y x : nat) :
  let level := round_half_even (depth_clamped d b y x * IZR (temp_res - 1)) in
  let boundary k := at4 rebin_idx b k (y / pitch) (x / pitch) in
  (forall k k', (k <= k' < dim1 rebin_idx)%nat -> boundary k <= boundary k') ->
  (m < dim1 rebin_idx)%nat ->
  let enclosed :=
    boundary m <= level /\
    ((S m < dim1 rebin_idx)%nat -> level < boundary (S m)) in
  (enclosed -> one_hot pitch temp_res d rebin_idx b m y x = 1) /\
  (~ enclosed -> one_hot pitch temp_res d rebin_idx b m y x = 0).
Proof.
  intros level boundary Hsorted Hm enclosed.
  pose proof (@count_sorted level boundary (dim1 rebin_idx) m Hsorted Hm)
    as Hiff.
  unfold one_hot, occupied. fold level. fold boundary.
  change (fun m0 : nat => ge0 (level - at4 rebin_idx b m0 (y / pitch) (x / pitch)))
    with (fun m0 : nat => ge0 (level - boundary m0)).
  replace (m + 1)%nat with (S m) by lia.
  destruct (eq0_cases (rsum (dim1 rebin_idx)
                         (fun m0 => ge0 (level - boundary m0)) - INR (S m)))
    as [[Hz ->]|[Hz ->]].
  - split; [reflexivity|]. intros Hn. exfalso. apply Hn, Hiff. lra.
  - split; [|reflexivity]. intros He. exfalso. apply Hz.
    apply Hiff in He. lra.
Qed.

Lemma pixel_falls_in_enclosing_bin_witness :
  one_hot 1 2 zero_depth toy_rebin 0 0 0 0 = 1.
Proof.
  assert (Hl : round_half_even (depth_clamped zero_depth 0 0 0 * IZR (2 - 1))
               = 0).
  { unfold depth_clamped. cbn [zero_depth const4 at4].
    rewrite clamp01_zero, Rmult_0_l. apply round_half_even_zero. }
  apply (@pixel_falls_in_enclosing_bin 1 2 zero_depth toy_rebin 0 0 0 0).
  - intros k k' Hk. cbn [toy_rebin at4]. apply le_INR. lia.
  - simpl. lia.
  - rewrite Hl. cbn [toy_rebin at4 dim1]. simpl. split; [lra|].
    intros _. lra.
Defined.

(** ** The mass of the pooled histogram *)

Lemma rsum_ext (n : nat) (f g : nat -> R) :
  (forall k, (k < n)%nat -> f k = g k) -> rsum n f = rsum n g.
Proof.
  induction n as [|n IH]; intros H; [reflexivity|].
  cbn [rsum]. rewrite IH by (intros; apply H; lia).
  rewrite H by lia. reflexivity.
Qed.

Lemma rsum_le (n : nat) (f g : nat -> R) :
  (forall k, (k < n)%nat -> f k <= g k) -> rsum n f <= rsum n g.
Proof.
  induction n as [|n IH]; intros H; cbn [rsum]; [lra|].
  pose proof (IH (fun k Hk => H k (Nat.lt_lt_succ_r _ _ Hk))).
  pose proof (H n (Nat.lt_succ_diag_r n)). lra.
Qed.

Lemma rsum_plus (n : nat) (f g : nat -> R) :
  rsum n (fun k => f k + g k) = rsum n f + rsum n g.
Proof.
  induction n as [|n IH]; cbn [rsum]; [lra|]. rewrite IH. lra.
Qed.

Lemma rsum_mult_r (n : nat) (f : nat -> R) (c : R) :
  rsum n (fun k => f k * c) = rsum n f * c.
Proof.
  induction n as [|n IH]; cbn [rsum]; [lra|]. rewrite IH. lra.
Qed.

Lemma rsum_swap (M n : nat) (F : nat -> nat -> R) :
  rsum M (fun m => rsum n (fun i => F m i))
  = rsum n (fun i => rsum M (fun m => F m i)).
Proof.
  induction M as [|M IH]; cbn [rsum].
  - induction n as [|n IHn]; cbn [rsum]; [reflexivity|]. rewrite <- IHn. lra.
  - rewrite IH, <- rsum_plus. reflexivity.
Qed.

(** Over the bins 1..M the indicator of "exactly k boundaries reached" adds
    up to one when 1 <= k <= M and to zero otherwise. *)
Lemma indicator_sum (M k : nat) :
  rsum M (fun m => eq0 (INR k - INR (m + 1)))
  = if (Nat.leb 1 k && Nat.leb k M)%bool then 1 else 0.
Proof.
  induction M as [|M IH]; cbn [rsum].
  - destruct k; reflexivity.
  - rewrite IH. replace (M + 1)%nat with (S M) by lia.
    destruct (eq0_cases (INR k - INR (S M))) as [[Hz ->]|[Hz ->]].
    + assert (Hk : k = S M) by (apply INR_eq; lra). subst k.
      replace (Nat.leb (S M) M) with false
        by (symmetry; apply Nat.leb_gt; lia).
      rewrite Nat.leb_refl. simpl. lra.
    + assert (Hk : k <> S M) by (intros ->; apply Hz; lra).
      destruct (Nat.leb 1 k) eqn:E1; simpl; [|lra].
      destruct (Nat.leb k M) eqn:E2.
      * apply Nat.leb_le in E2.
        replace (Nat.leb k (S M)) with true
          by (symmetry; apply Nat.leb_le; lia). lra.
      * apply Nat.leb_gt in E2.
        replace (Nat.leb k (S M)) with false
          by (symmetry; apply Nat.leb_gt; lia). lra.
Qed.

(** A pixel adds its intensity to at most one bin, and to exactly one as
    soon as its discretised depth reaches some boundary. *)
Lemma one_hot_total (pitch : nat) (temp_res : Z) (d rebin_idx : Tensor4)
    (b y x : nat) :
  let total :=
    rsum (dim1 rebin_idx)
         (fun m => one_hot pitch temp_res d rebin_idx b m y x) in
  0 <= total <= 1 /\
  ((exists m, (m < dim1 rebin_idx)%nat /\
      at4 rebin_idx b m (y / pitch) (x / pitch)
      <= round_half_even (depth_clamped d b y x * IZR (temp_res - 1))) ->
   total = 1).
Proof.
  intros total. unfold total, one_hot, occupied.
  set (level := round_half_even (depth_clamped d b y x * IZR (temp_res - 1))).
  set (boundary := fun k => at4 rebin_idx b k (y / pitch) (x / pitch)).
  change (fun m0 : nat => ge0 (level - at4 rebin_idx b m0 (y / pitch) (x / pitch)))
    with (fun m0 : nat => ge0 (level - boundary m0)).
  destruct (count_nat level boundary (dim1 rebin_idx)) as (k & Hk & Hc).
  rewrite Hc, indicator_sum.
  replace (Nat.leb k (dim1 rebin_idx)) with true
    by (symmetry; apply Nat.leb_le; exact Hk).
  rewrite andb_true_r. split.
  - destruct (Nat.leb 1 k); lra.
  - intros Hex.
    pose proof (@count_reached level boundary (dim1 rebin_idx) Hex) as H1.
    rewrite Hc in H1.
    destruct k as [|k]; [simpl in H1; lra|]. reflexivity.
Qed.

Lemma block_row (pitch py i : nat) :
  (i < pitch)%nat -> ((py * pitch + i) / pitch)%nat = py.
Proof.
  intros Hi. symmetry. apply (Nat.div_unique _ _ _ i); lia.
Qed.

(** X11. The histogram of a patch, summed over its bins, never exceeds the
    total intensity of the pixels of the patch when the guide is
    non-negative there, and equals it when the discretised depth of every
    pixel of the patch reaches at least one rebin boundary: a pixel below all
    boundaries is dropped, any other is counted once. *)
Theorem histogram_mass_bounded
    (pitch : nat) (temp_res : Z) (d img rebin_idx hist : Tensor4)
    (b py px : nat) :
  dtof_hist_torch pitch temp_res d img rebin_idx = Ok hist ->
  (forall i j, (i < pitch)%nat -> (j < pitch)%nat ->
     0 <= albedo img b (py * pitch + i) (px * pitch + j)) ->
  let total :=
    rsum pitch (fun i => rsum pitch (fun j =>
      intensity d img b (py * pitch + i) (px * pitch + j))) in
  let mass := rsum (dim1 hist) (fun m => at4 hist b m py px) in
  mass <= total /\
  ((forall i j, (i < pitch)%nat -> (j < pitch)%nat ->
      exists m, (m < dim1 rebin_idx)%nat /\
        at4 rebin_idx b m py px
        <= round_half_even
             (depth_clamped d b (py * pitch + i) (px * pitch + j)
              * IZR (temp_res - 1))) ->
   mass = total).
Proof.
  intros Hhist Halb total mass.
  unfold dtof_hist_torch in Hhist.
  destruct (dtof_shapes_ok pitch d img rebin_idx); [|discriminate].
  inversion Hhist; subst hist. clear Hhist.
  unfold mass, total. cbn [dim1 at4]. unfold pooled_hist.
  rewrite rsum_swap.
  assert (Hinner : forall i,
    rsum (dim1 rebin_idx) (fun m =>
      rsum pitch (fun j =>
        one_hot pitch temp_res d rebin_idx b m (py * pitch + i) (px * pitch + j)
        * intensity d img b (py * pitch + i) (px * pitch + j)))
    = rsum pitch (fun j =>
        rsum (dim1 rebin_idx) (fun m =>
          one_hot pitch temp_res d rebin_idx b m
            (py * pitch + i) (px * pitch + j))
        * intensity d img b (py * pitch + i) (px * pitch + j))).
  { intros i. rewrite rsum_swap. apply rsum_ext. intros j _.
    apply rsum_mult_r. }
  rewrite (rsum_ext _ _ (fun i _ => Hinner i)).
  split.
  - apply rsum_le. intros i Hi. apply rsum_le. intros j Hj.
    destruct (@one_hot_total pitch temp_res d rebin_idx b
                (py * pitch + i) (px * pitch + j)) as [[H0 H1] _].
    pose proof (@intensity_nonneg d img b _ _ (Halb i j Hi Hj)) as HI.
    nra.
  - intros Hreach. apply rsum_ext. intros i Hi. apply rsum_ext. intros j Hj.
    destruct (@one_hot_total pitch temp_res d rebin_idx b
                (py * pitch + i) (px * pitch + j)) as [_ H1].
    rewrite H1; [lra|].
    rewrite (block_row py Hi), (block_row px Hj). apply Hreach; assumption.
Qed.

Lemma histogram_mass_bounded_witness :
  exists hist,
    dtof_hist_torch 1 2 zero_depth bright_guide toy_rebin = Ok hist /\
    rsum (dim1 hist) (fun m => at4 hist 0 m 0 0)
    = rsum 1 (fun i => rsum 1 (fun j =>
        intensity zero_depth bright_guide 0 (0 * 1 + i) (0 * 1 + j))).
Proof.
  assert (H : exists hist,
             dtof_hist_torch 1 2 zero_depth bright_guide toy_rebin = Ok hist)
    by (eexists; reflexivity).
  destruct H as [hist Hhist]. exists hist. split; [exact Hhist|].
  apply (@histogram_mass_bounded 1 2 zero_depth bright_guide toy_rebin hist
           0 0 0 Hhist).
  - intros i j _ _. unfold albedo. simpl. lra.
  - intros i j Hi Hj. exists 0%nat. split; [simpl; lia|].
    assert (i = 0%nat) by lia. assert (j = 0%nat) by lia. subst.
    unfold depth_clamped. cbn [zero_depth const4 at4 toy_rebin].
    rewrite clamp01_zero, Rmult_0_l, round_half_even_zero. simpl. lra.
Defined.

(** ** The values of the error map *)





(** ** The flow fields of [compute_flow] *)

Lemma nth_removelast' {A : Type} (l : list A) (k : nat) (d : A) :
  (k < length l - 1)%nat -> nth k (removelast l) d = nth k l d.
Proof.
  revert k. induction l as [|a l IH]; intros k Hk; [simpl in Hk; lia|].
  destruct l as [|b l]; [simpl in Hk; lia|].
  change (removelast (a :: b :: l)) with (a :: removelast (b :: l)).
  destruct k as [|k]; [reflexivity|].
  change (nth k (removelast (b :: l)) d = nth k (b :: l) d).
  apply IH. simpl in *. lia.
Qed.

Lemma nth_tl {A : Type} (l : list A) (k : nat) (d : A) :
  nth k (tl l) d = nth (S k) l d.
Proof. destruct l; [destruct k; reflexivity|reflexivity]. Qed.

Lemma length_tl {A : Type} (l : list A) : length (tl l) = (length l - 1)%nat.
Proof. destruct l; simpl; lia. Qed.

Lemma zip_with_app {A B C : Type} (f : A -> B -> C) (xs : list A) :
  forall (ys : list B) (xs' : list A) (ys' : list B),
    length xs = length ys ->
    zip_with f (xs ++ xs') (ys ++ ys')
    = zip_with f xs ys ++ zip_with f xs' ys'.
Proof.
  induction xs as [|x xs IH]; intros [|y ys] xs' ys' Hlen; simpl in *;
    try discriminate; [reflexivity|].
  rewrite IH by lia. reflexivity.
Qed.

Lemma rev_zip_with {A B C : Type} (f : A -> B -> C) (xs : list A) :
  forall ys : list B,
    length xs = length ys ->
    rev (zip_with f xs ys) = zip_with f (rev xs) (rev ys).
Proof.
  induction xs as [|x xs IH]; intros [|y ys] Hlen; simpl in *;
    try discriminate; [reflexivity|].
  rewrite IH by lia.
  rewrite zip_with_app by (rewrite !length_rev; lia). reflexivity.
Qed.

Lemma rev_removelast {A : Type} (l : list A) :
  rev (removelast l) = tl (rev l).
Proof.
  destruct l as [|a0 l0]; [reflexivity|].
  destruct (@exists_last _ (a0 :: l0) ltac:(discriminate)) as (l' & a & E).
  rewrite E, removelast_last, rev_app_distr. reflexivity.
Qed.

Lemma rev_tl {A : Type} (l : list A) : rev (tl l) = removelast (rev l).
Proof.
  destruct l as [|a l]; [reflexivity|].
  simpl. rewrite removelast_last. reflexivity.
Qed.

(** The sample operators keep the sizes of a stage on planes of any size. *)
Lemma shaped_samplewise : samplewise shaped_networks.
Proof.
  constructor; intros hg.
  - exists (fun s s' : Sample => firstn 2 (map_sample2 Rminus s s')).
    reflexivity.
  - exists (map shrink). reflexivity.
  - exists (firstn 1). reflexivity.
Qed.

Lemma shaped_flow_sized (c hw : nat) :
  (2 <= c)%nat -> flow_sized shaped_networks c hw.
Proof.
  intros Hc hg a b Ha Hb _. cbn [spynet shaped_networks].
  eapply Forall_zip_with; [|exact Ha|exact Hb].
  intros s s' [Ls Fs] [Ls' Fs']. split.
  - rewrite length_firstn. unfold map_sample2.
    rewrite zip_with_length by congruence. lia.
  - apply Forall_firstn. unfold map_sample2.
    eapply Forall_zip_with; [|exact Fs|exact Fs'].
    intros p q Hp Hq. unfold map_plane2.
    rewrite zip_with_length; congruence.
Qed.

Lemma plain_guides_shaped : shaped_seq 1 3 16 plain_guides.
Proof.
  repeat (constructor; [split; [reflexivity|]|]); repeat constructor.
Qed.

Lemma mirrored_guides_shaped : shaped_seq 1 3 16 mirrored_guides.
Proof.
  repeat (constructor; [split; [reflexivity|]|]); repeat constructor.
Qed.

(** X13. For a sequence of T >= 2 guide frames of n >= 1 samples, c >= 1
    channels and h*w >= 1 pixels on an unflagged model, with a flow network
    that acts sample by sample and returns two channels at the resolution of
    the guides, in either execution mode [compute_flow] returns T - 1 fields
    per direction:
    the k-th backward field is the flow network applied to (frame k,
    frame k+1), current to next, and the k-th forward field is the flow
    network applied to (frame k+1, frame k), current to previous. *)
Theorem compute_flow_pairs_neighbours
    (N : Networks) (self : DVSR) (guides : Seq) (hg_idx n c hw : nat) :
  samplewise N -> flow_sized N c hw ->
  shaped_seq n c hw guides ->
  (1 <= n)%nat -> (1 <= c)%nat -> (1 <= hw)%nat ->
  (2 <= length guides)%nat ->
  is_mirror_extended self = false ->
  exists ff fb,
    compute_flow N self guides hg_idx = Ok (Some ff, fb) /\
    length ff = (length guides - 1)%nat /\
    length fb = (length guides - 1)%nat /\
    forall k, (k < length guides - 1)%nat ->
      nth k fb [] = spynet N hg_idx (nth k guides []) (nth (S k) guides []) /\
      nth k ff [] = spynet N hg_idx (nth (S k) guides []) (nth k guides []).
Proof.
  intros HN Hs Hb Hn Hc Hhw HT Hflag.
  destruct (spynet_samplewise HN hg_idx) as [f Hf].
  rewrite (@compute_flow_value N self guides hg_idx n c hw f Hf Hs Hb Hn Hc
             Hhw HT), Hflag.
  do 2 eexists. split; [reflexivity|].
  pose proof (length_removelast' guides) as Lr.
  pose proof (length_tl guides) as Lt.
  split; [rewrite zip_with_length; congruence|].
  split; [rewrite zip_with_length; congruence|].
  intros k Hk. split.
  - rewrite (@zip_with_nth _ _ _ (zip_with f) (removelast guides) (tl guides)
               k [] [] []) by lia.
    rewrite nth_removelast', nth_tl by exact Hk. symmetry. apply Hf.
  - rewrite (@zip_with_nth _ _ _ (zip_with f) (tl guides) (removelast guides)
               k [] [] []) by lia.
    rewrite nth_removelast', nth_tl by exact Hk. symmetry. apply Hf.
Qed.

Lemma compute_flow_pairs_neighbours_witness :
  exists ff fb,
    compute_flow shaped_networks toy_model plain_guides 1
    = Ok (Some ff, fb) /\
    nth 0 fb [] = spynet shaped_networks 1 (guide_frame 0) (guide_frame 1).
Proof.
  destruct (@compute_flow_pairs_neighbours shaped_networks toy_model
              plain_guides 1 1 3 16 shaped_samplewise)
    as (ff & fb & Hcf & _ & _ & Hk);
    [apply shaped_flow_sized; lia|exact plain_guides_shaped|lia|lia|lia
    |simpl; lia|reflexivity|].
  exists ff, fb. split; [exact Hcf|].
  apply (Hk 0%nat). simpl. lia.
Defined.

(** X14. The note in the docstring of [compute_flow] holds for the guides:
    when the guide sequence (T >= 2 frames of n >= 1 samples, c >= 1
    channels and h*w >= 1 pixels, the flow network as in X13) reads the same
    in both directions, the forward fields that an unflagged model computes
    are the backward fields in reversed time order, so each propagation
    branch receives the same flows with or without the shortcut. *)
Theorem mirrored_guides_forward_is_flipped_backward
    (N : Networks) (self : DVSR) (guides : Seq) (hg_idx n c hw : nat) :
  samplewise N -> flow_sized N c hw ->
  shaped_seq n c hw guides ->
  (1 <= n)%nat -> (1 <= c)%nat -> (1 <= hw)%nat ->
  (2 <= length guides)%nat ->
  is_mirror_extended self = false ->
  guides = rev guides ->
  exists ff fb,
    compute_flow N self guides hg_idx = Ok (Some ff, fb) /\
    ff = flip1 fb /\
    forall direction,
      select_flows direction (Some ff) fb = select_flows direction None fb.
Proof.
  intros HN Hs Hb Hn Hc Hhw HT Hflag Hpal.
  destruct (spynet_samplewise HN hg_idx) as [f Hf].
  rewrite (@compute_flow_value N self guides hg_idx n c hw f Hf Hs Hb Hn Hc
             Hhw HT), Hflag.
  do 2 eexists. split; [reflexivity|].
  assert (Hflip : zip_with (zip_with f) (tl guides) (removelast guides)
                  = flip1 (zip_with (zip_with f) (removelast guides)
                             (tl guides))).
  { unfold flip1. rewrite rev_zip_with
      by (rewrite length_removelast', length_tl; reflexivity).
    rewrite rev_removelast, rev_tl, <- Hpal. reflexivity. }
  split; [exact Hflip|].
  intros direction. unfold select_flows.
  destruct (String.eqb direction "backward"); [reflexivity|exact Hflip].
Qed.

Lemma mirrored_guides_forward_is_flipped_backward_witness :
  exists ff fb,
    compute_flow shaped_networks toy_model mirrored_guides 1
    = Ok (Some ff, fb) /\
    ff = flip1 fb.
Proof.
  destruct (@mirrored_guides_forward_is_flipped_backward shaped_networks
              toy_model mirrored_guides 1 1 3 16 shaped_samplewise)
    as (ff & fb & Hcf & Hflip & _);
    [apply shaped_flow_sized; lia|exact mirrored_guides_shaped|lia|lia|lia
    |simpl; lia|reflexivity|reflexivity|].
  exists ff, fb. split; assumption.
Defined.

(** X15. With offloading active, [compute_flow] on a sequence of fewer than
    two frames raises RuntimeError: the per-pair loop runs zero times and the
    concatenation receives an empty list. *)
Theorem offload_single_frame_raises
    (N : Networks) (self : DVSR) (guides : Seq) (hg_idx : nat) :
  cpu_cache self = true -> (length guides <= 1)%nat ->
  compute_flow N self guides hg_idx = Raise RuntimeError.
Proof.
  intros Hc Hlen. unfold compute_flow. rewrite Hc.
  replace (length guides - 1)%nat with 0%nat by lia.
  reflexivity.
Qed.

Lemma offload_single_frame_raises_witness :
  compute_flow toy_networks (set_cpu_cache toy_offload_model true) [frame_a] 1
  = Raise RuntimeError.
Proof.
  apply offload_single_frame_raises; [reflexivity|simpl; lia].
Defined.

(** ** A stage from end to end *)

Lemma chunks_regular {A : Type} (n t : nat) :
  forall l : list A,
    length l = (n * t)%nat ->
    length (chunks n t l) = n /\
    Forall (fun r => length r = t) (chunks n t l).
Proof.
  induction n as [|n IH]; intros l Hl; cbn [chunks].
  - split; [reflexivity|constructor].
  - rewrite Nat.mul_succ_l in Hl.
    destruct (IH (skipn t l)) as [L F]; [rewrite length_skipn; lia|].
    split; [simpl; lia|]. constructor; [|exact F].
    rewrite length_firstn. lia.
Qed.

Lemma resize_flows_ok (N : Networks) (n t hw cf : nat) (f : Seq) :
  keeps_batch N -> keeps_sizes N hw cf -> (1 <= hw)%nat ->
  shaped_seq n 2 (16 * hw) f ->
  length f = (t - 1)%nat -> (1 <= length f)%nat ->
  exists r, resize_flows N n t hw (Some f) = Ok r /\
            length r = (t - 1)%nat /\ Forall (batch_of n) r.
Proof.
  intros HB HK Hhw Sf Hl H1. unfold resize_flows. cbn [from_option bind].
  rewrite (view4_merge Sf) by lia. cbn [bind].
  set (M := concat (transpose n f)).
  assert (SM : Forall (shaped_sample 2 hw) (interpolate_bicubic N M))
    by (apply (ks_interpolate HK), merged_shaped, Sf).
  assert (LM : length (interpolate_bicubic N M) = (n * (t - 1))%nat).
  { rewrite (kb_interpolate HB). unfold M.
    rewrite merged_length by (apply (shaped_batches Sf)). congruence. }
  rewrite (@view5_shaped n (t - 1) 2 hw _ SM LM). cbn [bind].
  destruct (@chunks_regular _ n (t - 1) _ LM) as [L F].
  eexists. split; [reflexivity|]. split.
  - unfold map_seq. rewrite length_map. apply transpose_length, F.
  - unfold map_seq. apply Forall_map.
    pose proof (transpose_rows F) as H. rewrite L in H.
    eapply Forall_impl; [|exact H].
    intros b Hb'. unfold batch_of, map_batch in *. rewrite length_map.
    exact Hb'.
Qed.

(** [propagate] on well-formed inputs: the dictionary returned is the one
    received with the branch of [module_name] filled in. *)
Lemma propagate_ok (N : Networks) (self : DVSR) (flows : Seq) (m : string)
    (hg_idx : nat) (feats : Feats) (n : nat) :
  propagate_pre N flows m feats n -> (1 <= length flows)%nat ->
  exists out,
    propagate N self flows m hg_idx feats = Ok (dict_set feats m out) /\
    length out = S (length flows) /\ Forall (batch_of n) out.
Proof.
  intros Hpre Hlen.
  destruct (spatial_frames Hpre) as (spatial & Hsp & Hsplen & Hspb).
  set (zeros := new_zeros (batch_size flows) (mid_channels self)
                  (plane_size flows)).
  assert (Hinv0 : propagate_inv m feats spatial n 0 (zeros, feats)).
  { split; [|split; [exact Hsp|split; [reflexivity|]]].
    - simpl. unfold zeros. rewrite (batch_size_flows (flows_batch Hpre) Hlen).
      apply new_zeros_batch.
    - exists []. split; [apply (own_empty Hpre)|].
      split; [reflexivity|constructor]. }
  destruct (@propagate_loop_ok N flows m hg_idx feats n spatial
              Hpre Hsplen Hspb (flow_indices flows m)
              (frame_indices flows m) 0%nat (zeros, feats) Hinv0)
    as (trace & Htrace & Htlen & _ & Hlast).
  { apply frame_indices_bounds. }
  { intros j Hj. apply flow_indices_valid.
    rewrite frame_indices_length in Hj. lia. }
  rewrite frame_indices_length in Hlast. simpl in Hlast.
  assert (Hptrace : propagate_trace N self flows m hg_idx feats = Ok trace).
  { unfold propagate_trace, mapping_indices. rewrite Hsp. cbn [bind].
    exact Htrace. }
  destruct Hlast as (_ & _ & _ & own & Hown & Hownlen & Hownb).
  pose proof (last_map_snd trace (zeros, feats)) as Hfinal.
  cbn [snd] in Hfinal.
  assert (Hprop : exists feats' out,
             propagate N self flows m hg_idx feats = Ok feats' /\
             dict_get feats' m = Ok out /\
             length out = S (length flows) /\ Forall (batch_of n) out).
  { unfold propagate. rewrite Hptrace. cbn [bind]. rewrite Hfinal.
    destruct (is_backward m).
    - rewrite Hown. cbn [bind]. eexists. exists (rev own).
      split; [reflexivity|]. split; [apply dict_get_set_same|].
      split; [rewrite length_rev; exact Hownlen|apply Forall_rev, Hownb].
    - eexists. exists own. split; [reflexivity|].
      split; [exact Hown|]. split; assumption. }
  destruct Hprop as (feats' & out & Hp & Hout & Hol & Hob).
  exists out. split; [|split; assumption].
  destruct (propagate_effect _ _ _ _ _ _ Hp) as (tr & own0 & _ & _ & _ & E).
  rewrite E in Hout. rewrite dict_get_set_same in Hout.
  inversion Hout as [Hx]. rewrite Hx in E. congruence.
Qed.

Lemma Forall_filter' {A : Type} (P : A -> Prop) (f : A -> bool) (l : list A) :
  Forall P l -> Forall P (filter f l).
Proof.
  rewrite !Forall_forall. intros H x Hx. apply filter_In in Hx. apply H, Hx.
Qed.

Lemma frames_dict_set (n T : nat) (feats : Feats) (m : string)
    (out : list Batch) :
  Forall (frames_of n T) feats ->
  length out = T -> Forall (batch_of n) out ->
  Forall (frames_of n T) (dict_set feats m out).
Proof.
  intros Hall Hl Hb.
  induction Hall as [|[k v] feats Hkv Htl IH]; cbn [dict_set].
  - constructor; [split; assumption|constructor].
  - destruct (String.eqb k m).
    + constructor; [split; assumption|assumption].
    + constructor; assumption.
Qed.

(** One branch of the loop of [hg_forward]: a complete dictionary stays
    complete. *)
Lemma propagate_branch_ok (N : Networks) (self : DVSR) (flows : Seq)
    (m : string) (hg_idx n T : nat) (feats : Feats) :
  keeps_batch N ->
  m <> "spatial"%string ->
  Forall (batch_of n) flows -> S (length flows) = T ->
  (1 <= length flows)%nat ->
  stage_ok n T feats ->
  exists feats',
    propagate N self flows m hg_idx (dict_set feats m []) = Ok feats' /\
    stage_ok n T feats'.
Proof.
  intros HN Hm Hfb HT Hlen [[spatial Hsp] Hall].
  assert (Hspf : frames_of n T ("spatial"%string, spatial)).
  { apply dict_get_In in Hsp. rewrite Forall_forall in Hall.
    apply (Hall _ Hsp). }
  destruct Hspf as [Hspl Hspb]. cbn [snd] in Hspl, Hspb.
  assert (Hpre : propagate_pre N flows m (dict_set feats m []) n).
  { constructor.
    - apply (kb_flow_warp HN).
    - apply (kb_deform_align HN).
    - apply (kb_backbone HN).
    - exact Hfb.
    - exact Hm.
    - exists spatial. split; [|split; [lia|exact Hspb]].
      rewrite dict_get_set_other by congruence. exact Hsp.
    - apply dict_get_set_same.
    - rewrite other_branches_set. unfold other_branches.
      apply Forall_filter'. eapply Forall_impl; [|exact Hall].
      intros kv [Hl Hb]. split; [lia|exact Hb]. }
  destruct (@propagate_ok N self flows m hg_idx (dict_set feats m []) n
              Hpre Hlen) as (out & Hp & Hol & Hob).
  rewrite dict_set_idem in Hp.
  exists (dict_set feats m out). split; [exact Hp|]. split.
  - exists spatial. rewrite dict_get_set_other by congruence. exact Hsp.
  - apply frames_dict_set; [exact Hall|lia|exact Hob].
Qed.

Lemma propagate_all_ok (N : Networks) (self : DVSR) (hg_idx n T : nat)
    (ff fb : Seq) (bs : list (string * string)) :
  keeps_batch N ->
  Forall (fun b => module_of b <> "spatial"%string) bs ->
  Forall (batch_of n) ff -> Forall (batch_of n) fb ->
  S (length ff) = T -> S (length fb) = T -> (2 <= T)%nat ->
  forall feats,
    stage_ok n T feats ->
    exists feats',
      propagate_all N self hg_idx (Some ff) fb bs feats = Ok feats' /\
      stage_ok n T feats'.
Proof.
  intros HN Hbs Hff Hfb Lff Lfb HT.
  induction Hbs as [|b bs Hb _ IH]; intros feats Hok.
  - exists feats. split; [reflexivity|exact Hok].
  - cbn [propagate_all]. cbv zeta.
    assert (Hsel : Forall (batch_of n) (select_flows (fst b) (Some ff) fb) /\
                   S (length (select_flows (fst b) (Some ff) fb)) = T).
    { unfold select_flows. destruct (String.eqb (fst b) "backward"); auto. }
    destruct Hsel as [Hsb Hsl].
    destruct (@propagate_branch_ok N self
                (select_flows (fst b) (Some ff) fb) (module_of b) hg_idx n T
                feats HN Hb Hsb Hsl ltac:(lia) Hok) as (feats1 & Hp & Hok1).
    rewrite Hp. cbn [bind]. apply IH, Hok1.
Qed.

Lemma branches_not_spatial :
  Forall (fun b => module_of b <> "spatial"%string) branches.
Proof. repeat constructor; discriminate. Qed.

Lemma keeps_batch_shaped : keeps_batch shaped_networks.
Proof.
  constructor.
  - reflexivity.
  - intros. simpl. apply length_map.
  - intros. simpl. apply length_map.
  - intros. simpl. apply length_map.
  - intros. simpl. apply length_map.
  - intros hg [|s a] Ha; simpl in *; lia.
Qed.

Lemma shrink_length (hw : nat) (p : Plane) :
  length p = (16 * hw)%nat -> length (shrink p) = hw.
Proof.
  intros Hp. unfold shrink. rewrite length_firstn, Hp.
  rewrite (Nat.mul_comm 16 hw), Nat.div_mul by lia. lia.
Qed.

Lemma keeps_sizes_shaped (hw : nat) : keeps_sizes shaped_networks hw 1.
Proof.
  constructor.
  - apply shaped_flow_sized. lia.
  - intros a Ha. cbn [interpolate_bicubic shaped_networks].
    apply Forall_map. eapply Forall_impl; [|exact Ha].
    intros s [Ls Fs]. split; [rewrite length_map; exact Ls|].
    apply Forall_map. eapply Forall_impl; [|exact Fs].
    intros p Hp. apply shrink_length, Hp.
  - intros hg c a Ha. cbn [conv_guide_init shaped_networks].
    apply Forall_map. eapply Forall_impl; [|exact Ha].
    intros s [Ls Fs]. unfold planes_of.
    apply Forall_map. eapply Forall_impl; [|exact Fs].
    intros p Hp. apply shrink_length, Hp.
  - intros hg a Ha. cbn [feat_extract shaped_networks].
    apply Forall_map. eapply Forall_impl; [|exact Ha].
    intros s [Fs Ls]. split.
    + rewrite length_firstn. lia.
    + apply Forall_firstn, Fs.
  - lia.
Qed.

Lemma plain_pair_shaped : shaped_seq 1 1 1 plain_pair.
Proof. repeat constructor. Qed.

(** The part of a stage before the propagation loop, on inputs of the
    documented sizes. *)
Lemma hg_prepare_ok (N : Networks) (self : DVSR) (is_cuda : bool)
    (lqs guides : Seq) (ei ef : option Seq) (hg_idx n c hw cf : nat) :
  samplewise N -> keeps_batch N -> keeps_sizes N hw cf ->
  (1 <= n)%nat -> (1 <= c)%nat -> (1 <= hw)%nat ->
  shaped_seq n c hw lqs -> shaped_seq n 3 (16 * hw) guides ->
  length guides = length lqs -> (2 <= length lqs)%nat ->
  stage_inputs hg_idx n hw (mid_channels self) (length lqs) ei ef ->
  is_mirror_extended
    (fst (hg_prepare N self is_cuda lqs guides ei ef hg_idx)) = false ->
  exists spatial ff fb,
    snd (hg_prepare N self is_cuda lqs guides ei ef hg_idx)
    = Ok ([("spatial"%string, spatial)], Some ff, fb) /\
    length spatial = length lqs /\ Forall (batch_of n) spatial /\
    S (length ff) = length lqs /\ Forall (batch_of n) ff /\
    S (length fb) = length lqs /\ Forall (batch_of n) fb.
Proof.
  intros HS HK HZ Hn Hc Hhw Sl Sg Hlen HT Hextra Hflag.
  set (self' := fst (hg_prepare N self is_cuda lqs guides ei ef hg_idx)) in *.
  assert (Hmid : mid_channels self' = mid_channels self).
  { unfold self'. rewrite hg_prepare_state, check_mid_channels. reflexivity. }
  assert (Hsnd : snd (hg_prepare N self is_cuda lqs guides ei ef hg_idx)
                 = (spatial <- spatial_features N self' lqs guides ei ef
                                 hg_idx ;;
                    let hw' := if cpu_cache self' then plane_size lqs
                               else plane_size spatial in
                    '(flows_forward, flows_backward) <-
                      compute_flow N self' guides hg_idx ;;
                    flows_forward <-
                      resize_flows N (batch_size lqs) (length lqs) hw'
                        flows_forward ;;
                    flows_backward <-
                      resize_flows N (batch_size lqs) (length lqs) hw'
                        (Some flows_backward) ;;
                    Ok ([("spatial"%string, spatial)], Some flows_forward,
                        flows_backward))) by reflexivity.
  rewrite Hsnd.
  destruct (@spatial_features_ok N lqs guides ei ef hg_idx n c hw cf
              (mid_channels self) HS HZ Sl Sg Hlen ltac:(lia) Hn Hc Hhw
              Hextra) as (spatial & Hsp & Ls & Ss).
  rewrite (Hsp self' Hmid). cbn [bind]. cbv zeta.
  rewrite (plane_size_shaped Sl) by lia.
  rewrite (plane_size_shaped Ss) by (pose proof (ks_channels HZ); lia).
  replace (if cpu_cache self' then hw else hw) with hw
    by (destruct (cpu_cache self'); reflexivity).
  destruct (spynet_samplewise HS hg_idx) as [f Hf].
  rewrite (@compute_flow_value N self' guides hg_idx n 3 (16 * hw) f Hf
             (ks_flow HZ) Sg Hn ltac:(lia) ltac:(lia) ltac:(lia)), Hflag.
  cbn [bind].
  rewrite (batch_size_regular (shaped_batches Sl) ltac:(lia)).
  pose proof (length_removelast' guides) as Lr.
  pose proof (length_tl guides) as Lt.
  assert (Sr : shaped_seq n 3 (16 * hw) (removelast guides))
    by (apply Forall_removelast, Sg).
  assert (St : shaped_seq n 3 (16 * hw) (tl guides))
    by (apply Forall_tl, Sg).
  pose proof (@flow_sample_sized N hg_idx 3 (16 * hw) f Hf (ks_flow HZ))
    as Hfs.
  destruct (@resize_flows_ok N n (length lqs) hw cf
              (zip_with (zip_with f) (tl guides) (removelast guides)))
    as (ff & Hff & Lff & Bff); try assumption.
  { apply (@shaped_zip _ n 3%nat (16 * hw)%nat 3%nat (16 * hw)%nat 2%nat
             (16 * hw)%nat _ _ Hfs); assumption. }
  { rewrite zip_with_length; lia. }
  { rewrite zip_with_length; lia. }
  rewrite Hff. cbn [bind].
  destruct (@resize_flows_ok N n (length lqs) hw cf
              (zip_with (zip_with f) (removelast guides) (tl guides)))
    as (fb & Hfb & Lfb & Bfb); try assumption.
  { apply (@shaped_zip _ n 3%nat (16 * hw)%nat 3%nat (16 * hw)%nat 2%nat
             (16 * hw)%nat _ _ Hfs); assumption. }
  { rewrite zip_with_length; lia. }
  { rewrite zip_with_length; lia. }
  rewrite Hfb. cbn [bind].
  exists spatial, ff, fb. split; [reflexivity|].
  pose proof (shaped_batches Ss).
  repeat split; try assumption; lia.
Qed.

(** X16. A stage runs to completion on every sequence of the documented
    sizes that leaves the mirror flag unset: for T >= 2 low-resolution frames
    of n >= 1 samples, c >= 1 channels and h*w >= 1 pixels, as many guide
    frames of 3 channels and 16*h*w pixels (and, in the second stage, as many
    extra inputs of 2 channels and 16*h*w pixels and fused features of
    [mid_channels] channels and h*w pixels), with operators that act sample by
    sample, keep the batch size and the sizes of a stage, and a prediction
    head of at least two channels, [hg_forward] returns depth and confidence
    with exactly T frames each, and the fused features in the first stage
    only.  (The sizes inside the propagation and the reconstruction are left
    to the operators.) *)
Theorem stage_returns_all_frames
    (N : Networks) (self : DVSR) (is_cuda : bool) (lqs guides : Seq)
    (ei ef : option Seq) (hg_idx n c hw cf : nat) :
  samplewise N -> keeps_batch N -> keeps_sizes N hw cf ->
  (1 <= n)%nat -> (1 <= c)%nat -> (1 <= hw)%nat ->
  shaped_seq n c hw lqs -> shaped_seq n 3 (16 * hw) guides ->
  length guides = length lqs -> (2 <= length lqs)%nat ->
  stage_inputs hg_idx n hw (mid_channels self) (length lqs) ei ef ->
  is_mirror_extended
    (fst (hg_forward N self is_cuda lqs guides ei ef hg_idx)) = false ->
  exists depth conf fused,
    snd (hg_forward N self is_cuda lqs guides ei ef hg_idx)
    = Ok (depth, conf, fused) /\
    length depth = length lqs /\ length conf = length lqs /\
    (fused = None <-> hg_idx <> 1%nat).
Proof.
  intros HS HK HZ Hn Hc Hhw Sl Sg Hlen HT Hextra Hflag.
  rewrite hg_forward_state in Hflag.
  rewrite hg_forward_result.
  destruct (@hg_prepare_ok N self is_cuda lqs guides ei ef hg_idx n c hw cf
              HS HK HZ Hn Hc Hhw Sl Sg Hlen HT Hextra Hflag)
    as (spatial & ff & fb & Hprep & Ls & Bs & Lff & Bff & Lfb & Bfb).
  set (self' := fst (hg_prepare N self is_cuda lqs guides ei ef hg_idx)) in *.
  rewrite Hprep. cbn [bind].
  assert (Hok0 : stage_ok n (length lqs) [("spatial"%string, spatial)]).
  { split; [exists spatial; reflexivity|].
    constructor; [split; assumption|constructor]. }
  destruct (@propagate_all_ok N self' hg_idx n (length lqs) ff fb branches
              HK branches_not_spatial Bff Bfb Lff Lfb HT _ Hok0)
    as (feats & Hall & Hok).
  rewrite Hall. cbn [bind].
  destruct (@upsample_frames N lqs hg_idx n feats HK Hn Hok ltac:(lia))
    as (depth & conf & fused & Hup & Ld & Lc & _).
  rewrite Hup. cbn [bind].
  destruct (Nat.eqb hg_idx 1) eqn:E.
  - apply Nat.eqb_eq in E. do 3 eexists. split; [reflexivity|].
    split; [exact Ld|]. split; [exact Lc|].
    split; [discriminate|intros Hne; contradiction].
  - apply Nat.eqb_neq in E. do 3 eexists. split; [reflexivity|].
    split; [exact Ld|]. split; [exact Lc|].
    split; [intros _; exact E|reflexivity].
Qed.

Lemma stage_returns_all_frames_witness :
  exists depth conf fused,
    snd (hg_forward shaped_networks toy_model false plain_pair plain_guides
           None None 1)
    = Ok (depth, conf, fused) /\
    length depth = 2%nat.
Proof.
  destruct (@stage_returns_all_frames shaped_networks toy_model false
              plain_pair plain_guides None None 1 1 1 1 1
              shaped_samplewise keeps_batch_shaped (keeps_sizes_shaped 1))
    as (depth & conf & fused & Hrun & Ld & _).
  - lia.
  - lia.
  - lia.
  - exact plain_pair_shaped.
  - exact plain_guides_shaped.
  - reflexivity.
  - simpl. lia.
  - left. reflexivity.
  - rewrite hg_forward_state, hg_prepare_state, check_flag_indep.
    rewrite check_plain_pair by reflexivity. reflexivity.
  - exists depth, conf, fused. split; [exact Hrun|exact Ld].
Defined.

(** X24. From two frames on, the frame-sequential mode used under CPU
    offload and the batched mode agree: for T >= 2 frames of the documented
    sizes (as in X16) and operators that treat the samples of a batch
    independently and keep the sizes of a stage, the two modes compute the
    same spatial features, the same flows (one frame pair at a time and
    concatenated, or all pairs in one call), and the same result of the whole
    stage-forward call. *)
Theorem modes_agree_from_two_frames
    (N : Networks) (self : DVSR) (lqs guides : Seq) (ei ef : option Seq)
    (hg_idx n c hw cf : nat) :
  samplewise N -> keeps_sizes N hw cf ->
  (1 <= n)%nat -> (1 <= c)%nat -> (1 <= hw)%nat ->
  shaped_seq n c hw lqs -> shaped_seq n 3 (16 * hw) guides ->
  length guides = length lqs -> (2 <= length lqs)%nat ->
  stage_inputs hg_idx n hw (mid_channels self) (length lqs) ei ef ->
  (cpu_cache_length self < length lqs)%nat ->
  let offload := fst (hg_prepare N self true lqs guides ei ef hg_idx) in
  let resident := fst (hg_prepare N self false lqs guides ei ef hg_idx) in
  cpu_cache offload = true /\ cpu_cache resident = false /\
  (exists spatial,
      spatial_features N offload lqs guides ei ef hg_idx = Ok spatial /\
      spatial_features N resident lqs guides ei ef hg_idx = Ok spatial) /\
  (is_mirror_extended offload = false ->
   exists flows_forward flows_backward,
     compute_flow N offload guides hg_idx
     = Ok (Some flows_forward, flows_backward) /\
     compute_flow N resident guides hg_idx
     = Ok (Some flows_forward, flows_backward)) /\
  snd (hg_forward N self true lqs guides ei ef hg_idx)
  = snd (hg_forward N self false lqs guides ei ef hg_idx).
Proof.
  intros HN HZ Hn Hc Hhw Sl Sg Hlen Ht Hstage Hcache offload resident.
  assert (Eoff : offload
                 = check_if_mirror_extended (set_cpu_cache self true) lqs).
  { unfold offload. rewrite hg_prepare_state.
    rewrite (proj2 (Nat.ltb_lt _ _) Hcache). reflexivity. }
  assert (Eres : resident
                 = check_if_mirror_extended (set_cpu_cache self false) lqs).
  { unfold resident. rewrite hg_prepare_state, andb_false_r. reflexivity. }
  assert (Hflag : is_mirror_extended offload = is_mirror_extended resident).
  { rewrite Eoff, Eres, !check_flag_indep. reflexivity. }
  assert (Hmo : mid_channels offload = mid_channels self).
  { rewrite Eoff, check_mid_channels. reflexivity. }
  assert (Hmr : mid_channels resident = mid_channels self).
  { rewrite Eres, check_mid_channels. reflexivity. }
  split; [rewrite Eoff, check_cpu_cache; reflexivity|].
  split; [rewrite Eres, check_cpu_cache; reflexivity|].
  split.
  { destruct (@spatial_features_ok N lqs guides ei ef hg_idx n c hw cf
                (mid_channels self) HN HZ Sl Sg Hlen ltac:(lia) Hn Hc Hhw
                Hstage) as (spatial & Hsp & _).
    exists spatial. split; apply Hsp; assumption. }
  split.
  { intros Hunflagged.
    destruct (spynet_samplewise HN hg_idx) as [f Hf].
    rewrite !(@compute_flow_value N _ guides hg_idx n 3 (16 * hw) f)
      by (auto; try lia; apply (ks_flow HZ)).
    rewrite <- Hflag, Hunflagged. eauto. }
  rewrite !hg_forward_result. fold offload. fold resident.
  assert (Hprep : snd (hg_prepare N self true lqs guides ei ef hg_idx)
                  = snd (hg_prepare N self false lqs guides ei ef hg_idx)).
  { unfold hg_prepare. cbv zeta. cbn [snd].
    rewrite (proj2 (Nat.ltb_lt _ _) Hcache), andb_false_r. cbn [andb].
    rewrite <- Eoff, <- Eres.
    apply (@modes_agree_on_prepare N offload resident lqs guides ei ef
             hg_idx n c hw cf); auto; [rewrite Hmo; exact Hstage|congruence]. }
  rewrite Hprep.
  destruct (snd (hg_prepare N self false lqs guides ei ef hg_idx))
    as [[[feats ff] fb]|e]; cbn [bind]; [|reflexivity].
  rewrite (@propagate_all_self N offload resident hg_idx ff fb branches
             ltac:(congruence)).
  reflexivity.
Qed.

Lemma modes_agree_from_two_frames_witness :
  (cpu_cache_length toy_offload_model < length plain_pair)%nat /\
  cpu_cache
    (fst (hg_prepare shaped_networks toy_offload_model true plain_pair
            plain_guides None None 1)) = true /\
  snd (hg_forward shaped_networks toy_offload_model true plain_pair
         plain_guides None None 1)
  = snd (hg_forward shaped_networks toy_offload_model false plain_pair
           plain_guides None None 1).
Proof.
  assert (Hc : (cpu_cache_length toy_offload_model < length plain_pair)%nat)
    by (simpl; lia).
  split; [exact Hc|].
  destruct (@modes_agree_from_two_frames shaped_networks toy_offload_model
              plain_pair plain_guides None None 1 1 1 1 1
              shaped_samplewise (keeps_sizes_shaped 1))
    as (Hoff & _ & _ & _ & Hsame);
    try lia; try exact plain_pair_shaped; try exact plain_guides_shaped;
    try reflexivity; try (simpl; lia); try exact Hc.
  - left. reflexivity.
  - split; [exact Hoff|exact Hsame].
Defined.

(** ** The channel layout of the HVSR input *)

Lemma slice_sample_shaped (a b c hw : nat) (s : Sample) :
  shaped_sample c hw s -> (a <= b <= c)%nat ->
  shaped_sample (b - a) hw (skipn a (firstn b s)).
Proof.
  intros [L F] Hab. split.
  - rewrite length_skipn, length_firstn. lia.
  - apply Forall_skipn, Forall_firstn, F.
Qed.

Lemma slices_partition {A : Type} (a b : nat) (s : list A) :
  (a <= b)%nat ->
  skipn 0 (firstn a s) ++ skipn a (firstn b s) ++ skipn b s = s.
Proof.
  intros Hab. cbn [skipn].
  rewrite app_assoc.
  replace (firstn a s) with (firstn a (firstn b s))
    by (rewrite firstn_firstn; f_equal; lia).
  rewrite firstn_skipn. apply firstn_skipn.
Qed.

Lemma map_map_shaped (n c c' hw : nat) (f : Sample -> Sample) (x : Seq) :
  (forall s, shaped_sample c hw s -> shaped_sample c' hw (f s)) ->
  shaped_seq n c hw x -> shaped_seq n c' hw (map (map f) x).
Proof.
  intros Hf Hx. unfold shaped_seq in *. apply Forall_map.
  eapply Forall_impl; [|exact Hx]. intros b [Lb Fb]. split.
  - rewrite length_map. exact Lb.
  - apply Forall_map. eapply Forall_impl; [|exact Fb]. exact Hf.
Qed.

(** X17. The three slices at the head of [HVSR.forward] partition the
    channels of [lqs_comb]: for an input of c >= 3 * mpeaks + 3 channels the
    peaks have mpeaks channels, the CDFs 2 * mpeaks + 3 and the rebin indices
    the remaining c - (3 * mpeaks + 3); concatenated along the channel axis
    in this order they give the input back. *)
Theorem lqs_comb_slices_partition_channels
    (mpeaks n c hw : nat) (lqs_comb : Seq) :
  shaped_seq n c hw lqs_comb -> (3 * mpeaks + 3 <= c)%nat ->
  let '(peaks, cdfs, rebins) := split_lqs_comb mpeaks lqs_comb in
  shaped_seq n mpeaks hw peaks /\
  shaped_seq n (2 * mpeaks + 3) hw cdfs /\
  shaped_seq n (c - (3 * mpeaks + 3)) hw rebins /\
  zip_with (zip_with (@app Plane))
    (zip_with (zip_with (@app Plane)) peaks cdfs) rebins
  = lqs_comb.
Proof.
  intros Hx Hc. unfold split_lqs_comb, slice_channels, drop_channels.
  split; [|split; [|split]].
  - apply (@map_map_shaped n c mpeaks hw); [|exact Hx].
    intros s Hs.
    replace mpeaks with (mpeaks - 0)%nat at 1 by lia.
    apply (slice_sample_shaped Hs). lia.
  - apply (@map_map_shaped n c (2 * mpeaks + 3) hw); [|exact Hx].
    intros s Hs.
    replace (2 * mpeaks + 3)%nat with (3 * mpeaks + 3 - mpeaks)%nat by lia.
    apply (slice_sample_shaped Hs). lia.
  - apply (@map_map_shaped n c (c - (3 * mpeaks + 3)) hw); [|exact Hx].
    intros s [L F]. split.
    + rewrite length_skipn. lia.
    + apply Forall_skipn, F.
  - clear Hx. induction lqs_comb as [|b x IH]; [reflexivity|].
    cbn [map zip_with]. rewrite IH. f_equal.
    clear IH. induction b as [|s b IHb]; [reflexivity|].
    cbn [map zip_with]. rewrite IHb. f_equal.
    rewrite <- app_assoc. apply slices_partition. lia.
Qed.

Lemma lqs_comb_slices_partition_channels_witness :
  let '(peaks, cdfs, rebins) := split_lqs_comb 0 [[[[0]; [1]; [2]; [3]]]] in
  shaped_seq 1 3 1 cdfs /\ shaped_seq 1 1 1 rebins.
Proof.
  pose proof (@lqs_comb_slices_partition_channels 0 1 4 1
                [[[[0]; [1]; [2]; [3]]]]) as H.
  cbv beta iota zeta delta [split_lqs_comb] in H |- *.
  destruct H as (_ & Hc & Hr & _); [repeat constructor|simpl; lia|].
  split; [exact Hc|exact Hr].
Defined.

(** ** The model object across a call of [forward] *)

(** A stage that returns normally has left the model as it found it, the
    offload switch apart. *)
Lemma hg_forward_ok_state (N : Networks) (self : DVSR) (is_cuda : bool)
    (lqs guides : Seq) (ei ef : option Seq) (hg_idx : nat)
    (s : DVSR) (r : Seq * Seq * option Seq) :
  hg_forward N self is_cuda lqs guides ei ef hg_idx = (s, Ok r) ->
  is_mirror_extended self = false /\
  s = set_cpu_cache self
        (Nat.ltb (cpu_cache_length self) (length lqs) && is_cuda).
Proof.
  intros H.
  pose proof (hg_forward_state N self is_cuda lqs guides ei ef hg_idx) as Hs.
  rewrite H, hg_prepare_state in Hs. cbn [fst] in Hs.
  destruct (is_mirror_extended s) eqn:Hflag.
  - exfalso.
    assert (Hf : is_mirror_extended
                   (fst (hg_prepare N self is_cuda lqs guides ei ef hg_idx))
                 = true)
      by (rewrite hg_prepare_state, <- Hs; exact Hflag).
    destruct (@hg_forward_flagged _ _ _ _ _ _ _ _ Hf) as [e He].
    rewrite H in He. discriminate.
  - rewrite Hs in Hflag.
    pose proof (check_leaves_unflagged _ _ Hflag) as Hc.
    rewrite Hc in Hs. split; [|exact Hs].
    rewrite check_flag_indep in Hflag.
    destruct (is_mirror_extended self) eqn:E; [|reflexivity].
    rewrite (check_keeps_flag self lqs E) in Hflag. discriminate.
Qed.

(** X18. A call of [forward] that returns a result has found the mirror flag
    unset and leaves it unset, and changes nothing of the model but the
    offload switch, which it sets from the length of this sequence and the
    device alone. *)
Theorem forward_success_keeps_model
    (N : Networks) (self : DVSR) (is_cuda : bool) (lqs guides : Seq)
    (r : Seq * Intermed) :
  snd (forward N self is_cuda lqs guides) = Ok r ->
  let lqs' := repeat_interleave_hw N (Nat.div (scale self) 4) lqs in
  is_mirror_extended self = false /\
  fst (forward N self is_cuda lqs guides)
  = set_cpu_cache self
      (Nat.ltb (cpu_cache_length self) (length lqs') && is_cuda).
Proof.
  intros H lqs'. unfold forward in *. fold lqs' in H |- *.
  destruct (hg_forward N self is_cuda lqs' guides None None 1)
    as [s1 [[[rd rc] rf]|e]] eqn:H1; [|discriminate].
  destruct (hg_forward_ok_state H1) as [Hflag Hs1].
  split; [exact Hflag|].
  destruct (cat_seq_c rd rc) as [extra|e]; [|discriminate].
  destruct (hg_forward N s1 is_cuda lqs' guides (Some extra) rf 2)
    as [s2 [[[dd dc] o]|e]] eqn:H2; [|discriminate].
  destruct (hg_forward_ok_state H2) as [_ Hs2].
  cbn [fst]. rewrite Hs2, Hs1. reflexivity.
Qed.

Lemma forward_success_keeps_model_witness :
  exists r,
    snd (forward shaped_networks toy_model false plain_pair plain_guides)
    = Ok r /\
    fst (forward shaped_networks toy_model false plain_pair plain_guides)
    = toy_model.
Proof.
  assert (H : exists r,
             snd (forward shaped_networks toy_model false plain_pair
                    plain_guides) = Ok r).
  { cbv beta iota zeta delta [forward hg_forward hg_prepare].
    change (repeat_interleave_hw shaped_networks
              (Nat.div (scale toy_model) 4) plain_pair) with plain_pair.
    rewrite !check_plain_pair by reflexivity.
    eexists. run_model. }
  destruct H as [r Hr]. exists r. split; [exact Hr|].
  destruct (@forward_success_keeps_model shaped_networks toy_model false
              plain_pair plain_guides r Hr) as [_ Hs].
  rewrite Hs. reflexivity.
Defined.

(** ** A bound on the error map *)





(** ** Depths outside the unit interval *)

(** X20. [dtof_hist_torch] sees the predicted depth only through its clamp
    to [0, 1]: two depth maps of the same shape that agree after clamping
    give the same histogram, so a prediction beyond the range is
    indistinguishable from one on its border. *)
Theorem histogram_sees_clamped_depth
    (pitch : nat) (temp_res : Z) (d d' img rebin_idx hist : Tensor4) :
  (dim0 d', dim1 d', dim2 d', dim3 d') = (dim0 d, dim1 d, dim2 d, dim3 d) ->
  (forall b y x, clamp01 (at4 d' b 0 y x) = clamp01 (at4 d b 0 y x)) ->
  dtof_hist_torch pitch temp_res d img rebin_idx = Ok hist ->
  exists hist',
    dtof_hist_torch pitch temp_res d' img rebin_idx = Ok hist' /\
    (dim0 hist', dim1 hist', dim2 hist', dim3 hist')
    = (dim0 hist, dim1 hist, dim2 hist, dim3 hist) /\
    forall b m py px, at4 hist' b m py px = at4 hist b m py px.
Proof.
  intros Hdims Hclamp Hhist. inversion Hdims as [[D0 D1 D2 D3]].
  unfold dtof_hist_torch in *.
  assert (Hok : dtof_shapes_ok pitch d' img rebin_idx
                = dtof_shapes_ok pitch d img rebin_idx)
    by (unfold dtof_shapes_ok; rewrite D0, D1, D2, D3; reflexivity).
  rewrite Hok.
  destruct (dtof_shapes_ok pitch d img rebin_idx); [|discriminate].
  inversion Hhist; subst hist. eexists. split; [reflexivity|].
  cbn [dim0 dim1 dim2 dim3 at4]. split; [rewrite D0, D2, D3; reflexivity|].
  intros b m py px. unfold pooled_hist.
  apply rsum_ext. intros i _. apply rsum_ext. intros j _.
  unfold one_hot, occupied, intensity, depth_clamped.
  rewrite !Hclamp. reflexivity.
Qed.

Lemma histogram_sees_clamped_depth_witness :
  exists hist hist',
    dtof_hist_torch 1 2 zero_depth bright_guide toy_rebin = Ok hist /\
    dtof_hist_torch 1 2 (const4 1 1 1 1 (-1)) bright_guide toy_rebin
    = Ok hist' /\
    at4 hist' 0 0 0 0 = at4 hist 0 0 0 0.
Proof.
  assert (H : exists hist,
             dtof_hist_torch 1 2 zero_depth bright_guide toy_rebin = Ok hist)
    by (eexists; reflexivity).
  destruct H as [hist Hhist].
  destruct (@histogram_sees_clamped_depth 1 2 zero_depth
              (const4 1 1 1 1 (-1)) bright_guide toy_rebin hist)
    as (hist' & Hhist' & _ & Hval).
  - reflexivity.
  - intros b y x. cbn [const4 zero_depth at4].
    unfold clamp01, Rmin, Rmax.
    destruct (Rle_dec (-1) 0); destruct (Rle_dec 0 0); try lra;
      destruct (Rle_dec 0 1); lra.
  - exact Hhist.
  - exists hist, hist'. split; [exact Hhist|]. split; [exact Hhist'|].
    apply Hval.
Defined.

(** ** The model object across calls *)

(** X21. Once the mirror flag is set, every later call of [forward], on
    whatever sequence and in either execution mode, ends in an exception and
    leaves the flag set: nothing in the forward path ever clears it. *)
Theorem flagged_model_fails_forever
    (N : Networks) (self : DVSR) (is_cuda : bool) (lqs guides : Seq) :
  is_mirror_extended self = true ->
  (exists e, snd (forward N self is_cuda lqs guides) = Raise e) /\
  is_mirror_extended (fst (forward N self is_cuda lqs guides)) = true.
Proof.
  intros Hflag. unfold forward.
  set (lqs' := repeat_interleave_hw N (Nat.div (scale self) 4) lqs).
  assert (Hf : is_mirror_extended
                 (fst (hg_prepare N self is_cuda lqs' guides None None 1))
               = true).
  { rewrite hg_prepare_state, check_flag_indep.
    apply check_keeps_flag, Hflag. }
  destruct (@hg_forward_flagged _ _ _ _ _ _ _ _ Hf) as [e He].
  pose proof (hg_forward_state N self is_cuda lqs' guides None None 1) as Hs.
  destruct (hg_forward N self is_cuda lqs' guides None None 1) as [s1 r1].
  cbn [fst snd] in He, Hs. subst r1. cbn [fst snd].
  split; [exists e; reflexivity|]. rewrite Hs. exact Hf.
Qed.

Lemma flagged_model_fails_forever_witness :
  exists e,
    snd (forward shaped_networks (set_mirror toy_model true) false plain_pair
           plain_guides) = Raise e.
Proof.
  apply (@flagged_model_fails_forever shaped_networks
           (set_mirror toy_model true) false plain_pair plain_guides eq_refl).
Defined.

(** X22. Whether it returns or raises, a stage call never clears the mirror
    flag and never touches the configuration of the model; unlike the mirror
    flag, the offload switch is recomputed by every call from the length of
    its sequence and the device, so it is never on for a CPU input. *)
Theorem stage_call_model_state
    (N : Networks) (self : DVSR) (is_cuda : bool) (lqs guides : Seq)
    (ei ef : option Seq) (hg_idx : nat) :
  let s := fst (hg_forward N self is_cuda lqs guides ei ef hg_idx) in
  (is_mirror_extended self = true -> is_mirror_extended s = true) /\
  cpu_cache s = (Nat.ltb (cpu_cache_length self) (length lqs) && is_cuda)%bool /\
  (is_cuda = false -> cpu_cache s = false) /\
  (cpu_cache_length s, mid_channels s, scale s)
  = (cpu_cache_length self, mid_channels self, scale self).
Proof.
  intros s. unfold s. rewrite hg_forward_state, hg_prepare_state.
  assert (Hc : cpu_cache
                 (check_if_mirror_extended
                    (set_cpu_cache self
                       (Nat.ltb (cpu_cache_length self) (length lqs)
                        && is_cuda)) lqs)
               = (Nat.ltb (cpu_cache_length self) (length lqs) && is_cuda)%bool)
    by (rewrite check_cpu_cache; reflexivity).
  split; [|split; [exact Hc|split]].
  - intros Hflag. rewrite check_flag_indep. apply check_keeps_flag, Hflag.
  - intros ->. rewrite Hc. apply andb_false_r.
  - unfold check_if_mirror_extended.
    destruct (Nat.eqb _ 0); [|reflexivity].
    destruct (chunk2_time lqs) as [l1 l2].
    destruct (Req_dec_T _ 0); reflexivity.
Qed.

(** ** The frame mapping of [propagate] *)

Lemma py_index_app_r {A : Type} (l r : list A) (i : Z) :
  (Z.of_nat (length l) <= i < Z.of_nat (length l) + Z.of_nat (length r))%Z ->
  py_index (l ++ r) i = py_index r (i - Z.of_nat (length l)).
Proof.
  intros Hi. unfold py_index. rewrite length_app.
  replace (i <? 0)%Z with false by (symmetry; apply Z.ltb_ge; lia).
  replace (i - Z.of_nat (length l) <? 0)%Z with false
    by (symmetry; apply Z.ltb_ge; lia).
  replace ((0 <=? i) && (i <? Z.of_nat (length l + length r)))%Z%bool
    with true
    by (symmetry; apply andb_true_intro; split;
        [apply Z.leb_le|apply Z.ltb_lt]; lia).
  replace ((0 <=? i - Z.of_nat (length l))
           && (i - Z.of_nat (length l) <? Z.of_nat (length r)))%Z%bool
    with true
    by (symmetry; apply andb_true_intro; split;
        [apply Z.leb_le|apply Z.ltb_lt]; lia).
  rewrite nth_error_app2 by lia.
  replace (Z.to_nat i - length l)%nat
    with (Z.to_nat (i - Z.of_nat (length l))) by lia.
  reflexivity.
Qed.

(** X23. The index list [mapping_idx] that [propagate] builds from the L
    spatial features reflects the frame index at the end of the list:
    position idx < 2L is mapped to idx itself below L and to 2L - 1 - idx
    from L on, so it is the identity on all frames whenever there are as many
    spatial features as frames. *)
Theorem mapping_reflects_frame_index
    (feats : Feats) (spatial : list Batch) (idx : Z) :
  dict_get feats "spatial" = Ok spatial ->
  (0 <= idx < 2 * Z.of_nat (length spatial))%Z ->
  exists mapping_idx,
    mapping_indices feats = Ok mapping_idx /\
    py_index mapping_idx idx
    = Ok (Z.min idx (2 * Z.of_nat (length spatial) - 1 - idx)).
Proof.
  intros Hsp Hidx. unfold mapping_indices. rewrite Hsp. cbn [bind].
  eexists. split; [reflexivity|].
  set (L := Z.of_nat (length spatial)) in *.
  assert (Hlen : Z.of_nat (length (py_range 0 L)) = L)
    by (rewrite py_range_length; lia).
  destruct (Z.lt_ge_cases idx L) as [Hlt|Hge].
  - rewrite py_index_app_l by lia.
    rewrite py_index_range by lia. f_equal. lia.
  - rewrite py_index_app_r by (rewrite length_rev, Hlen; lia).
    rewrite Hlen, py_index_rev_range by lia. f_equal. lia.
Qed.

Lemma mapping_reflects_frame_index_witness :
  exists mapping_idx,
    mapping_indices toy_feats = Ok mapping_idx /\
    py_index mapping_idx 3 = Ok 0%Z.
Proof.
  destruct (@mapping_reflects_frame_index toy_feats plain_pair 3 eq_refl)
    as (mi & Hmi & Hidx); [simpl; lia|].
  exists mi. split; [exact Hmi|exact Hidx].
Defined.
